(** * MediathekView catalog synchronisation: a shallow embedding

    The development follows the two Python 2 source files of the add-on:

    - [classes/updater.py]: class [MediathekViewUpdater] (mirror resolution,
      snapshot download, streaming record decoder, import driver);
    - [resources/lib/mvutils.py]: [make_duration] and the chunked URL copier.

    Python strings are modelled as [string] (sequences of 8-bit characters),
    Python integers as [Z], the [film] dictionary as a [gmap] from key
    strings to values, exceptions as an explicit [result] type, and calls
    into external collaborators (storage, notifier, network, file system) as
    events of a trace, with the collaborators' answers supplied by an
    environment record. *)

From Stdlib Require Import ZArith Strings.String Strings.Ascii.
From Stdlib Require Import Numbers.DecimalString Numbers.DecimalN.
From Stdlib Require Import Sorting.Sorted Sorting.Permutation.
From stdpp Require Import gmap strings list.

Open Scope string_scope.
Open Scope list_scope.
Open Scope nat_scope.

(** ** Python built-ins used by the sources *)

Module Py.

(** Exceptions that the modelled code can raise or has to handle. *)
Inductive exn : Type :=
| ValueError
| KeyError
| TypeError
| NameError
| UnboundLocalError
| IOError (cause : string)
| JSONError
| ExitRequested.

(** A call either returns a value or raises. *)
Inductive result (A : Type) : Type :=
| Ok (a : A)
| Raise (e : exn).
Arguments Ok {A} a.
Arguments Raise {A} e.

(** Sequencing: an exception raised by the first call skips the rest. *)
#[global] Instance result_ret : MRet result := fun A a => Ok a.
#[global] Instance result_bind : MBind result := fun A B k r =>
  match r with
  | Ok a => k a
  | Raise e => Raise e
  end.

(** Whitespace as [unicode.strip] and [int] see it, on 8-bit characters:
    TAB..CR, FS..US, SPACE, NEL and NBSP. *)
Definition is_space (c : ascii) : bool :=
  let n := nat_of_ascii c in
  (((9 <=? n) && (n <=? 13)) || ((28 <=? n) && (n <=? 32))
   || (n =? 133) || (n =? 160))%nat.

Fixpoint lstrip (s : string) : string :=
  match s with
  | String c r => if is_space c then lstrip r else s
  | EmptyString => EmptyString
  end.

Fixpoint rstrip (s : string) : string :=
  match s with
  | String c r =>
      match rstrip r with
      | EmptyString => if is_space c then EmptyString else String c EmptyString
      | r' => String c r'
      end
  | EmptyString => EmptyString
  end.

(** [s.strip()] *)
Definition strip (s : string) : string := rstrip (lstrip s).

(** [s.split(sep)] for a one-character separator: one more part than
    there are separators, empty parts included. *)
Fixpoint split (sep : ascii) (s : string) : list string :=
  match s with
  | EmptyString => [EmptyString]
  | String c r =>
      if Ascii.eqb c sep then EmptyString :: split sep r
      else match split sep r with
           | h :: t => String c h :: t
           | [] => [String c EmptyString]
           end
  end.

(** Value of a non-empty string of ASCII decimal digits. *)
Definition digits_value (s : string) : option Z :=
  match s with
  | EmptyString => None
  | _ => Z.of_uint <$> NilEmpty.uint_of_string s
  end.

(** [int(s)] in base 10 (Python 2): surrounding whitespace is skipped, an
    optional sign may be followed by whitespace, then one or more decimal
    digits must make up the rest; anything else is a [ValueError]. *)
Definition int (s : string) : result Z :=
  let s := strip s in
  let '(neg, body) :=
    match s with
    | String "-"%char r => (true, lstrip r)
    | String "+"%char r => (false, lstrip r)
    | _ => (false, s)
    end in
  match digits_value body with
  | Some z => Ok (if neg then (- z)%Z else z)
  | None => Raise ValueError
  end.

(** [s[a:b]] for literal bounds [0 <= a], [0 <= b]. *)
Definition slice (a b : nat) (s : string) : string := substring a (b - a) s.

(** [s[a:]] for a literal bound [0 <= a]. *)
Definition slice_from (a : nat) (s : string) : string :=
  substring a (String.length s - a) s.

(** [s[:n]] for an arbitrary integer [n]: a negative bound counts from the
    end of the string. *)
Definition slice_to (n : Z) (s : string) : string :=
  if (0 <=? n)%Z then substring 0 (Z.to_nat n) s
  else substring 0 (String.length s - Z.to_nat (- n)) s.

(** Number of occurrences of a character, [s.count(c)]. *)
Fixpoint occurrences (c : ascii) (s : string) : nat :=
  match s with
  | EmptyString => 0
  | String c' r => (if Ascii.eqb c' c then 1 else 0) + occurrences c r
  end.

(** The ASCII decimal digits. *)
Definition is_digit (c : ascii) : bool :=
  let n := nat_of_ascii c in ((48 <=? n) && (n <=? 57))%nat.

Fixpoint all_chars (p : ascii → bool) (s : string) : bool :=
  match s with
  | EmptyString => true
  | String c r => p c && all_chars p r
  end.

(** A decimal numeral [d] as text; it is empty only for [Nil], and leading
    zeros are numerals too. *)
Definition numeral (d : Decimal.uint) : string := NilEmpty.string_of_uint d.

(** [c in s] for a character [c]. *)
Fixpoint contains (c : ascii) (s : string) : bool :=
  match s with
  | EmptyString => false
  | String c' r => Ascii.eqb c' c || contains c r
  end.

(** [''.join([c for c in s if p(c)])] *)
Fixpoint str_filter (p : ascii → bool) (s : string) : string :=
  match s with
  | EmptyString => EmptyString
  | String c r => if p c then String c (str_filter p r) else str_filter p r
  end.

Fixpoint str_map (f : ascii → ascii) (s : string) : string :=
  match s with
  | EmptyString => EmptyString
  | String c r => String (f c) (str_map f r)
  end.

(** [s.upper()] on ASCII: the letters [a]..[z] move to [A]..[Z]. The sources
    apply it to text from which every other letter has been filtered out. *)
Definition upper_char (c : ascii) : ascii :=
  let n := nat_of_ascii c in
  if ((97 <=? n) && (n <=? 122))%nat then ascii_of_nat (n - 32) else c.

Definition upper (s : string) : string := str_map upper_char s.

(** [string.letters] (in the C locale) and [string.digits]. *)
Definition letters : string := "abcdefghijklmnopqrstuvwxyzABCDEFGHIJKLMNOPQRSTUVWXYZ".
Definition digits : string := "0123456789".

(** The string of the characters with the given code points. *)
Definition of_codes (codes : list nat) : string :=
  string_of_list_ascii (map ascii_of_nat codes).

(** A string that is empty or starts with a character other than
    whitespace. *)
Definition starts_clean (s : string) : Prop :=
  match s with
  | String c _ => is_space c = false
  | EmptyString => True
  end.

End Py.

Import Py.

(** ** The file system as [os.stat] and [os.remove] see it *)

Module Os.

Inductive kind : Type :=
| Regular
| Directory
| Special.

(** What [os.stat] reports for a path, and whether [os.remove] would be
    permitted on it. *)
Record inode : Type := Inode {
  st_kind : kind;
  st_size : Z;
  removable : bool
}.

Definition is_regular (i : inode) : bool :=
  match st_kind i with Regular => true | _ => false end.

Definition is_directory (i : inode) : bool :=
  match st_kind i with Directory => true | _ => false end.

(** [os.remove(name)]: [None] stands for the [OSError] raised for a missing
    path, a directory, or a file that may not be removed. *)
Definition remove (name : string) (fs : gmap string inode) : option (gmap string inode) :=
  match fs !! name with
  | Some i => if removable i && negb (is_directory i) then Some (delete name fs) else None
  | None => None
  end.

End Os.

(** ** classes/updater.py: the record decoder *)

Module Updater.

(** Values stored in the [film] dictionary. *)
Inductive value : Type :=
| VStr (s : string)
| VInt (z : Z).

#[global] Instance value_eq_dec : EqDecision value.
Proof. solve_decision. Defined.

(** The attributes of [self] that the decoder and the driver use. *)
Record updater : Type := mkUpdater {
  index : nat;
  count : nat;
  channels : Z;
  shows : Z;
  movies : Z;
  film : gmap string value
}.

Definition set_index (i : nat) (self : updater) : updater :=
  mkUpdater i (count self) (channels self) (shows self) (movies self) (film self).

Definition set_film (f : gmap string value) (self : updater) : updater :=
  mkUpdater (index self) (count self) (channels self) (shows self) (movies self) f.

(** [self.film[k] = v] *)
Definition film_set (k : string) (v : value) (self : updater) : updater :=
  set_film (<[k := v]> (film self)) self.

Definition default_aired : string := "1980-01-01 00:00:00".

(** The dictionary literal of [_update_start]. *)
Definition initial_film : gmap string value :=
  <["channel" := VStr ""]> (
  <["show" := VStr ""]> (
  <["title" := VStr ""]> (
  <["aired" := VStr default_aired]> (
  <["duration" := VStr "00:00:00"]> (
  <["size" := VInt 0]> (
  <["description" := VStr ""]> (
  <["website" := VStr ""]> (
  <["url_sub" := VStr ""]> (
  <["url_video" := VStr ""]> (
  <["url_video_sd" := VStr ""]> (
  <["url_video_hd" := VStr ""]> (
  <["airedepoch" := VInt 0]> (
  <["geo" := VStr ""]> ∅))))))))))))).

(** The state after the assignments of [_update_start]. *)
Definition initial_updater : updater := mkUpdater 0 0 0 0 0 initial_film.

(** [_init_record]: [self.index = 0], then twelve assignments into
    [self.film], in source order. *)
Definition _init_record (self : updater) : updater :=
  film_set "geo" (VStr "") (
  film_set "airedepoch" (VInt 0) (
  film_set "url_video_hd" (VStr "") (
  film_set "url_video_sd" (VStr "") (
  film_set "url_video" (VStr "") (
  film_set "url_sub" (VStr "") (
  film_set "website" (VStr "") (
  film_set "description" (VStr "") (
  film_set "size" (VInt 0) (
  film_set "duration" (VStr "00:00:00") (
  film_set "aired" (VStr default_aired) (
  film_set "title" (VStr "") (
  set_index 0 self)))))))))))).

(** The keys that [_init_record] assigns. *)
Definition reset_keys : list string :=
  ["title"; "aired"; "duration"; "size"; "description"; "website"; "url_sub";
   "url_video"; "url_video_sd"; "url_video_hd"; "airedepoch"; "geo"].

(** [_make_url]: delta expansion against [self.film["url_video"]]. *)
Definition _make_url (self : updater) (val : string) : result value :=
  match split "|"%char val with
  | [x0; x1] =>
      cnt ← int x0;
      match film self !! "url_video" with
      | Some (VStr url) => Ok (VStr (slice_to cnt url +:+ x1))
      | Some (VInt _) => Raise TypeError
      | None => Raise KeyError
      end
  | _ => Ok (VStr val)
  end.

(** The string that position 3 builds from a raw date:
    [val[6:] + '-' + val[3:5] + '-' + val[:2]]. *)
Definition reformat_date (val : string) : string :=
  slice_from 6 val +:+ "-" +:+ slice 3 5 val +:+ "-" +:+ slice_to 2 val.

(** The [if]/[elif] chain of [_add_value], before the final increment of
    [self.index]. *)
Definition _add_value_field (self : updater) (val : string) : result updater :=
  let i := index self in
  if (i =? 0)%nat then
    if negb (String.eqb val "") then Ok (film_set "channel" (VStr val) self)
    else Ok self
  else if (i =? 1)%nat then
    if negb (String.eqb val "") then Ok (film_set "show" (VStr (slice_to 255 val)) self)
    else Ok self
  else if (i =? 2)%nat then
    Ok (film_set "title" (VStr (slice_to 255 val)) self)
  else if (i =? 3)%nat then
    if (String.length val =? 10)%nat then
      Ok (film_set "aired" (VStr (reformat_date val)) self)
    else Ok self
  else if (i =? 4)%nat then
    match film self !! "aired" with
    | None => Raise KeyError
    | Some (VStr aired) =>
        if negb (String.eqb aired default_aired) && ((String.length val =? 8)%nat) then
          Ok (film_set "aired" (VStr (aired +:+ " " +:+ val)) self)
        else Ok self
    | Some (VInt _) =>
        if (String.length val =? 8)%nat then Raise TypeError else Ok self
    end
  else if (i =? 5)%nat then
    if (String.length val =? 8)%nat then Ok (film_set "duration" (VStr val) self)
    else Ok self
  else if (i =? 6)%nat then
    if negb (String.eqb val "") then
      z ← int val; Ok (film_set "size" (VInt z) self)
    else Ok self
  else if (i =? 7)%nat then Ok (film_set "description" (VStr val) self)
  else if (i =? 8)%nat then Ok (film_set "url_video" (VStr val) self)
  else if (i =? 9)%nat then Ok (film_set "website" (VStr val) self)
  else if (i =? 10)%nat then Ok (film_set "suburl_subtitles" (VStr val) self)
  else if (i =? 12)%nat then
    u ← _make_url self val; Ok (film_set "url_video_sd" u self)
  else if (i =? 14)%nat then
    u ← _make_url self val; Ok (film_set "url_video_hd" u self)
  else if (i =? 16)%nat then
    if negb (String.eqb val "") then
      z ← int val; Ok (film_set "airedepoch" (VInt z) self)
    else Ok self
  else if (i =? 18)%nat then Ok (film_set "geo" (VStr val) self)
  else Ok self.

(** The key that [_add_value] may assign at each position of a record. *)
Definition field_at (i : nat) : option string :=
  match i with
  | 0 => Some "channel"
  | 1 => Some "show"
  | 2 => Some "title"
  | 3 | 4 => Some "aired"
  | 5 => Some "duration"
  | 6 => Some "size"
  | 7 => Some "description"
  | 8 => Some "url_video"
  | 9 => Some "website"
  | 10 => Some "suburl_subtitles"
  | 12 => Some "url_video_sd"
  | 14 => Some "url_video_hd"
  | 16 => Some "airedepoch"
  | 18 => Some "geo"
  | _ => None
  end.

(** [_add_value] *)
Definition _add_value (self : updater) (val : string) : result updater :=
  self' ← _add_value_field self val;
  Ok (set_index (index self' + 1) self').

(** Feeding the leaves of one record, left to right. *)
Fixpoint add_values (self : updater) (vals : list string) : result updater :=
  match vals with
  | [] => Ok self
  | v :: vs => self' ← _add_value self v; add_values self' vs
  end.

(** *** The import driver *)

(** Text handed to [sql.UpdateStatus] as description: a localized string,
    possibly formatted with the cause of an I/O error. *)
Inductive description : Type :=
| Msg (id : Z)
| MsgFormat (id : Z) (cause : string).

(** Calls into the collaborators of the updater, in program order.
    [UrlRetrieve] also records what the destination path holds when the
    call is made. Logger calls are not traced and the timestamp passed to
    [UpdateStatus] is left out. *)
Inductive event : Type :=
| SqlInit
| SqlExit
| UpdateStatus (status : string)
| UpdateStatusFull (status : string) (descr : description)
    (added deleted total : Z * Z * Z)
| FtInit
| FtUpdateStart
| FtInsertFilm (f : gmap string value)
| FtUpdateEnd (aborted : bool)
| ShowUpdateProgress
| UpdateUpdateProgress (percent : Z) (cnt : nat) (chn shw mov : Z)
| CloseUpdateProgress
| AbortRequested (cnt : nat) (answer : bool)
| FileClose
| ShowMissingXZError
| UrlOpen (url : string)
| ShowDowloadError (url : option string) (cause : string)
| OsRemove (name : string)
| ShowDownloadProgress
| UpdateDownloadProgress (percent : Z) (url : option string)
| UrlRetrieve (url : option string) (dest_before : option string)
| CloseDownloadProgress
| Xz (input : option string).

#[global] Instance description_eq_dec : EqDecision description.
Proof. solve_decision. Defined.

#[global] Instance event_eq_dec : EqDecision event.
Proof. solve_decision. Defined.

(** A token of [ijson.parse]: [(prefix, event, value)]; [value] is [None]
    for tokens that carry no string. *)
Record token : Type := Token {
  tok_prefix : string;
  tok_event : string;
  tok_value : option string
}.

(** How the token stream ends: at the end of the document, with an
    [IOError] from the underlying file, or with the parser's own
    [ijson.JSONError] on a malformed or truncated document, which is no
    [IOError]. *)
Inductive stream_end : Type :=
| EndOfStream
| ReadFails (cause : string)
| ParseFails.

(** One [Server] element of the manifest: for each of the children [URL]
    and [Prio], whether it is present and, if so, its text ([None] for an
    element without text). *)
Record server : Type := Server {
  srv_URL : option (option string);
  srv_Prio : option (option string)
}.

(** Outcome of fetching the manifest with [urllib2.urlopen(...).read()]. *)
Inductive fetch_outcome : Type :=
| Fetched (servers : list server)
| FetchFails (cause : string).

(** Outcome of [urllib.urlretrieve]: the whole payload is in the
    destination, or an [IOError] is raised, either before the destination
    was opened ([written = None]) or after it was overwritten with a
    truncated payload. *)
Inductive retrieve_outcome : Type :=
| Retrieved (payload : string)
| RetrieveFails (cause : string) (written : option string).

(** The dictionaries handed to [sql.ftInsertFilm], in call order. *)
Definition inserted_films (tr : list event) : list (gmap string value) :=
  omap (fun ev => match ev with FtInsertFilm f => Some f | _ => None end) tr.

(** The answers of the collaborators. Storage and the notifier are taken
    to return normally; [os_remove name] tells whether [os.remove] succeeds
    on the existing file [name] or raises [OSError]. *)
Record env : Type := Env {
  ftUpdateStart : Z * Z * Z;
  ftInsertFilm : nat → gmap string value → Z * Z * Z * Z;
  ftUpdateEnd : bool → Z * Z * Z * Z * Z * Z;
  abortRequested : nat → bool;
  ijson_parse : string → list token * stream_end;
  find_xz : option string;
  manifest : fetch_outcome;
  urlretrieve : option string → retrieve_outcome;
  xz : option string → Z * option string;
  os_remove : string → bool
}.

(** The two files of the add-on's data directory, [Filmliste-akt.xz] and
    [Filmliste-akt]: [None] when the file does not exist. *)
Record files : Type := Files {
  compfile : option string;
  destfile : option string
}.

Definition FILMLISTE_URL : string := "https://res.mediathekview.de/akt.xml".

(** [_update_start] *)
Definition _update_start (e : env) : list event * (Z * Z * Z) * updater :=
  ([UpdateStatus "UPDATING"; FtInit; FtUpdateStart], ftUpdateStart e, initial_updater).

(** [_update_end] *)
Definition _update_end (e : env) (self : updater) (aborted : bool)
    (status : string) (descr : description) : list event :=
  let '(del_chn, del_shw, del_mov, cnt_chn, cnt_shw, cnt_mov) := ftUpdateEnd e aborted in
  [FtUpdateEnd aborted;
   UpdateStatusFull status descr
     (channels self, shows self, movies self)
     (del_chn, del_shw, del_mov)
     (cnt_chn, cnt_shw, cnt_mov)].

(** [_end_record] *)
Definition _end_record (e : env) (records : Z) (self : updater) : list event * updater :=
  let progress :=
    if (count self mod 1000 =? 0)%nat then
      [UpdateUpdateProgress (Z.of_nat (count self) * 100 / records)
         (count self) (channels self) (shows self) (movies self)]
    else [] in
  let '(_, cnt_chn, cnt_shw, cnt_mov) := ftInsertFilm e (count self) (film self) in
  (progress ++ [FtInsertFilm (film self)],
   mkUpdater (index self) (count self + 1)
     (channels self + cnt_chn) (shows self + cnt_shw) (movies self + cnt_mov)
     (film self)).

Definition is_token (prefix ev : string) (t : token) : bool :=
  String.eqb (tok_prefix t) prefix && String.eqb (tok_event t) ev.

(** How the [for] loop of [Import] is left. *)
Inductive loop_exit : Type :=
| Exhausted
| Returned (b : bool).

(** The [for prefix, event, value in parser] loop of [Import]. *)
Fixpoint import_loop (e : env) (records : Z) (toks : list token) (self : updater)
    : list event * result loop_exit * updater :=
  match toks with
  | [] => ([], Ok Exhausted, self)
  | t :: rest =>
      if is_token "X" "start_array" t then
        import_loop e records rest (_init_record self)
      else if is_token "X" "end_array" t then
        let '(ev, self1) := _end_record e records self in
        if (count self1 mod 100 =? 0)%nat then
          if abortRequested e (count self1) then
            (ev ++ [AbortRequested (count self1) true; FileClose]
                ++ _update_end e self1 true "ABORTED" (Msg 30959)
                ++ [CloseUpdateProgress],
             Ok (Returned true), self1)
          else
            let '(tr, r, self2) := import_loop e records rest self1 in
            (ev ++ AbortRequested (count self1) false :: tr, r, self2)
        else
          let '(tr, r, self2) := import_loop e records rest self1 in
          (ev ++ tr, r, self2)
      else if is_token "X.item" "string" t then
        let val := match tok_value t with Some v => strip v | None => "" end in
        match _add_value self val with
        | Ok self1 => import_loop e records rest self1
        | Raise x => ([], Raise x, self)
        end
      else import_loop e records rest self
  end.

(** [Import] *)
Definition Import (e : env) (fs : files) (self : updater)
    : list event * result bool * updater :=
  match destfile fs with
  | None => ([], Ok false, self)
  | Some content =>
      let '(toks, ending) := ijson_parse e content in
      let '(ev0, (_, _, tot_mov), self0) := _update_start e in
      let records := if (tot_mov <? 50000)%Z then 220000%Z else (tot_mov + 10000)%Z in
      let '(tr, r, self1) := import_loop e records toks self0 in
      let head := ev0 ++ ShowUpdateProgress :: tr in
      match r with
      | Raise x => (head, Raise x, self1)
      | Ok (Returned b) => (head, Ok b, self1)
      | Ok Exhausted =>
          match ending with
          | EndOfStream =>
              (head ++ FileClose :: _update_end e self1 false "IDLE" (Msg 30958)
                    ++ [CloseUpdateProgress],
               Ok true, self1)
          | ReadFails cause =>
              (head ++ _update_end e self1 true "ABORTED" (MsgFormat 30960 cause)
                    ++ [CloseUpdateProgress; FileClose],
               Ok false, self1)
          | ParseFails => (head, Raise JSONError, self1)
          end
      end
  end.

(** *** Mirror resolution and snapshot download *)

(** The body of the [try] in the loop over [root.findall('Server')]:
    [find] yields [None] for a missing child, and reading [.text] of it
    raises the [AttributeError] that skips the entry. *)
Definition mirror_of (s : server) : option (option string * option string) :=
  URL ← srv_URL s; Prio ← srv_Prio s; Some (URL, Prio).

(** Python 2 order on the sort keys, the [Prio] texts: [None] sorts before
    every string, and strings compare character by character. *)
Definition prio_leb (a b : option string) : bool :=
  match a, b with
  | None, _ => true
  | Some _, None => false
  | Some x, Some y => String.leb x y
  end.

(** [sorted(urls, key = itemgetter(1))]: the built-in sort is stable, so
    its result is the one of a stable insertion sort on the keys. *)
Fixpoint insert_by_prio (x : option string * option string)
    (l : list (option string * option string)) : list (option string * option string) :=
  match l with
  | [] => [x]
  | y :: r => if prio_leb (snd x) (snd y) then x :: l else y :: insert_by_prio x r
  end.

Definition sorted_by_prio (l : list (option string * option string))
    : list (option string * option string) :=
  foldr insert_by_prio [] l.

(** The mirror list [urls] as it stands before the download loop. *)
Definition mirror_urls (servers : list server) : list (option string) :=
  map fst (sorted_by_prio (omap mirror_of servers)).

(** [_file_remove] on one of the two files of the data directory:
    [os.remove] is called only for a file that exists, and its [OSError] is
    logged and swallowed, which leaves the file in place. *)
Definition remove_file (e : env) (name : string) (f : option string)
    : list event * option string :=
  match f with
  | Some content => ([OsRemove name], if os_remove e name then None else Some content)
  | None => ([], None)
  end.

(** [_cleanup_downloads] *)
Definition _cleanup_downloads (e : env) (fs : files) : list event * files :=
  let '(ev1, comp) := remove_file e "Filmliste-akt.xz" (compfile fs) in
  let '(ev2, dest) := remove_file e "Filmliste-akt" (destfile fs) in
  (ev1 ++ ev2, Files comp dest).

(** Local variables of [GetNewestList] after the download loop. *)
Record download : Type := Download {
  dl_trace : list event;
  dl_result : bool;
  dl_files : files;
  dl_lasturl : option string;
  dl_err : option string
}.

(** The [for url in urls] loop of [GetNewestList]; [err] is [None] while
    the local variable of that name is unbound. *)
Fixpoint download_loop (e : env) (urls : list (option string)) (fs : files)
    (lasturl : option string) (err : option string) : download :=
  match urls with
  | [] => Download [] false fs lasturl err
  | url :: rest =>
      let ev := [UpdateDownloadProgress 0 url; UrlRetrieve url (compfile fs)] in
      match urlretrieve e url with
      | Retrieved payload =>
          Download ev true (Files (Some payload) (destfile fs)) url err
      | RetrieveFails cause written =>
          let fs' := match written with
                     | Some p => Files (Some p) (destfile fs)
                     | None => fs
                     end in
          let d := download_loop e rest fs' url (Some cause) in
          Download (ev ++ dl_trace d) (dl_result d) (dl_files d) (dl_lasturl d) (dl_err d)
      end
  end.

(** [GetNewestList]. The manifest is taken to be well-formed XML. The
    name [URLError] of the first [except] clause is not bound in the
    module, so matching an exception against it raises [NameError]. On
    success [xz -d] replaces the compressed file by its output. *)
Definition GetNewestList (e : env) (fs : files) : list event * result bool * files :=
  match find_xz e with
  | None => ([ShowMissingXZError], Ok false, fs)
  | Some xzbin =>
      match manifest e with
      | FetchFails _ => ([UrlOpen FILMLISTE_URL], Raise NameError, fs)
      | Fetched servers =>
          let urls := mirror_urls servers in
          let '(ev1, fs1) := _cleanup_downloads e fs in
          let d := download_loop e urls fs1 (Some "") None in
          let tr := UrlOpen FILMLISTE_URL :: ev1 ++ ShowDownloadProgress :: dl_trace d in
          if dl_result d then
            let '(retval, out) := xz e (compfile (dl_files d)) in
            (tr ++ [Xz (compfile (dl_files d)); CloseDownloadProgress],
             Ok ((retval =? 0)%Z && bool_decide (is_Some out)),
             Files (if (retval =? 0)%Z then None else compfile (dl_files d)) out)
          else
            match dl_err d with
            | Some cause =>
                (tr ++ [CloseDownloadProgress; ShowDowloadError (dl_lasturl d) cause],
                 Ok false, dl_files d)
            | None =>
                (tr ++ [CloseDownloadProgress], Raise UnboundLocalError, dl_files d)
            end
      end
  end.

(** [Update] *)
Definition Update (e : env) (fs : files) (self : updater)
    : list event * result unit * files * updater :=
  match GetNewestList e fs with
  | (tr, Ok true, fs1) =>
      match Import e fs1 self with
      | (tr2, Ok _, self1) => (SqlInit :: tr ++ tr2 ++ [SqlExit], Ok tt, fs1, self1)
      | (tr2, Raise x, self1) => (SqlInit :: tr ++ tr2, Raise x, fs1, self1)
      end
  | (tr, Ok false, fs1) => (SqlInit :: tr ++ [SqlExit], Ok tt, fs1, self)
  | (tr, Raise x, fs1) => (SqlInit :: tr, Raise x, fs1, self)
  end.

(** *** Observations on traces *)

(** The [aborted] arguments of the calls to [sql.ftUpdateEnd]. *)
Definition update_ends (tr : list event) : list bool :=
  omap (fun ev => match ev with FtUpdateEnd b => Some b | _ => None end) tr.

(** The statuses handed to [sql.UpdateStatus]. *)
Definition statuses (tr : list event) : list string :=
  omap (fun ev => match ev with
                  | UpdateStatus s | UpdateStatusFull s _ _ _ _ => Some s
                  | _ => None
                  end) tr.

(** The calls to [file.close()]. *)
Definition file_closes (tr : list event) : list unit :=
  omap (fun ev => match ev with FileClose => Some tt | _ => None end) tr.

(** The record counts at which [monitor.abortRequested()] answered true. *)
Definition positive_polls (tr : list event) : list nat :=
  omap (fun ev => match ev with AbortRequested c true => Some c | _ => None end) tr.

(** The record counts at which [monitor.abortRequested()] was called. *)
Definition polls (tr : list event) : list nat :=
  omap (fun ev => match ev with AbortRequested c _ => Some c | _ => None end) tr.

(** Number of records in a token stream: its record-array end tokens. *)
Definition records_in (toks : list token) : nat :=
  length (List.filter (is_token "X" "end_array") toks).

(** What a trace of the loop shows, by the way the loop is left. *)
Definition loop_observed (self : updater) (toks : list token)
    (run : list event * result loop_exit * updater) : Prop :=
  match run.1.2 with
  | Raise _ => True
  | Ok Exhausted =>
      update_ends run.1.1 = [] ∧ statuses run.1.1 = [] ∧ file_closes run.1.1 = []
      ∧ positive_polls run.1.1 = []
      ∧ count run.2 = count self + records_in toks
  | Ok (Returned b) =>
      b = true
      ∧ update_ends run.1.1 = [true] ∧ statuses run.1.1 = ["ABORTED"]
      ∧ file_closes run.1.1 = [tt]
      ∧ positive_polls run.1.1 = [count run.2]
  end.

(** A run of [Import] that was cancelled: it returns [True] after one poll
    answered true, one [ftUpdateEnd(True)], the statuses [UPDATING] and
    [ABORTED], and one [file.close()]. *)
Definition aborted_run (run : list event * result bool * updater) : Prop :=
  run.1.2 = Ok true
  ∧ update_ends run.1.1 = [true]
  ∧ statuses run.1.1 = ["UPDATING"; "ABORTED"]
  ∧ file_closes run.1.1 = [tt]
  ∧ positive_polls run.1.1 = [count run.2].

(** A run of [Import] that consumed the whole stream. *)
Definition completed_run (run : list event * result bool * updater) : Prop :=
  run.1.2 = Ok true
  ∧ update_ends run.1.1 = [false]
  ∧ statuses run.1.1 = ["UPDATING"; "IDLE"]
  ∧ file_closes run.1.1 = [tt]
  ∧ positive_polls run.1.1 = [].

(** The first count after [k] at which the driver polls. *)
Definition next_poll (k : nat) : nat := 100 * (k / 100 + 1).

(** The order in which the mirror list is sorted. *)
Definition by_prio (x y : option string * option string) : Prop :=
  prio_leb x.2 y.2 = true.

(** The calls to [urllib.urlretrieve]: the URL and what the destination
    path held at the time. *)
Definition attempts (tr : list event) : list (option string * option string) :=
  omap (fun ev => match ev with UrlRetrieve u d => Some (u, d) | _ => None end) tr.

(** The files removed with [os.remove]. *)
Definition removals (tr : list event) : list string :=
  omap (fun ev => match ev with OsRemove name => Some name | _ => None end) tr.

(** The inputs of the calls to [xz -d]. *)
Definition decompressed (tr : list event) : list (option string) :=
  omap (fun ev => match ev with Xz input => Some input | _ => None end) tr.

(** The download errors shown to the user. *)
Definition download_errors (tr : list event) : list (option string * string) :=
  omap (fun ev => match ev with ShowDowloadError u c => Some (u, c) | _ => None end) tr.

(** The calls that begin an update transaction in storage. *)
Definition update_starts (tr : list event) : list unit :=
  omap (fun ev => match ev with FtUpdateStart => Some tt | _ => None end) tr.

(** The names that [_cleanup_downloads] hands to [os.remove]. *)
Definition stale_names (fs : files) : list string :=
  match compfile fs with Some _ => ["Filmliste-akt.xz"] | None => [] end
  ++ match destfile fs with Some _ => ["Filmliste-akt"] | None => [] end.

(** Whether a mirror fails to deliver. *)
Definition fails (e : env) (url : option string) : Prop :=
  ∃ cause written, urlretrieve e url = RetrieveFails cause written.

(** *** File helpers and prerequisites *)

(** [_file_exists]: [os.stat] raises [OSError] for a missing path. *)
Definition _file_exists (fs : gmap string Os.inode) (name : string) : bool :=
  match fs !! name with
  | Some s => Os.is_regular s
  | None => false
  end.

(** [_file_remove]: the result and the file system afterwards. *)
Definition _file_remove (fs : gmap string Os.inode) (name : string)
    : bool * gmap string Os.inode :=
  if _file_exists fs name then
    match Os.remove name fs with
    | Some fs' => (true, fs')
    | None => (false, fs)
    end
  else (false, fs).

(** The fixed locations that [_find_xz] tries, in order. *)
Definition xz_locations : list string := ["/bin/xz"; "/usr/bin/xz"; "/usr/local/bin/xz"].

(** [_find_xz]; [updxzbin] is [self.settings.updxzbin]. *)
Definition _find_xz (fs : gmap string Os.inode) (updxzbin : string) : option string :=
  match List.find (_file_exists fs) xz_locations with
  | Some xzbin => Some xzbin
  | None =>
      if negb (String.eqb updxzbin "") && _file_exists fs updxzbin then Some updxzbin
      else None
  end.

(** [PrerequisitesMissing]; [updenabled] is [self.settings.updenabled]. *)
Definition PrerequisitesMissing (fs : gmap string Os.inode) (updenabled : bool)
    (updxzbin : string) : bool :=
  updenabled && negb (bool_decide (is_Some (_find_xz fs updxzbin))).

(** [IsEnabled]: [None] is the [None] that the method returns when updates
    are disabled. *)
Definition IsEnabled (fs : gmap string Os.inode) (updenabled : bool)
    (updxzbin : string) : option bool :=
  if updenabled then Some (bool_decide (is_Some (_find_xz fs updxzbin)))
  else None.

(** Truth value of a result of [IsEnabled]. *)
Definition truthy (r : option bool) : bool := default false r.

(** [_reporthook]: the percentage handed to
    [notifier.UpdateDownloadProgress], [None] when the call is not made. *)
Definition _reporthook (blockcount blocksize totalsize : Z) : option Z :=
  let downloaded := (blockcount * blocksize)%Z in
  if (0 <? totalsize)%Z then Some ((downloaded * 100) / totalsize)%Z
  else None.

(** The record counts handed to [notifier.UpdateUpdateProgress]. *)
Definition progress_reports (tr : list event) : list nat :=
  omap (fun ev => match ev with UpdateUpdateProgress _ c _ _ _ => Some c | _ => None end) tr.

(** The counts that storage answers for a sequence of inserts, the first of
    which is the [n]-th of the run, summed per category. *)
Fixpoint tally (e : env) (n : nat) (films : list (gmap string value)) : Z * Z * Z :=
  match films with
  | [] => (0, 0, 0)%Z
  | f :: rest =>
      let '(_, cnt_chn, cnt_shw, cnt_mov) := ftInsertFilm e n f in
      let '(chn, shw, mov) := tally e (S n) rest in
      (cnt_chn + chn, cnt_shw + shw, cnt_mov + mov)%Z
  end.

(** The counters that the final [sql.UpdateStatus] reports as added. *)
Definition reported_added (tr : list event) : list (Z * Z * Z) :=
  omap (fun ev => match ev with UpdateStatusFull _ _ added _ _ => Some added | _ => None end) tr.

(** The descriptions handed to the final [sql.UpdateStatus]. *)
Definition descriptions (tr : list event) : list description :=
  omap (fun ev => match ev with UpdateStatusFull _ d _ _ _ => Some d | _ => None end) tr.

(** The decoder keeps [aired] and [url_video] strings: the two keys that
    [_add_value] and [_make_url] read back. *)
Definition well_formed (self : updater) : Prop :=
  (∃ a, film self !! "aired" = Some (VStr a))
  ∧ (∃ u, film self !! "url_video" = Some (VStr u)).

(** The calls to [sql.Init()] ([true]) and [sql.Exit()] ([false]). *)
Definition sql_sessions (tr : list event) : list bool :=
  omap (fun ev => match ev with SqlInit => Some true | SqlExit => Some false | _ => None end) tr.

(** The shape of a record as storage receives it. *)
Definition record_shape (f : gmap string value) : Prop :=
  (∃ s, f !! "show" = Some (VStr s) ∧ String.length s ≤ 255)
  ∧ (∃ t, f !! "title" = Some (VStr t) ∧ String.length t ≤ 255)
  ∧ (∃ d, f !! "duration" = Some (VStr d) ∧ String.length d = 8)
  ∧ (∃ a, f !! "aired" = Some (VStr a) ∧ (String.length a = 10 ∨ String.length a = 19))
  ∧ (∃ z, f !! "size" = Some (VInt z))
  ∧ (∃ z, f !! "airedepoch" = Some (VInt z)).

(** What the decoder keeps true of [self] between two leaves: the shape of
    the record, with the state of [aired] tied to the cursor. *)
Definition decoder_inv (self : updater) : Prop :=
  (∃ s, film self !! "show" = Some (VStr s) ∧ String.length s ≤ 255)
  ∧ (∃ t, film self !! "title" = Some (VStr t) ∧ String.length t ≤ 255)
  ∧ (∃ d, film self !! "duration" = Some (VStr d) ∧ String.length d = 8)
  ∧ (∃ a, film self !! "aired" = Some (VStr a)
          ∧ (a = default_aired
             ∨ (4 ≤ index self ∧ String.length a = 10)
             ∨ (5 ≤ index self ∧ String.length a = 19)))
  ∧ (∃ z, film self !! "size" = Some (VInt z))
  ∧ (∃ z, film self !! "airedepoch" = Some (VInt z)).

End Updater.

(** ** resources/lib/mvutils.py *)

Module MvUtils.

(** [make_duration]; [val] is [None] for Python's [None]. *)
Definition make_duration (val : option string) : result (option Z) :=
  if bool_decide (val = Some "00:00:00") then Ok None
  else match val with
       | None => Ok None
       | Some v =>
           match split ":"%char v with
           | [p0; p1; p2] =>
               h ← int p0; m ← int p1; s ← int p2;
               Ok (Some (h * 3600 + m * 60 + s)%Z)
           | _ => Ok None
           end
       end.

(** The network object [src]: the value of
    [src.info() and src.info().getheader('Content-Length')] ([None] when
    there are no headers or no such header), and the chunks that
    successive [src.read(chunk_size)] calls return before the empty one
    that ends the transfer. *)
Record source : Type := Source {
  content_length : option string;
  chunks : list string
}.

(** Calls made by the copier, in program order. *)
Inductive event : Type :=
| Aborthook (answer : bool)
| Reporthook (total_chunks : nat) (chunk_size total_size : Z)
| SrcRead (chunk : string)
| DstWrite (chunk : string).

#[global] Instance copier_event_eq_dec : EqDecision event.
Proof. solve_decision. Defined.

(** The conditional expression that initialises [total_size]. *)
Definition total_size_of (src : source) : result Z :=
  match content_length src with
  | Some h => if String.eqb h "" then Ok 0%Z else int (strip h)
  | None => Ok 0%Z
  end.

(** The [while not aborthook()] loop. [aborthook n] is the answer of the
    call made when [n] chunks have been transferred; a chunk that is empty
    ends the transfer like the end of the payload. *)
Fixpoint copy_loop (aborthook : nat → bool) (chunk_size total_size : Z)
    (payload : list string) (total_chunks : nat) : list event * result unit :=
  if aborthook total_chunks then ([Aborthook true], Raise ExitRequested)
  else
    let ev := [Aborthook false; Reporthook total_chunks chunk_size total_size] in
    match payload with
    | [] => (ev ++ [SrcRead ""], Ok tt)
    | c :: rest =>
        if String.eqb c "" then (ev ++ [SrcRead ""], Ok tt)
        else
          let '(tr, r) := copy_loop aborthook chunk_size total_size rest (S total_chunks) in
          (ev ++ SrcRead c :: DstWrite c :: tr, r)
    end.

(** [_chunked_url_copier] *)
Definition _chunked_url_copier (src : source) (chunk_size : Z)
    (aborthook : option (nat → bool)) : list event * result unit :=
  let aborthook := default (fun _ => false) aborthook in
  match total_size_of src with
  | Raise x => ([], Raise x)
  | Ok total_size => copy_loop aborthook chunk_size total_size (chunks src) 0
  end.

(** Number of chunks written to [dst] in a trace. *)
Fixpoint writes (tr : list event) : nat :=
  match tr with
  | [] => 0
  | DstWrite _ :: tr' => S (writes tr')
  | _ :: tr' => writes tr'
  end.

(** *** File helpers *)

(** [dir_exists] *)
Definition dir_exists (fs : gmap string Os.inode) (name : string) : bool :=
  match fs !! name with
  | Some state => Os.is_directory state
  | None => false
  end.

(** [file_exists] *)
Definition file_exists (fs : gmap string Os.inode) (name : string) : bool :=
  match fs !! name with
  | Some state => Os.is_regular state
  | None => false
  end.

(** [file_size] *)
Definition file_size (fs : gmap string Os.inode) (name : string) : Z :=
  match fs !! name with
  | Some state => Os.st_size state
  | None => 0%Z
  end.

(** [file_remove]: the result and the file system afterwards. *)
Definition file_remove (fs : gmap string Os.inode) (name : string)
    : bool * gmap string Os.inode :=
  if file_exists fs name then
    match Os.remove name fs with
    | Some fs' => (true, fs')
    | None => (false, fs)
    end
  else (false, fs).

(** [find_xz] *)
Definition find_xz (fs : gmap string Os.inode) : option string :=
  List.find (file_exists fs) ["/bin/xz"; "/usr/bin/xz"; "/usr/local/bin/xz"].

(** *** String helpers *)

(** [string.letters + string.digits + ' _-#'] *)
Definition search_cset : string := letters +:+ digits +:+ " _-#".

(** [make_search_string] *)
Definition make_search_string (val : string) : string :=
  let search := str_filter (fun c => contains c search_cset) val in
  strip (upper search).

(** The characters that [make_search_string] can return. *)
Definition search_alphabet : string := "ABCDEFGHIJKLMNOPQRSTUVWXYZ0123456789 _-#".

(** The accented letters that [cleanup_filename] admits, by code point; the
    one beyond Latin-1 (U+0153) cannot occur in an 8-bit string. *)
Definition accented : string :=
  of_codes [228; 246; 252; 196; 214; 220; 223; 225; 224; 226; 233; 232; 234; 237;
            236; 238; 243; 242; 244; 250; 249; 251; 193; 192; 201; 200; 205; 204;
            211; 210; 218; 217; 231; 199].

(** The [cset] of [cleanup_filename]. *)
Definition filename_cset : string := letters +:+ digits +:+ " _-#" +:+ accented.

(** [cleanup_filename] *)
Definition cleanup_filename (val : string) : string :=
  let search := str_filter (fun c => contains c filename_cset) val in
  strip search.

(** *** [url_retrieve] *)

(** Calls made by [url_retrieve], the copier's among them. *)
Inductive io_event : Type :=
| UrlOpen (url : string)
| FileOpen (filename : string)
| Copier (ev : event)
| DstClose
| SrcClose.

(** The chunks written to [dst], in order. *)
Definition written (tr : list event) : list string :=
  omap (fun ev => match ev with DstWrite c => Some c | _ => None end) tr.

(** The chunks that a network object delivers before the transfer ends. *)
Fixpoint until_empty (payload : list string) : list string :=
  match payload with
  | [] => []
  | c :: rest => if String.eqb c "" then [] else c :: until_empty rest
  end.

(** [url_retrieve]: [urlopen url] is [None] when [urllib2.urlopen] raises,
    [writable] tells whether [open(filename, 'wb')] succeeds. The two
    [closing] managers close [dst] and then [src] however the body ends. *)
Definition url_retrieve (urlopen : string → option source) (writable : string → bool)
    (url filename : string) (chunk_size : Z) (aborthook : option (nat → bool))
    : list io_event * result unit :=
  match urlopen url with
  | None => ([UrlOpen url], Raise (IOError "urlopen"))
  | Some src =>
      if writable filename then
        let '(tr, r) := _chunked_url_copier src chunk_size aborthook in
        (UrlOpen url :: FileOpen filename :: map Copier tr ++ [DstClose; SrcClose], r)
      else ([UrlOpen url; FileOpen filename; SrcClose], Raise (IOError "open"))
  end.

#[global] Instance io_event_eq_dec : EqDecision io_event.
Proof. solve_decision. Defined.

End MvUtils.

(** ** Sample inputs *)

Module Samples.
Import Updater.

(** A show name of 300 characters. *)
Definition long_show : string :=
  Eval cbv in String.concat "" (replicate 30 "Tagesschau").

Definition X_start : token := Token "X" "start_array" None.
Definition X_end : token := Token "X" "end_array" None.
Definition X_item (s : string) : token := Token "X.item" "string" (Some s).

(** Collaborators for a run over the token stream [toks]: every insert
    adds one movie, the host answers [abort n] when polled after [n]
    records, and the mirror list is empty. *)
Definition import_env (toks : list token) (abort : nat → bool) : env :=
  Env (0, 0, 0)%Z (fun _ _ => (0, 0, 0, 1)%Z) (fun _ => (0, 0, 0, 0, 0, 0)%Z)
    abort (fun _ => (toks, EndOfStream)) (Some "/usr/bin/xz") (Fetched [])
    (fun _ => RetrieveFails "unreachable" None) (fun c => (0%Z, c)) (fun _ => true).

(** Two records: the first names channel, show and title, the second
    supplies no leaf at all. *)
Definition two_records : list token :=
  [X_start; X_item "ARD"; X_item "Tagesschau"; X_item "A"; X_end; X_start; X_end].

(** The data directory once a catalog has been unpacked. *)
Definition unpacked : files := Files None (Some "catalog").

(** A network object that advertises four bytes and delivers two chunks. *)
Definition two_chunks : MvUtils.source := MvUtils.Source (Some "4") ["ab"; "cd"].

(** A catalog of [n] records without leaves. *)
Definition empty_records (n : nat) : list token :=
  concat (replicate n [X_start; X_end]).

(** The host asks for cancellation once 150 records have been processed. *)
Definition cancel_after_150 (n : nat) : bool := 150 <=? n.

(** Collaborators for a download: the manifest fetch ends as [m] and the
    mirrors answer as [net]; [xz] unpacks a payload to itself, and old files
    can be removed. *)
Definition download_env (m : fetch_outcome) (net : option string → retrieve_outcome) : env :=
  Env (0, 0, 0)%Z (fun _ _ => (0, 0, 0, 1)%Z) (fun _ => (0, 0, 0, 0, 0, 0)%Z)
    (fun _ => false) (fun _ => ([], EndOfStream)) (Some "/usr/bin/xz") m net
    (fun c => (0%Z, c)) (fun _ => true).

Definition mirror (url prio : string) : server :=
  Server (Some (Some url)) (Some (Some prio)).

(** A manifest whose first entry has priority 2 and whose second has
    priority 10. *)
Definition prio_2_then_10 : list server :=
  [mirror "http://a.example/" "2"; mirror "http://b.example/" "10"].

(** Three mirrors; the first breaks off after writing part of the payload,
    the second cannot be reached, the third delivers. *)
Definition three_mirrors : list server :=
  [mirror "http://m1.example/" "1"; mirror "http://m2.example/" "2";
   mirror "http://m3.example/" "3"].

Definition third_delivers (url : option string) : retrieve_outcome :=
  if decide (url = Some "http://m1.example/") then RetrieveFails "too short" (Some "xz-part")
  else if decide (url = Some "http://m3.example/") then Retrieved "xz-full"
  else RetrieveFails "unreachable" None.

(** No mirror delivers. *)
Definition none_delivers (url : option string) : retrieve_outcome :=
  RetrieveFails "unreachable" None.

(** The data directory with the files of an earlier run. *)
Definition stale : files := Files (Some "old-xz") (Some "old-catalog").

(** The manifest lists the three mirrors, of which the third delivers. *)
Definition failover_env : env := download_env (Fetched three_mirrors) third_delivers.

(** The manifest cannot be fetched. *)
Definition manifest_down_env : env := download_env (FetchFails "timed out") none_delivers.

(** The manifest lists no mirror. *)
Definition no_mirror_env : env := download_env (Fetched []) none_delivers.

(** The manifest lists the three mirrors, and none delivers. *)
Definition all_down_env : env := download_env (Fetched three_mirrors) none_delivers.

(** A network object whose length header is not a number. *)
Definition bad_length : MvUtils.source := MvUtils.Source (Some "many") ["ab"; "cd"].

(** The network as [url_retrieve] finds it: one URL answers. *)
Definition one_url (url : string) : option MvUtils.source :=
  if String.eqb url "http://m1.example/list.xz" then Some two_chunks else None.

(** A data directory with a catalog that may not be removed, a download,
    and [xz] in [/usr/bin]. *)
Definition sample_fs : gmap string Os.inode :=
  <["/usr/bin/xz" := Os.Inode Os.Regular 81192 false]> (
  <["/opt/xz" := Os.Inode Os.Regular 90000 false]> (
  <["addon_data" := Os.Inode Os.Directory 4096 true]> (
  <["Filmliste-akt.xz" := Os.Inode Os.Regular 31000000 true]> (
  <["Filmliste-akt" := Os.Inode Os.Regular 250000000 false]> ∅)))).

(** One record whose size leaf (position 6) is not a number. *)
Definition bad_size_record : list token :=
  [X_start; X_item "ARD"; X_item "Tagesschau"; X_item "A"; X_item "01.02.2020";
   X_item "20:00:00"; X_item "00:15:00"; X_item "big"; X_item "text"; X_end].

(** The three mirrors with the third delivering, in a data directory whose
    files cannot be removed. *)
Definition locked_env : env :=
  Env (0, 0, 0)%Z (fun _ _ => (0, 0, 0, 1)%Z) (fun _ => (0, 0, 0, 0, 0, 0)%Z)
    (fun _ => false) (fun _ => ([], EndOfStream)) (Some "/usr/bin/xz")
    (Fetched three_mirrors) third_delivers (fun c => (1%Z, Some "old-catalog"))
    (fun _ => false).

(** Collaborators for a run over a document that breaks off after the
    tokens [toks]: the parser raises its own error there. *)
Definition truncated_env (toks : list token) : env :=
  Env (0, 0, 0)%Z (fun _ _ => (0, 0, 0, 1)%Z) (fun _ => (0, 0, 0, 0, 0, 0)%Z)
    (fun _ => false) (fun _ => (toks, ParseFails)) (Some "/usr/bin/xz") (Fetched [])
    (fun _ => RetrieveFails "unreachable" None) (fun c => (0%Z, c)) (fun _ => true).

(** The host asks for cancellation once more than 150 records have been
    processed. *)
Definition cancel_past_150 (n : nat) : bool := 150 <? n.

(** Collaborators for a run whose catalog file fails with [cause] once the
    tokens [toks] have been read; the host never asks for cancellation. *)
Definition failing_read_env (toks : list token) (cause : string) : env :=
  Env (0, 0, 0)%Z (fun _ _ => (0, 0, 0, 1)%Z) (fun _ => (0, 0, 0, 0, 0, 0)%Z)
    (fun _ => false) (fun _ => (toks, ReadFails cause)) (Some "/usr/bin/xz") (Fetched [])
    (fun _ => RetrieveFails "unreachable" None) (fun c => (0%Z, c)) (fun _ => true).

End Samples.

(** * Properties *)

Import Samples.

Import Updater.

(** ** Facts about the string built-ins *)

Section StringFacts.

Lemma substring0_length (n : nat) (s : string) :
  String.length (substring 0 n s) = Nat.min n (String.length s).
Proof.
  revert s; induction n as [|n IH]; intros [|c s]; simpl; auto.
Qed.

Lemma substring0_prefix (n : nat) (s : string) :
  String.prefix (substring 0 n s) s = true.
Proof.
  revert s; induction n as [|n IH]; intros [|c s]; simpl; auto.
  destruct (ascii_dec c c) as [_|Hne]; [apply IH | by destruct Hne].
Qed.

Lemma substring0_all (n : nat) (s : string) :
  String.length s ≤ n → substring 0 n s = s.
Proof.
  revert s; induction n as [|n IH]; intros [|c s]; simpl; intros Hlen; auto.
  - lia.
  - f_equal. apply IH. lia.
Qed.

Lemma append_length (s t : string) :
  String.length (s +:+ t) = String.length s + String.length t.
Proof. induction s as [|c s IH]; simpl; auto. Qed.

Lemma substring_length_exact (a m : nat) (s : string) :
  a + m ≤ String.length s → String.length (substring a m s) = m.
Proof.
  revert s; induction a as [|a IH]; intros s Hlen.
  - rewrite substring0_length. simpl in Hlen. lia.
  - destruct s as [|c s]; simpl in *; [lia|]. apply IH. lia.
Qed.

Lemma split_length (sep : ascii) (s : string) :
  length (split sep s) = S (occurrences sep s).
Proof.
  induction s as [|c s IH]; simpl; [done|].
  destruct (Ascii.eqb c sep); simpl; [by rewrite IH|].
  destruct (split sep s) as [|h t]; simpl in *; lia.
Qed.

Lemma split_no_sep (sep : ascii) (s : string) :
  occurrences sep s = 0 → split sep s = [s].
Proof.
  induction s as [|c s IH]; simpl; [done|].
  destruct (Ascii.eqb c sep); simpl; [done|]. intros H. by rewrite IH.
Qed.

Lemma split_app (sep : ascii) (a b : string) :
  occurrences sep a = 0 → split sep (a +:+ String sep b) = a :: split sep b.
Proof.
  induction a as [|c a IH]; simpl.
  - by rewrite Ascii.eqb_refl.
  - destruct (Ascii.eqb c sep); simpl; [done|]. intros H. by rewrite IH.
Qed.

Lemma occurrences_digits (sep : ascii) (s : string) :
  is_digit sep = false → all_chars is_digit s = true → occurrences sep s = 0.
Proof.
  intros Hsep. induction s as [|c s IH]; simpl; [done|].
  intros [Hc Hs]%andb_true_iff.
  destruct (Ascii.eqb_spec c sep) as [->|_]; [congruence|]. by apply IH.
Qed.

Lemma digit_not_space (c : ascii) : is_digit c = true → is_space c = false.
Proof.
  unfold is_digit, is_space. cbv zeta.
  generalize (nat_of_ascii c). intros n.
  rewrite andb_true_iff, !Nat.leb_le. intros [H1 H2].
  repeat (apply orb_false_iff; split);
    rewrite ?andb_false_iff, ?Nat.leb_gt, ?Nat.eqb_neq; lia.
Qed.

Lemma lstrip_digits (s : string) : all_chars is_digit s = true → lstrip s = s.
Proof.
  destruct s as [|c s]; simpl; [done|]. intros [Hc _]%andb_true_iff.
  by rewrite (digit_not_space c Hc).
Qed.

Lemma rstrip_digits (s : string) : all_chars is_digit s = true → rstrip s = s.
Proof.
  induction s as [|c s IH]; simpl; [done|]. intros [Hc Hs]%andb_true_iff.
  rewrite (IH Hs). destruct s; [|done]. by rewrite (digit_not_space c Hc).
Qed.

Lemma numeral_digits (d : Decimal.uint) : all_chars is_digit (numeral d) = true.
Proof. induction d; simpl; auto. Qed.

Lemma numeral_nonempty (d : Decimal.uint) : d ≠ Decimal.Nil → numeral d ≠ "".
Proof. by destruct d. Qed.

Lemma digits_value_numeral (d : Decimal.uint) :
  d ≠ Decimal.Nil → digits_value (numeral d) = Some (Z.of_uint d).
Proof.
  intros Hd. unfold digits_value.
  destruct (numeral d) eqn:E; [by apply numeral_nonempty in E|].
  rewrite <- E. unfold numeral. by rewrite NilEmpty.usu.
Qed.

(** [int] reads a decimal numeral as its value. *)
Lemma int_numeral (d : Decimal.uint) :
  d ≠ Decimal.Nil → int (numeral d) = Ok (Z.of_uint d).
Proof.
  intros Hd. unfold int, strip.
  rewrite lstrip_digits, rstrip_digits by apply numeral_digits.
  assert (Hsign : match numeral d with
                  | String "-"%char r => (true, lstrip r)
                  | String "+"%char r => (false, lstrip r)
                  | _ => (false, numeral d)
                  end = (false, numeral d)) by (by destruct d).
  rewrite Hsign. by rewrite digits_value_numeral.
Qed.

Lemma numeral_decimal (n : N) : Z.of_uint (N.to_uint n) = Z.of_N n.
Proof.
  unfold Z.of_uint. f_equal. exact (DecimalN.Unsigned.of_to n).
Qed.

End StringFacts.

(** Case analysis on the conditions met along one branch of the
    [if]/[elif] chain. *)
Ltac branch_cases H :=
  repeat match type of H with
         | context [if ?b then _ else _] => destruct b eqn:?
         | context [match ?x with _ => _ end] => destruct x eqn:?
         end;
  simplify_eq.

(** ** The record decoder *)

Section Decoder.

Implicit Types (self : updater) (val : string).

Lemma film_film_set k v self : film (film_set k v self) = <[k := v]> (film self).
Proof. reflexivity. Qed.

Lemma index_film_set k v self : index (film_set k v self) = index self.
Proof. reflexivity. Qed.

Lemma slice_to_255 val : slice_to 255 val = substring 0 255 val.
Proof. reflexivity. Qed.

Lemma add_value_show self val :
  index self = 1 → val ≠ "" →
  _add_value self val
  = Ok (set_index 2 (film_set "show" (VStr (slice_to 255 val)) self)).
Proof.
  intros Hi Hval. unfold _add_value, _add_value_field. rewrite Hi. simpl.
  destruct (String.eqb_spec val "") as [->|_]; [done|].
  simpl. unfold set_index. simpl. by rewrite Hi.
Qed.

Lemma add_value_title self val :
  index self = 2 →
  _add_value self val
  = Ok (set_index 3 (film_set "title" (VStr (slice_to 255 val)) self)).
Proof.
  intros Hi. unfold _add_value, _add_value_field. rewrite Hi.
  simpl. unfold set_index. simpl. by rewrite Hi.
Qed.

(** C9: a non-empty value at position 1 ([show]) and any value at
    position 2 ([title]) is stored cut to its first 255 characters: the
    stored string is a prefix of the input of length
    [min 255 (len val)], so a 300-character name is stored as exactly its
    first 255 characters. *)
Theorem show_title_truncated self val (key : string) :
  (index self = 1 ∧ val ≠ "" ∧ key = "show") ∨ (index self = 2 ∧ key = "title") →
  ∃ self' stored,
    _add_value self val = Ok self'
    ∧ film self' !! key = Some (VStr stored)
    ∧ stored = slice_to 255 val
    ∧ String.prefix stored val = true
    ∧ String.length stored = Nat.min 255 (String.length val)
    ∧ (String.length val = 300 → String.length stored = 255).
Proof.
  intros Hcase.
  assert (Hlen : String.length (slice_to 255 val) = Nat.min 255 (String.length val))
    by (rewrite slice_to_255; apply substring0_length).
  assert (Hpre : String.prefix (slice_to 255 val) val = true)
    by (rewrite slice_to_255; apply substring0_prefix).
  destruct Hcase as [(Hi & Hval & ->)|(Hi & ->)].
  - eexists _, _. split; [by apply add_value_show|].
    split; [apply lookup_insert_eq|]. repeat split; auto. lia.
  - eexists _, _. split; [by apply add_value_title|].
    split; [apply lookup_insert_eq|]. repeat split; auto. lia.
Qed.

Lemma show_title_truncated_witness :
  ∃ self' stored,
    _add_value (set_index 1 initial_updater) long_show = Ok self'
    ∧ film self' !! "show" = Some (VStr stored)
    ∧ stored = slice_to 255 long_show
    ∧ String.prefix stored long_show = true
    ∧ String.length stored = Nat.min 255 (String.length long_show)
    ∧ (String.length long_show = 300 → String.length stored = 255).
Proof.
  apply (show_title_truncated (set_index 1 initial_updater) long_show "show").
  left. split; [reflexivity|]. split; [discriminate|reflexivity].
Defined.

(** *** The [aired] field *)

Lemma reformat_date_length val :
  String.length val = 10 → String.length (reformat_date val) = 10.
Proof.
  intros Hlen. unfold reformat_date, slice_from, slice, slice_to. simpl.
  rewrite !append_length, Hlen. simpl.
  rewrite !substring_length_exact by (rewrite Hlen; simpl; lia). reflexivity.
Qed.

Lemma add_value_date self val :
  index self = 3 → String.length val = 10 →
  _add_value self val
  = Ok (set_index 4 (film_set "aired" (VStr (reformat_date val)) self)).
Proof.
  intros Hi Hlen. unfold _add_value, _add_value_field. rewrite Hi, Hlen.
  simpl. unfold set_index. simpl. by rewrite Hi.
Qed.

Lemma add_value_time self val aired :
  index self = 4 → film self !! "aired" = Some (VStr aired) →
  aired ≠ default_aired → String.length val = 8 →
  _add_value self val
  = Ok (set_index 5 (film_set "aired" (VStr (aired +:+ " " +:+ val)) self)).
Proof.
  intros Hi Haired Hne Hlen. unfold _add_value, _add_value_field.
  rewrite Hi. simpl. rewrite Haired, Hlen.
  destruct (String.eqb_spec aired default_aired) as [->|_]; [done|].
  simpl. unfold set_index. simpl. by rewrite Hi.
Qed.

Lemma add_value_time_default self val :
  index self = 4 → film self !! "aired" = Some (VStr default_aired) →
  _add_value self val = Ok (set_index 5 self).
Proof.
  intros Hi Haired. unfold _add_value, _add_value_field.
  rewrite Hi. simpl. rewrite Haired. simpl. by rewrite Hi.
Qed.

(** C2, as the code has it: a 10-character raw date at position 3 sets
    [aired] to the 10-character string [yyyy-mm-dd], without a time of
    day; an 8-character raw time at position 4 then extends it to
    [yyyy-mm-dd hh:mm:ss]; and at position 4 no value changes an [aired]
    that still holds its default. *)
Theorem aired_date_then_time self self0 (date time val0 : string) :
  index self = 3 → String.length date = 10 → String.length time = 8 →
  index self0 = 4 → film self0 !! "aired" = Some (VStr default_aired) →
  (∃ s1 s2,
      _add_value self date = Ok s1
      ∧ film s1 !! "aired" = Some (VStr (reformat_date date))
      ∧ String.length (reformat_date date) = 10
      ∧ _add_value s1 time = Ok s2
      ∧ film s2 !! "aired" = Some (VStr (reformat_date date +:+ " " +:+ time)))
  ∧ (∃ s', _add_value self0 val0 = Ok s'
           ∧ film s' !! "aired" = Some (VStr default_aired)).
Proof.
  intros Hi Hdate Htime Hi0 Hdef. split.
  - pose proof (reformat_date_length date Hdate) as Hlen.
    eexists _, _. split; [by apply add_value_date|].
    split; [apply lookup_insert_eq|]. split; [done|].
    split.
    + apply add_value_time; [done|apply lookup_insert_eq| |done].
      intros E. apply (f_equal String.length) in E. rewrite Hlen in E. discriminate.
    + apply lookup_insert_eq.
  - eexists. split; [by apply add_value_time_default|]. exact Hdef.
Qed.

Lemma aired_date_then_time_witness :
  (∃ s1 s2,
      _add_value (set_index 3 initial_updater) "01.02.2020" = Ok s1
      ∧ film s1 !! "aired" = Some (VStr (reformat_date "01.02.2020"))
      ∧ String.length (reformat_date "01.02.2020") = 10
      ∧ _add_value s1 "03:04:05" = Ok s2
      ∧ film s2 !! "aired"
        = Some (VStr (reformat_date "01.02.2020" +:+ " " +:+ "03:04:05")))
  ∧ (∃ s', _add_value (set_index 4 initial_updater) "03:04:05" = Ok s'
           ∧ film s' !! "aired" = Some (VStr default_aired)).
Proof.
  apply (aired_date_then_time (set_index 3 initial_updater)
           (set_index 4 initial_updater) "01.02.2020" "03:04:05" "03:04:05");
    reflexivity.
Defined.

Example reformat_date_example :
  reformat_date "01.02.2020" = "2020-02-01"
  ∧ reformat_date "01.02.2020" +:+ " " +:+ "03:04:05" = "2020-02-01 03:04:05".
Proof. split; reflexivity. Qed.

(** C2 as stated fails: the raw date ["01.02.2020"] yields
    ["2020-02-01"], not ["2020-02-01 00:00:00"]. *)
Lemma aired_date_has_no_time_component :
  ∃ s1, _add_value (set_index 3 initial_updater) "01.02.2020" = Ok s1
        ∧ film s1 !! "aired" = Some (VStr "2020-02-01")
        ∧ film s1 !! "aired" ≠ Some (VStr "2020-02-01 00:00:00").
Proof.
  eexists. split; [reflexivity|]. split; [by vm_compute|].
  vm_compute. discriminate.
Qed.

(** *** Record boundaries *)

Lemma init_record_index self : index (_init_record self) = 0.
Proof. reflexivity. Qed.

Lemma init_record_reset self (k : string) :
  k ∈ reset_keys → film (_init_record self) !! k = initial_film !! k.
Proof.
  unfold reset_keys. intros Hk.
  unfold _init_record. rewrite !film_film_set.
  repeat (apply elem_of_cons in Hk as [->|Hk];
          [repeat (rewrite lookup_insert_ne by discriminate);
           rewrite lookup_insert_eq; by vm_compute|]).
  by apply elem_of_nil in Hk.
Qed.

Lemma init_record_frame self (k : string) :
  k ∉ reset_keys → film (_init_record self) !! k = film self !! k.
Proof.
  unfold reset_keys. intros Hk.
  rewrite !not_elem_of_cons in Hk. destruct_and!.
  unfold _init_record. rewrite !film_film_set.
  repeat (rewrite lookup_insert_ne by congruence).
  reflexivity.
Qed.

Lemma add_value_field_frame self val s' :
  _add_value_field self val = Ok s' →
  index s' = index self
  ∧ ∀ k : string, field_at (index self) ≠ Some k → film s' !! k = film self !! k.
Proof.
  destruct self as [i c chn shw mov f]. unfold _add_value_field.
  intros H.
  do 19 (destruct i as [|i];
         [cbn [index Nat.eqb] in H; unfold mbind, result_bind in H;
          branch_cases H; (split; [reflexivity|]); intros k Hk; try reflexivity;
          cbn [film film_set set_film field_at index] in *;
          rewrite lookup_insert_ne by congruence; reflexivity|]).
  cbn [index Nat.eqb] in H. simplify_eq. split; reflexivity.
Qed.

Lemma add_value_index self val s' :
  _add_value self val = Ok s' → index s' = index self + 1.
Proof.
  unfold _add_value. destruct (_add_value_field self val) as [s1|] eqn:H1; [|done].
  intros [= <-]. apply add_value_field_frame in H1 as [-> _]. reflexivity.
Qed.

(** A leaf only ever changes the key that the position table names. *)
Lemma add_value_frame self val s' (k : string) :
  _add_value self val = Ok s' → field_at (index self) ≠ Some k →
  film s' !! k = film self !! k.
Proof.
  unfold _add_value. destruct (_add_value_field self val) as [s1|] eqn:H1; [|done].
  intros [= <-] Hk. apply add_value_field_frame in H1 as [_ H1]. by apply H1.
Qed.

Lemma add_values_frame (vals : list string) self s' (k : string) :
  add_values self vals = Ok s' →
  (∀ i, index self ≤ i < index self + length vals → field_at i ≠ Some k) →
  film s' !! k = film self !! k.
Proof.
  revert self. induction vals as [|v vals IH]; intros self; simpl.
  - by intros [= <-].
  - destruct (_add_value self v) as [s1|] eqn:H1; [|done]. simpl.
    intros H Hk.
    rewrite (IH s1 H).
    + apply (add_value_frame _ _ _ _ H1). apply Hk. lia.
    + intros i Hi. apply Hk. rewrite (add_value_index _ _ _ H1) in Hi. lia.
Qed.

(** Positions 0 and 1 never raise. *)
Lemma add_value_total_01 self val :
  index self < 2 → ∃ s', _add_value self val = Ok s'.
Proof.
  intros Hi. unfold _add_value, _add_value_field.
  destruct (index self) as [|[|i]] eqn:E; [| |lia]; simpl;
    destruct (negb _); simpl; eauto.
Qed.

Lemma add_values_total_2 self (vals : list string) :
  index self = 0 → length vals ≤ 2 → ∃ s', add_values self vals = Ok s'.
Proof.
  intros Hi Hlen.
  destruct vals as [|v1 [|v2 [|v3 vals]]]; simpl in *; [by eauto| | |lia].
  - destruct (add_value_total_01 self v1) as [s1 H1]; [lia|]. rewrite H1. simpl. eauto.
  - destruct (add_value_total_01 self v1) as [s1 H1]; [lia|]. rewrite H1. simpl.
    pose proof (add_value_index _ _ _ H1) as Hi1.
    destruct (add_value_total_01 s1 v2) as [s2 H2]; [lia|]. rewrite H2. simpl. eauto.
Qed.

(** A field that the leaves of a record do not reach holds the default
    when the record ends. *)
Lemma record_isolation self (vals : list string) s' (k : string) :
  k ∈ reset_keys →
  (∀ i, i < length vals → field_at i ≠ Some k) →
  add_values (_init_record self) vals = Ok s' →
  film s' !! k = initial_film !! k.
Proof.
  intros Hk Hpos Hrun.
  rewrite (add_values_frame _ _ _ _ Hrun).
  - by apply init_record_reset.
  - intros i Hi. apply Hpos. rewrite init_record_index in Hi. lia.
Qed.

Lemma field_at_channel (i : nat) : field_at i = Some "channel" → i = 0.
Proof.
  intros H. do 19 (destruct i as [|i]; [first [reflexivity | discriminate H]|]).
  discriminate H.
Qed.

Lemma field_at_show (i : nat) : field_at i = Some "show" → i = 1.
Proof.
  intros H. do 19 (destruct i as [|i]; [first [reflexivity | discriminate H]|]).
  discriminate H.
Qed.

(** Position 0 assigns [channel] unless the leaf is empty. *)
Lemma add_value_channel self val :
  index self = 0 →
  _add_value self val
  = Ok (set_index 1 (if String.eqb val "" then self
                     else film_set "channel" (VStr val) self)).
Proof.
  intros Hi. unfold _add_value, _add_value_field. rewrite Hi. simpl.
  destruct (String.eqb val ""); simpl; unfold set_index; simpl; by rewrite ?Hi.
Qed.

(** Position 1 assigns [show] unless the leaf is empty. *)
Lemma add_value_show_guarded self val :
  index self = 1 →
  _add_value self val
  = Ok (set_index 2 (if String.eqb val "" then self
                     else film_set "show" (VStr (slice_to 255 val)) self)).
Proof.
  intros Hi. unfold _add_value, _add_value_field. rewrite Hi. simpl.
  destruct (String.eqb val ""); simpl; unfold set_index; simpl; by rewrite ?Hi.
Qed.

Lemma film_set_index (i : nat) self : film (set_index i self) = film self.
Proof. reflexivity. Qed.

Lemma result_bind_Ok {A B : Type} (a : A) (k : A → result B) : (Ok a ≫= k) = k a.
Proof. reflexivity. Qed.

Lemma after_channel self val :
  film (set_index 1 (if String.eqb val "" then self
                     else film_set "channel" (VStr val) self)) !! "channel"
  = (if String.eqb val "" then film self !! "channel" else Some (VStr val))
  ∧ film (set_index 1 (if String.eqb val "" then self
                       else film_set "channel" (VStr val) self)) !! "show"
    = film self !! "show".
Proof.
  rewrite film_set_index. destruct (String.eqb val ""); [done|].
  rewrite film_film_set. split; [apply lookup_insert_eq|].
  by rewrite lookup_insert_ne by discriminate.
Qed.

Lemma after_show self val :
  film (set_index 2 (if String.eqb val "" then self
                     else film_set "show" (VStr (slice_to 255 val)) self)) !! "show"
  = if String.eqb val "" then film self !! "show" else Some (VStr (slice_to 255 val)).
Proof.
  rewrite film_set_index. destruct (String.eqb val ""); [done|].
  rewrite film_film_set. apply lookup_insert_eq.
Qed.

(** What a record holds as [channel] and [show] once its leaves have been
    fed: the first, respectively second, leaf if there is one and it is not
    empty, and otherwise what the state held before the record. *)
Lemma record_channel_show self (vals : list string) s' :
  add_values (_init_record self) vals = Ok s' →
  film s' !! "channel"
  = match vals with
    | v :: _ => if String.eqb v "" then film self !! "channel" else Some (VStr v)
    | [] => film self !! "channel"
    end
  ∧ film s' !! "show"
    = match vals with
      | _ :: v :: _ =>
          if String.eqb v "" then film self !! "show" else Some (VStr (slice_to 255 v))
      | _ => film self !! "show"
      end.
Proof.
  assert (Hchn : film (_init_record self) !! "channel" = film self !! "channel")
    by (apply init_record_frame; by apply (bool_decide_unpack _)).
  assert (Hshw : film (_init_record self) !! "show" = film self !! "show")
    by (apply init_record_frame; by apply (bool_decide_unpack _)).
  destruct vals as [|v0 rest].
  { intros [= <-]. by split. }
  cbn [add_values].
  rewrite (add_value_channel _ v0 (init_record_index self)), result_bind_Ok.
  destruct (after_channel (_init_record self) v0) as [H1c H1s].
  rewrite Hchn in H1c. rewrite Hshw in H1s.
  remember (set_index 1 (if String.eqb v0 "" then _init_record self
                         else film_set "channel" (VStr v0) (_init_record self)))
    as s1 eqn:Hs1.
  assert (Hi1 : index s1 = 1) by (by rewrite Hs1).
  clear Hs1. intros Hrun. split.
  - rewrite (add_values_frame _ _ _ "channel" Hrun); [done|].
    intros i Hi Hf. apply field_at_channel in Hf. lia.
  - destruct rest as [|v1 rest].
    { cbn [add_values] in Hrun. injection Hrun as <-. done. }
    cbn [add_values] in Hrun.
    rewrite (add_value_show_guarded s1 v1 Hi1), result_bind_Ok in Hrun.
    pose proof (after_show s1 v1) as H2s. rewrite H1s in H2s.
    remember (set_index 2 (if String.eqb v1 "" then s1
                           else film_set "show" (VStr (slice_to 255 v1)) s1))
      as s2 eqn:Hs2.
    assert (Hi2 : index s2 = 2) by (by rewrite Hs2).
    clear Hs2.
    rewrite (add_values_frame _ _ _ "show" Hrun); [done|].
    intros i Hi Hf. apply field_at_show in Hf. lia.
Qed.

(** C1, as the code has it: a record-array start token makes the driver
    call [_init_record], which puts the cursor back to 0 and resets the
    twelve fields [title], [aired], [duration], [size], [description],
    [website], [url_sub], [url_video], [url_video_sd], [url_video_hd],
    [airedepoch] and [geo] to their defaults, and leaves every other key,
    [channel] and [show] among them, as the preceding record left it. A
    reset field for which the record supplies no leaf still holds its
    default at the end of the record; in particular a record with fewer than
    three leaves ends with the title [""]. Positions 0 and 1 cannot raise
    and assign [channel] and [show] only when the leaf is not empty, so a
    record whose first (second) leaf is missing or empty ends with the
    [channel] ([show]) of the record before it. *)
Theorem init_record_resets_all_but_channel_show self (k : string) :
  index (_init_record self) = 0
  ∧ (k ∈ reset_keys → film (_init_record self) !! k = initial_film !! k)
  ∧ (k ∉ reset_keys → film (_init_record self) !! k = film self !! k)
  ∧ ("channel" ∉ reset_keys) ∧ ("show" ∉ reset_keys)
  ∧ (∀ (vals : list string) s',
        k ∈ reset_keys →
        (∀ i, i < length vals → field_at i ≠ Some k) →
        add_values (_init_record self) vals = Ok s' →
        film s' !! k = initial_film !! k)
  ∧ (∀ vals : list string,
        length vals ≤ 2 →
        ∃ s', add_values (_init_record self) vals = Ok s'
              ∧ film s' !! "title" = Some (VStr ""))
  ∧ (∀ s val, index s = 0 →
        ∃ s', _add_value s val = Ok s'
              ∧ film s' !! "channel"
                = if String.eqb val "" then film s !! "channel" else Some (VStr val))
  ∧ (∀ s val, index s = 1 →
        ∃ s', _add_value s val = Ok s'
              ∧ film s' !! "show"
                = if String.eqb val "" then film s !! "show"
                  else Some (VStr (slice_to 255 val)))
  ∧ (∀ (vals : list string) s',
        add_values (_init_record self) vals = Ok s' →
        film s' !! "channel"
        = match vals with
          | v :: _ => if String.eqb v "" then film self !! "channel" else Some (VStr v)
          | [] => film self !! "channel"
          end
        ∧ film s' !! "show"
          = match vals with
            | _ :: v :: _ =>
                if String.eqb v "" then film self !! "show"
                else Some (VStr (slice_to 255 v))
            | _ => film self !! "show"
            end)
  ∧ (∀ e records (t : token) toks,
        is_token "X" "start_array" t = true →
        import_loop e records (t :: toks) self
        = import_loop e records toks (_init_record self)).
Proof.
  split; [reflexivity|].
  split; [apply init_record_reset|].
  split; [apply init_record_frame|].
  split; [by apply (bool_decide_unpack _)|].
  split; [by apply (bool_decide_unpack _)|].
  split; [intros vals s'; apply record_isolation|].
  split.
  { intros vals Hlen.
    destruct (add_values_total_2 (_init_record self) vals) as [s' Hs']; [done..|].
    exists s'. split; [done|].
    rewrite (record_isolation self vals s' "title"); [by vm_compute| |  |done].
    - by apply (bool_decide_unpack _).
    - intros i Hi. assert (i = 0 ∨ i = 1) as [->| ->] by lia; discriminate. }
  split.
  { intros s val Hi. eexists. split; [by apply add_value_channel|].
    apply (proj1 (after_channel s val)). }
  split.
  { intros s val Hi. eexists. split; [by apply add_value_show_guarded|].
    apply after_show. }
  split; [intros vals s'; apply record_channel_show|].
  intros e records t toks Ht. cbn [import_loop]. by rewrite Ht.
Qed.

Lemma init_record_resets_all_but_channel_show_witness :
  film (_init_record (film_set "title" (VStr "A") initial_updater)) !! "title"
  = initial_film !! "title"
  ∧ ∃ s', add_values (_init_record (film_set "title" (VStr "A") initial_updater))
            ["ARD"; "Tagesschau"] = Ok s'
          ∧ film s' !! "title" = Some (VStr "").
Proof.
  pose proof (init_record_resets_all_but_channel_show
                (film_set "title" (VStr "A") initial_updater) "title")
    as (_ & Hreset & _ & _ & _ & _ & Htitle & _).
  split.
  - apply Hreset. unfold reset_keys. apply elem_of_cons. by left.
  - apply Htitle. simpl. lia.
Defined.

(** C1 as stated fails: the second of two records, which supplies no leaf,
    is handed to storage with the channel and the show of the first. *)
Lemma channel_and_show_carry_over :
  (fun f => (f !! "channel", f !! "show", f !! "title"))
    <$> inserted_films
          (Import (import_env two_records (fun _ => false)) unpacked initial_updater).1.1
  = [(Some (VStr "ARD"), Some (VStr "Tagesschau"), Some (VStr "A"));
     (Some (VStr "ARD"), Some (VStr "Tagesschau"), Some (VStr ""))]
  ∧ initial_film !! "channel" = Some (VStr "")
  ∧ initial_film !! "show" = Some (VStr "").
Proof. by vm_compute. Qed.

(** *** Delta-encoded URLs *)

Lemma make_url_two_parts self (x0 x1 : string) :
  occurrences "|" x0 = 0 → occurrences "|" x1 = 0 →
  _make_url self (x0 +:+ "|" +:+ x1)
  = cnt ← int x0;
    match film self !! "url_video" with
    | Some (VStr url) => Ok (VStr (slice_to cnt url +:+ x1))
    | Some (VInt _) => Raise TypeError
    | None => Raise KeyError
    end.
Proof.
  intros H0 H1. unfold _make_url.
  change (x0 +:+ "|" +:+ x1) with (x0 +:+ String "|" x1).
  by rewrite (split_app _ _ _ H0), (split_no_sep _ _ H1).
Qed.

Lemma make_url_other self val :
  occurrences "|" val ≠ 1 → _make_url self val = Ok (VStr val).
Proof.
  intros Hocc. unfold _make_url.
  pose proof (split_length "|" val) as Hlen.
  destruct (split "|" val) as [|x0 [|x1 [|x2 parts]]]; simpl in Hlen; try done.
  lia.
Qed.

(** C3, as the code has it: a value [N|suffix] with [N] a decimal numeral
    and no further delimiter expands to the first [N] characters of
    [url_video] followed by the suffix; a value with no delimiter or with
    more than one is passed through unchanged; and for a value with exactly
    one delimiter the part before it goes through [int], whose value (which
    may be negative) bounds the slice and whose [ValueError] on a
    non-integer part is raised by [_make_url]. *)
Theorem make_url_cases self (url val x0 suffix : string) (d : Decimal.uint) :
  film self !! "url_video" = Some (VStr url) →
  occurrences "|" suffix = 0 →
  (d ≠ Decimal.Nil →
   _make_url self (numeral d +:+ "|" +:+ suffix)
   = Ok (VStr (substring 0 (Z.to_nat (Z.of_uint d)) url +:+ suffix)))
  ∧ (occurrences "|" val ≠ 1 → _make_url self val = Ok (VStr val))
  ∧ (occurrences "|" x0 = 0 →
     ∀ n, int x0 = Ok n →
          _make_url self (x0 +:+ "|" +:+ suffix) = Ok (VStr (slice_to n url +:+ suffix)))
  ∧ (occurrences "|" x0 = 0 →
     int x0 = Raise ValueError →
     _make_url self (x0 +:+ "|" +:+ suffix) = Raise ValueError).
Proof.
  intros Hurl Hsuf. repeat split.
  - intros Hd. rewrite make_url_two_parts; [|by apply occurrences_digits, numeral_digits|done].
    rewrite (int_numeral d Hd). simpl. rewrite Hurl. unfold slice_to.
    assert ((0 <=? Z.of_uint d)%Z = true) as ->; [|done].
    apply Z.leb_le. unfold Z.of_uint. lia.
  - apply make_url_other.
  - intros H0 n Hn. rewrite make_url_two_parts by done. rewrite Hn. simpl. by rewrite Hurl.
  - intros H0 Hn. rewrite make_url_two_parts by done. by rewrite Hn.
Qed.

Lemma make_url_cases_witness :
  _make_url (film_set "url_video" (VStr "http://example.com/video.mp4") initial_updater)
    "7|suffix.mp4"
  = Ok (VStr "http://suffix.mp4")
  ∧ _make_url (film_set "url_video" (VStr "http://example.com/video.mp4") initial_updater)
      "http://other.com/x.mp4"
    = Ok (VStr "http://other.com/x.mp4").
Proof.
  pose proof (make_url_cases
                (film_set "url_video" (VStr "http://example.com/video.mp4") initial_updater)
                "http://example.com/video.mp4" "http://other.com/x.mp4" "7" "suffix.mp4"
                (Decimal.D7 Decimal.Nil) eq_refl eq_refl) as (H1 & H2 & _).
  split; [apply H1; discriminate | apply H2; discriminate].
Defined.

(** C3 as stated fails: with a non-integer part before the single
    delimiter the value is not passed through, [_make_url] raises. *)
Lemma make_url_non_integer_prefix_raises :
  _make_url initial_updater "abc|def" = Raise ValueError
  ∧ _make_url initial_updater "abc|def" ≠ Ok (VStr "abc|def").
Proof. split; [reflexivity|discriminate]. Qed.

End Decoder.

(** ** resources/lib/mvutils.py: [make_duration] *)

Section Duration.

Import MvUtils.

Lemma make_duration_three_parts (p0 p1 p2 : string) :
  occurrences ":" p0 = 0 → occurrences ":" p1 = 0 → occurrences ":" p2 = 0 →
  p0 +:+ ":" +:+ p1 +:+ ":" +:+ p2 ≠ "00:00:00" →
  make_duration (Some (p0 +:+ ":" +:+ p1 +:+ ":" +:+ p2))
  = h ← int p0; m ← int p1; s ← int p2; Ok (Some (h * 3600 + m * 60 + s)%Z).
Proof.
  intros H0 H1 H2 Hne. unfold make_duration.
  rewrite bool_decide_eq_false_2 by congruence.
  change (p0 +:+ ":" +:+ p1 +:+ ":" +:+ p2) with (p0 +:+ String ":" (p1 +:+ String ":" p2)).
  by rewrite (split_app _ _ _ H0), (split_app _ _ _ H1), (split_no_sep _ _ H2).
Qed.

Lemma make_duration_none_iff (val : option string) :
  make_duration val = Ok None
  ↔ val = None ∨ val = Some "00:00:00"
    ∨ ∃ v, val = Some v ∧ length (split ":" v) ≠ 3.
Proof.
  unfold make_duration. case_bool_decide as Hz; [naive_solver|].
  destruct val as [v|]; [|naive_solver].
  destruct (split ":" v) as [|p0 [|p1 [|p2 [|p3 parts]]]] eqn:Hsplit;
    try (split; [intros _; right; right; exists v; rewrite Hsplit; simpl; split; [done|lia]
                |done]).
  split.
  - destruct (int p0), (int p1), (int p2); simpl; discriminate.
  - intros [?|[?|(v' & [= <-] & Hlen)]]; [done..|].
    rewrite Hsplit in Hlen. by destruct Hlen.
Qed.

(** C10: [make_duration] returns [None] exactly for [None], for
    ["00:00:00"] and for a string that does not split at colons into three
    parts; and for three decimal numerals [hh:mm:ss] other than ["00:00:00"]
    it returns [hh*3600 + mm*60 + ss]. *)
Theorem make_duration_spec (val : option string) (hh mm ss : Decimal.uint) :
  (make_duration val = Ok None
   ↔ val = None ∨ val = Some "00:00:00"
     ∨ ∃ v, val = Some v ∧ length (split ":" v) ≠ 3)
  ∧ (hh ≠ Decimal.Nil → mm ≠ Decimal.Nil → ss ≠ Decimal.Nil →
     numeral hh +:+ ":" +:+ numeral mm +:+ ":" +:+ numeral ss ≠ "00:00:00" →
     make_duration (Some (numeral hh +:+ ":" +:+ numeral mm +:+ ":" +:+ numeral ss))
     = Ok (Some (Z.of_uint hh * 3600 + Z.of_uint mm * 60 + Z.of_uint ss)%Z)).
Proof.
  split; [apply make_duration_none_iff|].
  intros Hh Hm Hs Hne.
  rewrite make_duration_three_parts;
    [|by apply occurrences_digits, numeral_digits..|done].
  by rewrite !int_numeral.
Qed.

Lemma make_duration_spec_witness :
  make_duration (Some "01:02:03") = Ok (Some 3723%Z)
  ∧ make_duration (Some "00:00:00") = Ok None
  ∧ make_duration None = Ok None
  ∧ make_duration (Some "12:30") = Ok None.
Proof.
  pose proof (make_duration_spec (Some "00:00:00")
                (Decimal.D0 (Decimal.D1 Decimal.Nil))
                (Decimal.D0 (Decimal.D2 Decimal.Nil))
                (Decimal.D0 (Decimal.D3 Decimal.Nil))) as [Hnone Hsec].
  split; [apply Hsec; discriminate|].
  split; [apply Hnone; right; left; reflexivity|].
  split.
  - apply (proj1 (make_duration_spec None Decimal.Nil Decimal.Nil Decimal.Nil)).
    left; reflexivity.
  - apply (proj1 (make_duration_spec (Some "12:30") Decimal.Nil Decimal.Nil Decimal.Nil)).
    right; right. exists "12:30". split; [reflexivity|]. simpl. discriminate.
Defined.

End Duration.

(** ** resources/lib/mvutils.py: the chunked copier *)

Section Copier.

Import MvUtils.

Variables (aborthook : nat → bool) (chunk_size total_size : Z).

Lemma writes_cons_write (c : string) (tr : list event) :
  writes (DstWrite c :: tr) = S (writes tr).
Proof. reflexivity. Qed.

(** Every read follows a negative poll and a report of the chunks
    transferred so far. *)
Lemma copy_loop_reads (payload : list string) :
  ∀ (n : nat) (pre : list event) (chunk : string) (post : list event),
    (copy_loop aborthook chunk_size total_size payload n).1 = pre ++ SrcRead chunk :: post →
    ∃ pre', pre = pre' ++ [Aborthook false; Reporthook (n + writes pre') chunk_size total_size].
Proof.
  induction payload as [|c rest IH]; intros n pre chunk post; simpl.
  - destruct (aborthook n); simpl.
    + destruct pre as [|? [|? ?]]; discriminate.
    + destruct pre as [|? [|? [|? [|? ?]]]]; intros [=]; subst.
      exists []. simpl. by rewrite Nat.add_0_r.
  - destruct (aborthook n); simpl.
    + destruct pre as [|? [|? ?]]; discriminate.
    + destruct (String.eqb c ""); simpl.
      * destruct pre as [|? [|? [|? [|? ?]]]]; intros [=]; subst.
        exists []. simpl. by rewrite Nat.add_0_r.
      * destruct (copy_loop aborthook chunk_size total_size rest (S n)) as [tr r] eqn:E.
        simpl. specialize (IH (S n)). rewrite E in IH. simpl in IH.
        destruct pre as [|e1 [|e2 [|e3 [|e4 pre2]]]]; intros [=]; subst.
        -- exists []. simpl. by rewrite Nat.add_0_r.
        -- destruct (IH pre2 chunk post eq_refl) as [pre2' ->].
           exists (Aborthook false :: Reporthook n chunk_size total_size
                     :: SrcRead c :: DstWrite c :: pre2').
           simpl. by rewrite Nat.add_succ_r.
Qed.

(** A positive poll ends the trace, and the copier raises. *)
Lemma copy_loop_abort (payload : list string) :
  ∀ (n : nat) (pre post : list event),
    (copy_loop aborthook chunk_size total_size payload n).1 = pre ++ Aborthook true :: post →
    post = [] ∧ (copy_loop aborthook chunk_size total_size payload n).2 = Raise ExitRequested.
Proof.
  induction payload as [|c rest IH]; intros n pre post; simpl.
  - destruct (aborthook n); simpl.
    + destruct pre as [|? [|? ?]]; intros [=]; by subst.
    + destruct pre as [|? [|? [|? [|? ?]]]]; discriminate.
  - destruct (aborthook n); simpl.
    + destruct pre as [|? [|? ?]]; intros [=]; by subst.
    + destruct (String.eqb c ""); simpl.
      * destruct pre as [|? [|? [|? [|? ?]]]]; discriminate.
      * destruct (copy_loop aborthook chunk_size total_size rest (S n)) as [tr r] eqn:E.
        simpl. specialize (IH (S n)). rewrite E in IH. simpl in IH.
        destruct pre as [|e1 [|e2 [|e3 [|e4 pre2]]]]; intros [=]; subst.
        by apply (IH pre2).
Qed.

(** The trace of the loop: one round of poll, report, read and write for
    every chunk transferred, then either the poll that answered true or the
    round whose read found the transfer finished. *)
Lemma copy_loop_trace (payload : list string) :
  ∀ n : nat,
    (copy_loop aborthook chunk_size total_size payload n).1
    = concat (imap (fun i c => [Aborthook false;
                                Reporthook (n + i) chunk_size total_size;
                                SrcRead c; DstWrite c])
                (take (writes (copy_loop aborthook chunk_size total_size payload n).1)
                   (until_empty payload)))
      ++ (if aborthook (n + writes (copy_loop aborthook chunk_size total_size payload n).1)
          then [Aborthook true]
          else [Aborthook false;
                Reporthook (n + writes (copy_loop aborthook chunk_size total_size payload n).1)
                  chunk_size total_size;
                SrcRead ""])
    ∧ writes (copy_loop aborthook chunk_size total_size payload n).1
      ≤ length (until_empty payload)
    ∧ (∀ i, n ≤ i < n + writes (copy_loop aborthook chunk_size total_size payload n).1 →
            aborthook i = false)
    ∧ (copy_loop aborthook chunk_size total_size payload n).2
      = (if aborthook (n + writes (copy_loop aborthook chunk_size total_size payload n).1)
         then Raise ExitRequested else Ok tt)
    ∧ (aborthook (n + writes (copy_loop aborthook chunk_size total_size payload n).1) = false →
       writes (copy_loop aborthook chunk_size total_size payload n).1
       = length (until_empty payload)).
Proof.
  induction payload as [|c rest IH]; intros n.
  - cbn [copy_loop until_empty].
    destruct (aborthook n) eqn:Hn; cbn [fst snd app writes];
      rewrite Nat.add_0_r, Hn; (split_and!; [done|done|intros i; lia|done|done]).
  - cbn [copy_loop until_empty].
    destruct (aborthook n) eqn:Hn.
    { cbn [fst snd app writes]. rewrite Nat.add_0_r, Hn.
      split_and!; [done|lia|intros i; lia|done|done]. }
    destruct (String.eqb c "") eqn:Hc.
    { cbn [fst snd app writes]. rewrite Nat.add_0_r, Hn.
      split_and!; [done|done|intros i; lia|done|done]. }
    specialize (IH (S n)).
    destruct (copy_loop aborthook chunk_size total_size rest (S n)) as [tr r].
    cbn [fst snd app writes length] in *.
    destruct IH as (Htr & Hle & Hfalse & Hr & Hlen).
    replace (n + S (writes tr)) with (S (n + writes tr)) by lia.
    split_and!.
    + cbn [take]. rewrite imap_cons. cbn [concat app]. rewrite Nat.add_0_r.
      do 4 f_equal. rewrite Htr at 1. f_equal. f_equal.
      apply imap_ext. intros i x _. cbn. by rewrite Nat.add_succ_r.
    + lia.
    + intros i Hi. destruct (decide (i = n)) as [->|]; [done|]. apply Hfalse. lia.
    + exact Hr.
    + intros Hh. rewrite (Hlen Hh). reflexivity.
Qed.

End Copier.

Section CopierSpec.

Import MvUtils.

Lemma total_size_absent (src : source) :
  content_length src = None → total_size_of src = Ok 0%Z.
Proof. unfold total_size_of. by intros ->. Qed.

Lemma total_size_declared (src : source) (d : Decimal.uint) :
  d ≠ Decimal.Nil → content_length src = Some (numeral d) →
  total_size_of src = Ok (Z.of_uint d).
Proof.
  intros Hd Hlen. unfold total_size_of. rewrite Hlen.
  destruct (String.eqb_spec (numeral d) "") as [E|_]; [by apply numeral_nonempty in E|].
  unfold strip. rewrite lstrip_digits, rstrip_digits by apply numeral_digits.
  by apply int_numeral.
Qed.

(** C8: the copier polls the cancellation predicate before every read.
    Its trace is one round of poll (answering false), report
    [(chunks transferred, chunk_size, total_size)], read and write for each
    chunk transferred, followed either by the poll that answered true, after
    which nothing is read or written and [ExitRequested] is raised, or by
    the round whose read found the transfer finished, after which the copier
    returns. Whenever a poll made during the transfer answers true the
    copier raises. [total_size] is the declared content length, and 0 when
    none is advertised. *)
Theorem chunked_copier_protocol (src : source) (chunk_size : Z)
    (aborthook : option (nat → bool)) (total_size : Z) :
  total_size_of src = Ok total_size →
  let hook := default (fun _ => false) aborthook in
  let run := _chunked_url_copier src chunk_size aborthook in
  let n := writes run.1 in
  (∀ pre chunk post,
      run.1 = pre ++ SrcRead chunk :: post →
      ∃ pre', pre = pre' ++ [Aborthook false; Reporthook (writes pre') chunk_size total_size])
  ∧ (∀ pre post,
        run.1 = pre ++ Aborthook true :: post →
        post = [] ∧ run.2 = Raise ExitRequested)
  ∧ run.1
    = concat (imap (fun i c => [Aborthook false; Reporthook i chunk_size total_size;
                                SrcRead c; DstWrite c])
                (take n (until_empty (chunks src))))
      ++ (if hook n then [Aborthook true]
          else [Aborthook false; Reporthook n chunk_size total_size; SrcRead ""])
  ∧ n ≤ length (until_empty (chunks src))
  ∧ (∀ i, i < n → hook i = false)
  ∧ (hook n = true → run.2 = Raise ExitRequested)
  ∧ (hook n = false → run.2 = Ok tt ∧ n = length (until_empty (chunks src)))
  ∧ (∀ m, m ≤ length (until_empty (chunks src)) → hook m = true →
          run.2 = Raise ExitRequested ∧ n ≤ m)
  ∧ (content_length src = None → total_size = 0%Z)
  ∧ (∀ d, d ≠ Decimal.Nil → content_length src = Some (numeral d) →
          total_size = Z.of_uint d).
Proof.
  intros Htotal. cbv zeta. unfold _chunked_url_copier. rewrite Htotal.
  destruct (copy_loop_trace (default (fun _ => false) aborthook) chunk_size total_size
              (chunks src) 0) as (Htr & Hle & Hfalse & Hr & Hlen).
  cbn [Nat.add] in Htr, Hfalse, Hr, Hlen.
  split_and!.
  - intros pre chunk post H. by apply copy_loop_reads in H.
  - intros pre post H. by apply copy_loop_abort in H.
  - exact Htr.
  - exact Hle.
  - intros i Hi. apply Hfalse. lia.
  - intros Hh. by rewrite Hr, Hh.
  - intros Hh. split; [by rewrite Hr, Hh|by apply Hlen].
  - intros m Hm Hhm. rewrite Hr.
    destruct (default (fun _ => false) aborthook
                (writes (copy_loop (default (fun _ => false) aborthook) chunk_size
                           total_size (chunks src) 0).1)) eqn:Hh.
    + split; [done|].
      destruct (decide (m < writes (copy_loop (default (fun _ => false) aborthook)
                                      chunk_size total_size (chunks src) 0).1))
        as [Hlt|]; [|lia].
      rewrite Hfalse in Hhm by lia. discriminate.
    + specialize (Hlen eq_refl).
      destruct (decide (m = writes (copy_loop (default (fun _ => false) aborthook)
                                      chunk_size total_size (chunks src) 0).1))
        as [->|Hne]; [congruence|].
      rewrite Hfalse in Hhm by lia. discriminate.
  - intros Habs. rewrite (total_size_absent _ Habs) in Htotal. congruence.
  - intros d Hd Hlen'. rewrite (total_size_declared _ _ Hd Hlen') in Htotal. congruence.
Qed.

Lemma chunked_copier_protocol_witness :
  let hook := default (fun _ => false) (Some (fun n => 1 <=? n)) in
  let run := _chunked_url_copier two_chunks 8192 (Some (fun n => 1 <=? n)) in
  let n := writes run.1 in
  (∀ pre chunk post,
      run.1 = pre ++ SrcRead chunk :: post →
      ∃ pre', pre = pre' ++ [Aborthook false; Reporthook (writes pre') 8192 4])
  ∧ (∀ pre post,
        run.1 = pre ++ Aborthook true :: post →
        post = [] ∧ run.2 = Raise ExitRequested)
  ∧ run.1
    = concat (imap (fun i c => [Aborthook false; Reporthook i 8192 4;
                                SrcRead c; DstWrite c])
                (take n (until_empty (chunks two_chunks))))
      ++ (if hook n then [Aborthook true]
          else [Aborthook false; Reporthook n 8192 4; SrcRead ""])
  ∧ n ≤ length (until_empty (chunks two_chunks))
  ∧ (∀ i, i < n → hook i = false)
  ∧ (hook n = true → run.2 = Raise ExitRequested)
  ∧ (hook n = false → run.2 = Ok tt ∧ n = length (until_empty (chunks two_chunks)))
  ∧ (∀ m, m ≤ length (until_empty (chunks two_chunks)) → hook m = true →
          run.2 = Raise ExitRequested ∧ n ≤ m)
  ∧ (content_length two_chunks = None → 4%Z = 0%Z)
  ∧ (∀ d, d ≠ Decimal.Nil → content_length two_chunks = Some (numeral d) →
          4%Z = Z.of_uint d).
Proof.
  apply (chunked_copier_protocol two_chunks 8192 (Some (fun n => 1 <=? n)) 4).
  reflexivity.
Defined.

Example copier_two_chunks :
  _chunked_url_copier two_chunks 8192 None
  = ([Aborthook false; Reporthook 0 8192 4; SrcRead "ab"; DstWrite "ab";
      Aborthook false; Reporthook 1 8192 4; SrcRead "cd"; DstWrite "cd";
      Aborthook false; Reporthook 2 8192 4; SrcRead ""], Ok tt).
Proof. reflexivity. Qed.

Example copier_cancelled_after_one_chunk :
  _chunked_url_copier two_chunks 8192 (Some (fun n => 1 <=? n))
  = ([Aborthook false; Reporthook 0 8192 4; SrcRead "ab"; DstWrite "ab";
      Aborthook true], Raise ExitRequested).
Proof. reflexivity. Qed.

End CopierSpec.

(** ** classes/updater.py: the import driver *)

Section ImportDriver.

Variables (e : env) (records : Z).

Implicit Types (self : updater) (toks : list token) (tr : list event).

Lemma add_value_count self val s' :
  _add_value self val = Ok s' → count s' = count self.
Proof.
  unfold _add_value. destruct (_add_value_field self val) as [s1|] eqn:H1; [|done].
  intros [= <-]. simpl. revert H1.
  destruct self as [i c chn shw mov f]. unfold _add_value_field. intros H.
  do 19 (destruct i as [|i];
         [cbn [index Nat.eqb] in H; unfold mbind, result_bind in H;
          branch_cases H; reflexivity|]).
  cbn [index Nat.eqb] in H. by simplify_eq.
Qed.

Lemma end_record_spec self ev self1 :
  _end_record e records self = (ev, self1) →
  count self1 = count self + 1
  ∧ update_ends ev = [] ∧ statuses ev = [] ∧ file_closes ev = []
  ∧ polls ev = [] ∧ positive_polls ev = [].
Proof.
  unfold _end_record.
  destruct (ftInsertFilm e (count self) (film self)) as [[[? ?] ?] ?].
  destruct (count self mod 1000 =? 0); intros [= <- <-]; repeat split; reflexivity.
Qed.

Lemma update_end_spec self aborted status descr :
  update_ends (_update_end e self aborted status descr) = [aborted]
  ∧ statuses (_update_end e self aborted status descr) = [status]
  ∧ file_closes (_update_end e self aborted status descr) = []
  ∧ polls (_update_end e self aborted status descr) = []
  ∧ positive_polls (_update_end e self aborted status descr) = [].
Proof.
  unfold _update_end. by destruct (ftUpdateEnd e aborted) as [[[[[? ?] ?] ?] ?] ?].
Qed.

Lemma end_token_not_start (t : token) :
  is_token "X" "end_array" t = true → is_token "X" "start_array" t = false.
Proof.
  unfold is_token. intros [_ Hev%String.eqb_eq]%andb_true_iff.
  rewrite Hev. by rewrite andb_false_r.
Qed.

Lemma records_in_cons (t : token) toks :
  records_in (t :: toks)
  = (if is_token "X" "end_array" t then 1 else 0) + records_in toks.
Proof. unfold records_in. simpl. by destruct (is_token "X" "end_array" t). Qed.

Lemma import_loop_cons (t : token) toks self :
  import_loop e records (t :: toks) self
  = if is_token "X" "start_array" t then
      import_loop e records toks (_init_record self)
    else if is_token "X" "end_array" t then
      let '(ev, self1) := _end_record e records self in
      if (count self1 mod 100 =? 0)%nat then
        if abortRequested e (count self1) then
          (ev ++ [AbortRequested (count self1) true; FileClose]
              ++ _update_end e self1 true "ABORTED" (Msg 30959)
              ++ [CloseUpdateProgress],
           Ok (Returned true), self1)
        else
          let '(tr, r, self2) := import_loop e records toks self1 in
          (ev ++ AbortRequested (count self1) false :: tr, r, self2)
      else
        let '(tr, r, self2) := import_loop e records toks self1 in
        (ev ++ tr, r, self2)
    else if is_token "X.item" "string" t then
      match _add_value self (match tok_value t with Some v => strip v | None => "" end) with
      | Ok self1 => import_loop e records toks self1
      | Raise x => ([], Raise x, self)
      end
    else import_loop e records toks self.
Proof. reflexivity. Qed.

Lemma import_loop_observed toks :
  ∀ self, loop_observed self toks (import_loop e records toks self).
Proof.
  induction toks as [|t toks IH]; intros self.
  - unfold loop_observed. simpl. unfold records_in. simpl. repeat split; lia.
  - unfold loop_observed. rewrite import_loop_cons, records_in_cons.
    destruct (is_token "X" "start_array" t) eqn:Hstart.
    { assert (is_token "X" "end_array" t = false) as ->.
      { destruct (is_token "X" "end_array" t) eqn:Hend; [|done].
        apply end_token_not_start in Hend. congruence. }
      specialize (IH (_init_record self)). unfold loop_observed in *.
      destruct (import_loop e records toks (_init_record self)) as [[tr r] s'].
      simpl in *. by destruct r as [[|b]|]. }
    destruct (is_token "X" "end_array" t) eqn:Hend.
    { destruct (_end_record e records self) as [ev self1] eqn:Her.
      apply end_record_spec in Her as (Hc & Hu & Hs & Hf & _ & Hp).
      specialize (IH self1). unfold loop_observed in *.
      destruct (count self1 mod 100 =? 0).
      - destruct (abortRequested e (count self1)).
        + simpl. pose proof (update_end_spec self1 true "ABORTED" (Msg 30959))
            as (Hu' & Hs' & Hf' & _ & Hp').
          unfold update_ends, statuses, file_closes, positive_polls in *.
          rewrite !omap_app. simpl. rewrite !omap_app. simpl.
          rewrite Hu, Hs, Hf, Hp, Hu', Hs', Hf', Hp'. done.
        + destruct (import_loop e records toks self1) as [[tr r] s'].
          simpl in *. unfold update_ends, statuses, file_closes, positive_polls in *.
          rewrite !omap_app. simpl. rewrite Hu, Hs, Hf, Hp. simpl.
          destruct r as [[|b]|]; [|done..].
          destruct IH as (? & ? & ? & ? & ?). repeat split; try done. lia.
      - destruct (import_loop e records toks self1) as [[tr r] s'].
        simpl in *. unfold update_ends, statuses, file_closes, positive_polls in *.
        rewrite !omap_app. rewrite Hu, Hs, Hf, Hp. simpl.
        destruct r as [[|b]|]; [|done..].
        destruct IH as (? & ? & ? & ? & ?). repeat split; try done. lia. }
    destruct (is_token "X.item" "string" t).
    + destruct (_add_value self _) as [self1|x] eqn:Hadd; [|by unfold loop_observed].
      apply add_value_count in Hadd.
      specialize (IH self1). unfold loop_observed in *.
      destruct (import_loop e records toks self1) as [[tr r] s'].
      simpl in *. destruct r as [[|b]|]; [|done..].
      destruct IH as (? & ? & ? & ? & ?). repeat split; try done. lia.
    + specialize (IH self). unfold loop_observed in *.
      destruct (import_loop e records toks self) as [[tr r] s'].
      simpl in *. by destruct r as [[|b]|].
Qed.

(** The loop polls exactly at the multiples of 100 that the record count
    reaches. *)
Lemma import_loop_polls toks :
  ∀ self,
    count self ≤ count (import_loop e records toks self).2
    ∧ ∀ n, n ∈ polls (import_loop e records toks self).1.1
           ↔ (count self < n ≤ count (import_loop e records toks self).2
              ∧ n mod 100 = 0).
Proof.
  induction toks as [|t toks IH]; intros self.
  - simpl. split; [lia|]. intros n. rewrite elem_of_nil. lia.
  - rewrite import_loop_cons.
    destruct (is_token "X" "start_array" t); [apply (IH (_init_record self))|].
    destruct (is_token "X" "end_array" t).
    { destruct (_end_record e records self) as [ev self1] eqn:Her.
      apply end_record_spec in Her as (Hc & _ & _ & _ & Hp & _).
      specialize (IH self1).
      destruct (Nat.eqb_spec (count self1 mod 100) 0) as [Hmod|Hmod].
      - destruct (abortRequested e (count self1)).
        + simpl. split; [lia|]. intros n.
          pose proof (update_end_spec self1 true "ABORTED" (Msg 30959))
            as (_ & _ & _ & Hp' & _).
          unfold polls in *. rewrite !omap_app. simpl. rewrite !omap_app.
          rewrite Hp, Hp'. simpl. rewrite list_elem_of_singleton.
          split; [intros ->; split; [lia|done]|]. lia.
        + destruct (import_loop e records toks self1) as [[tr r] s'].
          simpl in *. destruct IH as [Hle IH]. split; [lia|]. intros n.
          unfold polls in *. rewrite omap_app. rewrite Hp. simpl.
          rewrite elem_of_cons, IH.
          split; [intros [->|?]; [split; [lia|done]|lia]|].
          intros [? ?]. destruct (decide (n = count self1)); [by left|right; lia].
      - destruct (import_loop e records toks self1) as [[tr r] s'].
        simpl in *. destruct IH as [Hle IH]. split; [lia|]. intros n.
        unfold polls in *. rewrite omap_app. rewrite Hp. simpl. rewrite IH.
        split; [lia|]. intros [? ?].
        destruct (decide (n = count self1)) as [->|]; [done|lia]. }
    destruct (is_token "X.item" "string" t); [|apply IH].
    destruct (_add_value self _) as [self1|x] eqn:Hadd.
    + apply add_value_count in Hadd. rewrite <- Hadd. apply IH.
    + simpl. split; [lia|]. intros n. rewrite elem_of_nil. lia.
Qed.

(** Once the host answers true at the multiple [B] of 100, the loop never
    gets past [B] records, and it cannot run out of tokens at [B]. *)
Lemma import_loop_bound toks (B : nat) :
  B mod 100 = 0 → abortRequested e B = true →
  ∀ self, count self < B →
    count (import_loop e records toks self).2 ≤ B
    ∧ ((import_loop e records toks self).1.2 = Ok Exhausted →
       count (import_loop e records toks self).2 < B).
Proof.
  intros HB Habort. induction toks as [|t toks IH]; intros self Hlt.
  - simpl. split; [lia|done].
  - rewrite import_loop_cons.
    destruct (is_token "X" "start_array" t); [by apply (IH (_init_record self))|].
    destruct (is_token "X" "end_array" t).
    { destruct (_end_record e records self) as [ev self1] eqn:Her.
      apply end_record_spec in Her as (Hc & _).
      destruct (Nat.eqb_spec (count self1 mod 100) 0) as [Hmod|Hmod].
      - destruct (abortRequested e (count self1)) eqn:Hpoll.
        + simpl. split; [lia|done].
        + assert (count self1 < B) as Hlt1.
          { destruct (decide (count self1 = B)) as [E|]; [|lia].
            rewrite E in Hpoll. congruence. }
          specialize (IH self1 Hlt1).
          by destruct (import_loop e records toks self1) as [[tr r] s'].
      - assert (count self1 < B) as Hlt1.
        { destruct (decide (count self1 = B)) as [E|]; [|lia]. by rewrite E in Hmod. }
        specialize (IH self1 Hlt1).
        by destruct (import_loop e records toks self1) as [[tr r] s']. }
    destruct (is_token "X.item" "string" t); [|by apply IH].
    destruct (_add_value self _) as [self1|x] eqn:Hadd.
    + apply add_value_count in Hadd. apply IH. lia.
    + simpl. split; [lia|done].
Qed.

Lemma next_poll_spec (k : nat) :
  next_poll k mod 100 = 0 ∧ k < next_poll k ≤ k + 100.
Proof.
  unfold next_poll. split.
  - rewrite Nat.mul_comm. apply Nat.Div0.mod_mul.
  - pose proof (Nat.div_mod_eq k 100) as Hdm.
    pose proof (Nat.mod_upper_bound k 100). lia.
Qed.

(** The loop is left by [return] only at a poll: after a positive number
    of records that is a multiple of 100, with the host answering true. *)
Lemma import_loop_return_poll toks :
  ∀ self (b : bool),
    (import_loop e records toks self).1.2 = Ok (Returned b) →
    abortRequested e (count (import_loop e records toks self).2) = true
    ∧ count (import_loop e records toks self).2 mod 100 = 0
    ∧ count self < count (import_loop e records toks self).2.
Proof.
  induction toks as [|t toks IH]; intros self b; [done|].
  rewrite import_loop_cons.
  destruct (is_token "X" "start_array" t); [apply (IH (_init_record self))|].
  destruct (is_token "X" "end_array" t).
  { destruct (_end_record e records self) as [ev self1] eqn:Her.
    apply end_record_spec in Her as (Hc & _).
    specialize (IH self1 b).
    destruct (Nat.eqb_spec (count self1 mod 100) 0) as [Hmod|Hmod].
    - destruct (abortRequested e (count self1)) eqn:Hpoll.
      + cbn [fst snd]. intros _. split_and!; [done|done|lia].
      + destruct (import_loop e records toks self1) as [[tr r] s'].
        cbn [fst snd] in *. intros Hr. destruct (IH Hr) as (? & ? & ?).
        split_and!; [done|done|lia].
    - destruct (import_loop e records toks self1) as [[tr r] s'].
      cbn [fst snd] in *. intros Hr. destruct (IH Hr) as (? & ? & ?).
      split_and!; [done|done|lia]. }
  destruct (is_token "X.item" "string" t); [|apply IH].
  destruct (_add_value self _) as [self1|x] eqn:Hadd; [|done].
  apply add_value_count in Hadd. rewrite <- Hadd. apply IH.
Qed.

(** The loop processes at most the records that the stream holds. *)
Lemma import_loop_count_le toks :
  ∀ self, count (import_loop e records toks self).2 ≤ count self + records_in toks.
Proof.
  induction toks as [|t toks IH]; intros self; [simpl; lia|].
  rewrite import_loop_cons, records_in_cons.
  destruct (is_token "X" "start_array" t) eqn:Hstart.
  { specialize (IH (_init_record self)). simpl in IH. lia. }
  destruct (is_token "X" "end_array" t).
  { destruct (_end_record e records self) as [ev self1] eqn:Her.
    apply end_record_spec in Her as (Hc & _).
    specialize (IH self1).
    destruct (count self1 mod 100 =? 0).
    - destruct (abortRequested e (count self1)); [cbn [fst snd]; lia|].
      destruct (import_loop e records toks self1) as [[tr r] s'].
      cbn [fst snd] in *. lia.
    - destruct (import_loop e records toks self1) as [[tr r] s'].
      cbn [fst snd] in *. lia. }
  destruct (is_token "X.item" "string" t); [|apply IH].
  destruct (_add_value self _) as [self1|x] eqn:Hadd; [|cbn [fst snd]; lia].
  apply add_value_count in Hadd. rewrite <- Hadd. apply IH.
Qed.

(** The next multiple of 100 after [k] is the first one. *)
Lemma next_poll_least (k c : nat) : c mod 100 = 0 → k < c → next_poll k ≤ c.
Proof.
  intros Hmod Hlt. unfold next_poll.
  pose proof (Nat.div_mod_eq c 100) as Hc. pose proof (Nat.div_mod_eq k 100) as Hk.
  pose proof (Nat.mod_upper_bound k 100). lia.
Qed.

End ImportDriver.

Section ImportSpec.

Implicit Types (e : env) (fs : files) (self : updater).

(** C6, as the code has it: the driver polls the host exactly when the
    number of processed records is a positive multiple of 100. If the host
    answers true at every count past [k], no run processes more than
    [k + 100] records, and a run over a stream that reaches the next
    multiple of 100 after [k] without a decoding error is cancelled: it
    returns [True] after one poll that answered true, closing the file
    once, one [ftUpdateEnd(True)] and the status [ABORTED]. If moreover the
    host answers false up to count [k], that run stops at exactly the next
    multiple of 100 after [k]; and over a stream with fewer records no poll
    sees the cancellation: every record is processed, and a stream that
    ends regularly is finished with [ftUpdateEnd(False)] and status
    [IDLE]. *)
Theorem import_cancellation e fs self (content : string) (k : nat) :
  destfile fs = Some content →
  (∀ n, k < n → abortRequested e n = true) →
  count (Import e fs self).2 ≤ k + 100
  ∧ (∀ n, n ∈ polls (Import e fs self).1.1
          ↔ (0 < n ≤ count (Import e fs self).2 ∧ n mod 100 = 0))
  ∧ (next_poll k ≤ records_in (ijson_parse e content).1 →
     (∀ x, (Import e fs self).1.2 ≠ Raise x) →
     aborted_run (Import e fs self))
  ∧ ((∀ n, n ≤ k → abortRequested e n = false) →
     (∀ x, (Import e fs self).1.2 ≠ Raise x) →
     (next_poll k ≤ records_in (ijson_parse e content).1 →
      aborted_run (Import e fs self)
      ∧ count (Import e fs self).2 = next_poll k)
     ∧ (records_in (ijson_parse e content).1 < next_poll k →
        positive_polls (Import e fs self).1.1 = []
        ∧ count (Import e fs self).2 = records_in (ijson_parse e content).1
        ∧ ((ijson_parse e content).2 = EndOfStream
           → completed_run (Import e fs self)))).
Proof.
  intros Hdest Hcancel.
  destruct (next_poll_spec k) as [HBmod [HBlo HBhi]].
  assert (abortRequested e (next_poll k) = true) as HB by (apply Hcancel; lia).
  unfold Import. rewrite Hdest.
  destruct (ijson_parse e content) as [toks ending]. unfold _update_start.
  destruct (ftUpdateStart e) as [[tot_chn tot_shw] tot_mov].
  set (records := if (tot_mov <? 50000)%Z then 220000%Z else (tot_mov + 10000)%Z).
  pose proof (import_loop_observed e records toks initial_updater) as Hobs.
  pose proof (import_loop_polls e records toks initial_updater) as [_ Hpolls].
  pose proof (import_loop_bound e records toks (next_poll k) HBmod HB initial_updater)
    as [Hle Hex]; [simpl; lia|].
  pose proof (import_loop_return_poll e records toks initial_updater) as Hret.
  pose proof (import_loop_count_le e records toks initial_updater) as Hcnt.
  unfold loop_observed in Hobs.
  destruct (import_loop e records toks initial_updater) as [[tr r] s1].
  simpl in Hobs, Hpolls, Hle, Hex, Hret, Hcnt.
  destruct r as [[|b]|x].
  - destruct Hobs as (Hu & Hs & Hf & Hp & Hc). specialize (Hex eq_refl).
    pose proof (update_end_spec e s1 false "IDLE" (Msg 30958)) as (Hu1 & Hs1 & Hf1 & Hq1 & Hp1).
    pose proof (update_end_spec e s1 true "ABORTED" (MsgFormat 30960
                  match ending with ReadFails c => c | _ => "" end))
      as (Hu2 & Hs2 & Hf2 & Hq2 & Hp2).
    destruct ending as [|cause|]; simpl.
    + split; [lia|]. split.
      { intros n. unfold polls in *. rewrite omap_app. simpl. rewrite omap_app.
        rewrite Hq1. simpl. rewrite app_nil_r. apply Hpolls. }
      split; [intros; lia|].
      intros _ _. split; [intros; lia|]. intros _.
      unfold completed_run, update_ends, statuses, file_closes, positive_polls in *.
      simpl. rewrite !omap_app. simpl. rewrite !omap_app.
      rewrite Hu, Hs, Hf, Hp, Hu1, Hs1, Hf1, Hp1. done.
    + split; [lia|]. split.
      { intros n. unfold polls in *. rewrite omap_app. simpl. rewrite omap_app.
        rewrite Hq2. simpl. rewrite app_nil_r. apply Hpolls. }
      split; [intros; lia|].
      intros _ _. split; [intros; lia|]. intros _.
      unfold positive_polls in *.
      simpl. rewrite !omap_app. rewrite Hp, Hp2. done.
    + split; [lia|]. split; [apply Hpolls|].
      split; [intros _ Hok; by destruct (Hok JSONError)|].
      intros _ Hok. by destruct (Hok JSONError).
  - destruct Hobs as (-> & Hu & Hs & Hf & Hp). simpl.
    destruct (Hret true eq_refl) as (Hseen & Hmod & Hpos).
    assert (Hab : aborted_run
                    (UpdateStatus "UPDATING" :: FtInit :: FtUpdateStart
                       :: ShowUpdateProgress :: tr, Ok true, s1)).
    { unfold aborted_run. simpl.
      unfold update_ends, statuses, file_closes, positive_polls in *.
      simpl. rewrite Hu, Hs, Hf, Hp. done. }
    split; [lia|]. split; [apply Hpolls|]. split; [done|].
    intros Hbefore _.
    assert (count s1 = next_poll k) as Hstop.
    { apply Nat.le_antisymm; [done|]. apply next_poll_least; [done|].
      destruct (decide (k < count s1)) as [|Hnot]; [done|].
      rewrite Hbefore in Hseen by lia. discriminate. }
    split; [done|]. intros Hshort. lia.
  - simpl. split; [lia|]. split; [apply Hpolls|].
    split; [intros _ Hok; by destruct (Hok x)|].
    intros _ Hok. by destruct (Hok x).
Qed.

Lemma import_cancellation_witness :
  count (Import (import_env (empty_records 250) cancel_past_150) unpacked initial_updater).2
  ≤ 150 + 100
  ∧ aborted_run (Import (import_env (empty_records 250) cancel_past_150)
                   unpacked initial_updater)
  ∧ count (Import (import_env (empty_records 250) cancel_past_150)
             unpacked initial_updater).2 = next_poll 150.
Proof.
  destruct (import_cancellation (import_env (empty_records 250) cancel_past_150)
              unpacked initial_updater "catalog" 150 eq_refl)
    as (Hbound & _ & _ & Hexact).
  { intros n Hn. apply Nat.ltb_lt. exact Hn. }
  split; [exact Hbound|].
  apply Hexact.
  - intros n Hn. apply Nat.ltb_ge. exact Hn.
  - intros x. vm_compute. discriminate.
  - vm_compute. lia.
Defined.

(** With 250 records in the stream and cancellation from record 150 on, the
    run stops at the poll after record 200. *)
Example import_cancelled_at_200 :
  aborted_run (Import (import_env (empty_records 250) cancel_after_150)
                 unpacked initial_updater)
  ∧ count (Import (import_env (empty_records 250) cancel_after_150)
             unpacked initial_updater).2 = 200
  ∧ polls (Import (import_env (empty_records 250) cancel_after_150)
             unpacked initial_updater).1.1 = [100; 200].
Proof. unfold aborted_run. split_and!; vm_compute; reflexivity. Qed.

(** C6 as stated fails: with cancellation from record 150 on and a stream
    of 170 records, the only poll is the one after record 100; the run ends
    with [ftUpdateEnd(False)] and status [IDLE]. *)
Lemma cancellation_unseen_on_short_stream :
  (∀ n, 150 ≤ n → abortRequested (import_env (empty_records 170) cancel_after_150) n = true)
  ∧ count (Import (import_env (empty_records 170) cancel_after_150)
             unpacked initial_updater).2 = 170
  ∧ polls (Import (import_env (empty_records 170) cancel_after_150)
             unpacked initial_updater).1.1 = [100]
  ∧ update_ends (Import (import_env (empty_records 170) cancel_after_150)
                   unpacked initial_updater).1.1 = [false]
  ∧ statuses (Import (import_env (empty_records 170) cancel_after_150)
                unpacked initial_updater).1.1 = ["UPDATING"; "IDLE"]
  ∧ ¬ aborted_run (Import (import_env (empty_records 170) cancel_after_150)
                     unpacked initial_updater).
Proof.
  split; [intros n Hn; by apply Nat.leb_le|].
  split_and!; [vm_compute; reflexivity..|].
  intros (_ & Hu & _). vm_compute in Hu. discriminate.
Qed.

End ImportSpec.

(** ** classes/updater.py: mirror resolution *)

Section Mirrors.

Implicit Types (x y z : option string * option string)
  (l : list (option string * option string)) (servers : list server).

Lemma string_compare_trans (a b c : string) :
  (a ?= b)%string ≠ Gt → (b ?= c)%string ≠ Gt → (a ?= c)%string ≠ Gt.
Proof.
  revert b c. induction a as [|ca a IH]; intros [|cb b] [|cc c]; simpl; try congruence.
  unfold Ascii.compare.
  destruct (N.compare_spec (N_of_ascii ca) (N_of_ascii cb)),
           (N.compare_spec (N_of_ascii cb) (N_of_ascii cc)),
           (N.compare_spec (N_of_ascii ca) (N_of_ascii cc));
    try congruence; try lia; eauto.
Qed.

Lemma string_leb_trans (a b c : string) :
  String.leb a b = true → String.leb b c = true → String.leb a c = true.
Proof.
  unfold String.leb. intros Hab Hbc.
  pose proof (string_compare_trans a b c) as H.
  destruct (a ?= b)%string, (b ?= c)%string, (a ?= c)%string;
    try done; exfalso; by apply H.
Qed.

Lemma string_leb_refl (a : string) : String.leb a a = true.
Proof. by destruct (String.leb_total a a). Qed.

Lemma prio_leb_refl (k : option string) : prio_leb k k = true.
Proof. destruct k; simpl; [apply string_leb_refl|done]. Qed.

Lemma prio_leb_total (j k : option string) : prio_leb j k = true ∨ prio_leb k j = true.
Proof. destruct j, k; simpl; auto. apply String.leb_total. Qed.

Lemma prio_leb_trans (i j k : option string) :
  prio_leb i j = true → prio_leb j k = true → prio_leb i k = true.
Proof. destruct i, j, k; simpl; try done. apply string_leb_trans. Qed.

Lemma insert_by_prio_perm x l : insert_by_prio x l ≡ₚ x :: l.
Proof.
  induction l as [|y l IH]; simpl; [done|].
  destruct (prio_leb x.2 y.2); [done|]. rewrite IH. apply Permutation_swap.
Qed.

Lemma insert_by_prio_sorted x l :
  StronglySorted by_prio l → StronglySorted by_prio (insert_by_prio x l).
Proof.
  induction 1 as [|y l Hl IH Hy]; simpl.
  - repeat constructor.
  - destruct (prio_leb x.2 y.2) eqn:Hxy.
    + constructor; [by constructor|]. constructor; [done|].
      eapply Forall_impl; [exact Hy|]. intros z Hz. by eapply prio_leb_trans.
    + constructor; [done|].
      rewrite (insert_by_prio_perm x l). constructor; [|done].
      destruct (prio_leb_total x.2 y.2); [congruence|done].
Qed.

Lemma insert_by_prio_stable x l (k : option string) :
  filter (fun y => y.2 = k) (insert_by_prio x l) = filter (fun y => y.2 = k) (x :: l).
Proof.
  induction l as [|y l IH]; simpl; [done|].
  destruct (prio_leb x.2 y.2) eqn:Hxy; [done|].
  assert (x.2 ≠ y.2) as Hne by (intros E; rewrite E, prio_leb_refl in Hxy; done).
  rewrite !filter_cons in *. rewrite IH.
  destruct (decide (x.2 = k)), (decide (y.2 = k)); try done; congruence.
Qed.

Lemma sorted_by_prio_perm l : sorted_by_prio l ≡ₚ l.
Proof.
  induction l as [|x l IH]; simpl; [done|].
  by rewrite insert_by_prio_perm, IH.
Qed.

Lemma sorted_by_prio_sorted l : StronglySorted by_prio (sorted_by_prio l).
Proof.
  induction l as [|x l IH]; simpl; [constructor|]. by apply insert_by_prio_sorted.
Qed.

Lemma sorted_by_prio_stable l (k : option string) :
  filter (fun y => y.2 = k) (sorted_by_prio l) = filter (fun y => y.2 = k) l.
Proof.
  induction l as [|x l IH]; simpl; [done|].
  rewrite insert_by_prio_stable, !filter_cons, IH. done.
Qed.

Lemma mirror_of_None (s : server) :
  mirror_of s = None ↔ srv_URL s = None ∨ srv_Prio s = None.
Proof.
  unfold mirror_of. destruct (srv_URL s), (srv_Prio s); simpl; intuition congruence.
Qed.

Lemma mirror_of_Some (s : server) (url prio : option string) :
  mirror_of s = Some (url, prio) ↔ srv_URL s = Some url ∧ srv_Prio s = Some prio.
Proof.
  unfold mirror_of. destruct (srv_URL s), (srv_Prio s); simpl; intuition congruence.
Qed.

(** C4, as the code has it: the mirror list holds the URLs of the entries
    that have both a [URL] and a [Prio] child, ordered ascending by the
    [Prio] text compared as a string (an entry without text first), entries
    with equal text in document order; entries that lack one of the two
    children are skipped. *)
Theorem mirror_urls_sorted_by_prio_text servers :
  ∃ sorted,
    mirror_urls servers = map fst sorted
    ∧ sorted ≡ₚ omap mirror_of servers
    ∧ StronglySorted by_prio sorted
    ∧ (∀ k : option string,
          filter (fun y => y.2 = k) sorted
          = filter (fun y => y.2 = k) (omap mirror_of servers))
    ∧ (∀ url prio,
          (url, prio) ∈ omap mirror_of servers
          ↔ ∃ s, s ∈ servers ∧ srv_URL s = Some url ∧ srv_Prio s = Some prio).
Proof.
  exists (sorted_by_prio (omap mirror_of servers)).
  split; [reflexivity|].
  split; [apply sorted_by_prio_perm|].
  split; [apply sorted_by_prio_sorted|].
  split; [intros k; apply sorted_by_prio_stable|].
  intros url prio. rewrite list_elem_of_omap.
  split; intros (s & Hs & Hm); exists s; (split; [done|]); by apply mirror_of_Some.
Qed.

Example mirror_urls_stable :
  mirror_urls [mirror "http://a.example/" "2"; mirror "http://b.example/" "1";
               Server None (Some (Some "0")); Server (Some (Some "http://c.example/")) None;
               mirror "http://d.example/" "2"]
  = [Some "http://b.example/"; Some "http://a.example/"; Some "http://d.example/"].
Proof. reflexivity. Qed.

(** C4 as stated fails: the priorities are compared as text, so the mirror
    with [Prio] 10 comes before the one with [Prio] 2. *)
Lemma prio_10_sorts_before_prio_2 :
  mirror_urls prio_2_then_10 = [Some "http://b.example/"; Some "http://a.example/"]
  ∧ int "2" = Ok 2%Z ∧ int "10" = Ok 10%Z ∧ (2 < 10)%Z.
Proof. split; [reflexivity|]. split; [reflexivity|]. split; [reflexivity|lia]. Qed.

End Mirrors.

(** ** classes/updater.py: snapshot download *)

Section Download.

Variable e : env.

Implicit Types (fs : files) (urls : list (option string)) (servers : list server).

Lemma download_loop_cons (url : option string) urls fs (lasturl err : option string) :
  download_loop e (url :: urls) fs lasturl err
  = match urlretrieve e url with
    | Retrieved payload =>
        Download [UpdateDownloadProgress 0 url; UrlRetrieve url (compfile fs)] true
          (Files (Some payload) (destfile fs)) url err
    | RetrieveFails cause written =>
        let fs' := match written with
                   | Some p => Files (Some p) (destfile fs)
                   | None => fs
                   end in
        let d := download_loop e urls fs' url (Some cause) in
        Download ([UpdateDownloadProgress 0 url; UrlRetrieve url (compfile fs)] ++ dl_trace d)
          (dl_result d) (dl_files d) (dl_lasturl d) (dl_err d)
    end.
Proof. reflexivity. Qed.

(** The loop touches neither storage nor the decompressor, removes
    nothing, and leaves the unpacked catalog alone. *)
Lemma download_loop_quiet urls :
  ∀ fs (lasturl err : option string),
    removals (dl_trace (download_loop e urls fs lasturl err)) = []
    ∧ decompressed (dl_trace (download_loop e urls fs lasturl err)) = []
    ∧ download_errors (dl_trace (download_loop e urls fs lasturl err)) = []
    ∧ update_starts (dl_trace (download_loop e urls fs lasturl err)) = []
    ∧ statuses (dl_trace (download_loop e urls fs lasturl err)) = []
    ∧ destfile (dl_files (download_loop e urls fs lasturl err)) = destfile fs.
Proof.
  induction urls as [|url urls IH]; intros fs lasturl err; [done|].
  rewrite download_loop_cons.
  destruct (urlretrieve e url) as [payload|cause written]; [done|].
  cbv zeta. simpl.
  destruct written as [p|];
    [exact (IH (Files (Some p) (destfile fs)) url (Some cause))|apply IH].
Qed.


(** Mirrors are tried in list order, up to the first that delivers. *)
Lemma download_loop_order urls :
  ∀ fs (lasturl err : option string),
    (dl_result (download_loop e urls fs lasturl err) = false
     ∧ Forall (fails e) urls
     ∧ map fst (attempts (dl_trace (download_loop e urls fs lasturl err))) = urls
     ∧ match last urls with
       | None => dl_lasturl (download_loop e urls fs lasturl err) = lasturl
                 ∧ dl_err (download_loop e urls fs lasturl err) = err
       | Some u => dl_lasturl (download_loop e urls fs lasturl err) = u
                   ∧ ∃ cause written,
                       urlretrieve e u = RetrieveFails cause written
                       ∧ dl_err (download_loop e urls fs lasturl err) = Some cause
       end)
    ∨ (dl_result (download_loop e urls fs lasturl err) = true
       ∧ ∃ pre u payload post,
           urls = pre ++ u :: post
           ∧ Forall (fails e) pre
           ∧ urlretrieve e u = Retrieved payload
           ∧ map fst (attempts (dl_trace (download_loop e urls fs lasturl err))) = pre ++ [u]
           ∧ compfile (dl_files (download_loop e urls fs lasturl err)) = Some payload).
Proof.
  induction urls as [|url urls IH]; intros fs lasturl err.
  - left. simpl. by repeat split.
  - rewrite download_loop_cons.
    destruct (urlretrieve e url) as [payload|cause written] eqn:Hnet.
    + right. split; [done|]. exists [], url, payload, urls. by repeat split.
    + cbv zeta.
      set (fs' := match written with Some p => Files (Some p) (destfile fs) | None => fs end).
      destruct (IH fs' url (Some cause)) as [(Hr & Hall & Hatt & Hlast)|(Hr & Hok)].
      * left. simpl. split; [done|]. split; [constructor; [by eexists _, _|done]|].
        split; [by rewrite Hatt|].
        rewrite last_cons. destruct (last urls) as [u|]; [done|].
        destruct Hlast as [-> ->]. split; [done|]. by eexists _, _.
      * right. simpl. split; [done|].
        destruct Hok as (pre & u & payload & post & -> & Hpre & Hu & Hatt & Hfile).
        exists (url :: pre), u, payload, post.
        split; [done|]. split; [constructor; [by eexists _, _|done]|].
        split; [done|]. split; [by rewrite Hatt|done].
Qed.

End Download.

Lemma omap_cons_eq {A B : Type} (f : A → option B) (x : A) (l : list A) :
  omap f (x :: l) = match f x with Some y => y :: omap f l | None => omap f l end.
Proof. reflexivity. Qed.

Lemma omap_nil_eq {A B : Type} (f : A → option B) : omap f [] = [].
Proof. reflexivity. Qed.

(** Pushes an observation through the concrete events of a trace. *)
Ltac observe :=
  repeat (rewrite ?omap_app, ?omap_cons_eq, ?omap_nil_eq; cbv beta iota).

Section NewestList.

Implicit Types (e : env) (fs : files) (servers : list server).

(** [_cleanup_downloads] hands each file that exists to [os.remove], once;
    a file is gone afterwards if it was absent or its removal succeeded,
    and is left as it was if the removal failed. *)
Lemma cleanup_downloads_spec e fs :
  (_cleanup_downloads e fs).2
  = Files (if os_remove e "Filmliste-akt.xz" then None else compfile fs)
      (if os_remove e "Filmliste-akt" then None else destfile fs)
  ∧ removals (_cleanup_downloads e fs).1 = stale_names fs
  ∧ attempts (_cleanup_downloads e fs).1 = []
  ∧ decompressed (_cleanup_downloads e fs).1 = []
  ∧ download_errors (_cleanup_downloads e fs).1 = []
  ∧ update_starts (_cleanup_downloads e fs).1 = []
  ∧ statuses (_cleanup_downloads e fs).1 = [].
Proof.
  unfold _cleanup_downloads, remove_file, stale_names.
  by destruct (compfile fs), (destfile fs),
       (os_remove e "Filmliste-akt.xz"), (os_remove e "Filmliste-akt").
Qed.

(** [GetNewestList] once the manifest has been fetched. *)
Lemma GetNewestList_fetched e fs (xzbin : string) servers :
  find_xz e = Some xzbin → manifest e = Fetched servers →
  GetNewestList e fs
  = let d := download_loop e (mirror_urls servers) (_cleanup_downloads e fs).2
               (Some "") None in
    let tr := UrlOpen FILMLISTE_URL
                :: (_cleanup_downloads e fs).1 ++ ShowDownloadProgress :: dl_trace d in
    if dl_result d then
      (tr ++ [Xz (compfile (dl_files d)); CloseDownloadProgress],
       Ok (((xz e (compfile (dl_files d))).1 =? 0)%Z
           && bool_decide (is_Some (xz e (compfile (dl_files d))).2)),
       Files (if ((xz e (compfile (dl_files d))).1 =? 0)%Z then None
              else compfile (dl_files d))
         (xz e (compfile (dl_files d))).2)
    else
      match dl_err d with
      | Some cause =>
          (tr ++ [CloseDownloadProgress; ShowDowloadError (dl_lasturl d) cause],
           Ok false, dl_files d)
      | None => (tr ++ [CloseDownloadProgress], Raise UnboundLocalError, dl_files d)
      end.
Proof.
  intros Hxz Hman. unfold GetNewestList. rewrite Hxz, Hman.
  destruct (_cleanup_downloads e fs) as [ev1 fs1]. cbv zeta. cbn [fst snd].
  destruct (dl_result _); [|done].
  by destruct (xz e _).
Qed.



(** A data directory whose old files cannot be removed: both removals are
    tried once, the first attempt already finds the old download at the
    destination path, and the old catalog is still there when [xz] runs. *)
Example stale_files_survive_failed_cleanup :
  removals (GetNewestList locked_env stale).1.1 = ["Filmliste-akt.xz"; "Filmliste-akt"]
  ∧ attempts (GetNewestList locked_env stale).1.1
    = [(Some "http://m1.example/", Some "old-xz");
       (Some "http://m2.example/", Some "xz-part");
       (Some "http://m3.example/", Some "xz-part")]
  ∧ (_cleanup_downloads locked_env stale).2 = stale
  ∧ (GetNewestList locked_env stale).1.2 = Ok false.
Proof. split_and!; vm_compute; reflexivity. Qed.

(** Three mirrors of which only the third delivers: three attempts in
    priority order, and overall success. *)
Example mirror_failover :
  map fst (attempts (GetNewestList failover_env stale).1.1)
  = [Some "http://m1.example/"; Some "http://m2.example/"; Some "http://m3.example/"]
  ∧ (GetNewestList failover_env stale).1.2 = Ok true
  ∧ decompressed (GetNewestList failover_env stale).1.1 = [Some "xz-full"].
Proof. split_and!; vm_compute; reflexivity. Qed.


(** *** Failure paths *)

Lemma GetNewestList_manifest_failure e fs (xzbin cause : string) :
  find_xz e = Some xzbin → manifest e = FetchFails cause →
  GetNewestList e fs = ([UrlOpen FILMLISTE_URL], Raise NameError, fs).
Proof. intros Hxz Hman. unfold GetNewestList. by rewrite Hxz, Hman. Qed.

Lemma GetNewestList_no_mirrors e fs (xzbin : string) servers :
  find_xz e = Some xzbin → manifest e = Fetched servers → mirror_urls servers = [] →
  (GetNewestList e fs).1.2 = Raise UnboundLocalError
  ∧ download_errors (GetNewestList e fs).1.1 = [].
Proof.
  intros Hxz Hman Hurls. rewrite (GetNewestList_fetched e fs xzbin servers Hxz Hman).
  rewrite Hurls. cbv zeta.
  cbn [download_loop dl_result dl_err dl_trace dl_files dl_lasturl fst snd].
  split; [done|].
  destruct (cleanup_downloads_spec e fs) as (_ & _ & _ & _ & Herr & _).
  unfold download_errors in *. observe. rewrite Herr. done.
Qed.

(** With a non-empty mirror list of which no mirror delivers, the error is
    shown with the last URL tried and its cause, and the call returns
    [False]. *)
Lemma GetNewestList_all_mirrors_fail e fs (xzbin : string) servers (u : option string) :
  find_xz e = Some xzbin → manifest e = Fetched servers →
  last (mirror_urls servers) = Some u → Forall (fails e) (mirror_urls servers) →
  ∃ cause written,
    urlretrieve e u = RetrieveFails cause written
    ∧ (GetNewestList e fs).1.2 = Ok false
    ∧ download_errors (GetNewestList e fs).1.1 = [(u, cause)].
Proof.
  intros Hxz Hman Hlast Hall. rewrite (GetNewestList_fetched e fs xzbin servers Hxz Hman).
  cbv zeta.
  destruct (cleanup_downloads_spec e fs) as (_ & _ & _ & _ & Herr & _).
  destruct (download_loop_quiet e (mirror_urls servers) (_cleanup_downloads e fs).2
              (Some "") None) as (_ & _ & Herr' & _).
  destruct (download_loop_order e (mirror_urls servers) (_cleanup_downloads e fs).2
              (Some "") None)
    as [(Hr & _ & _ & Hl)|(Hr & pre & u' & payload & post & Hurls & _ & Hu' & _)].
  - rewrite Hlast in Hl. destruct Hl as (Hlu & cause & written & Hnet & Hcause).
    exists cause, written. rewrite Hr, Hcause, Hlu. cbn [fst snd].
    split; [done|]. split; [done|].
    unfold download_errors in *. observe. rewrite Herr, Herr'. done.
  - rewrite Hurls in Hall. apply Forall_app in Hall as [_ Hall].
    apply Forall_cons in Hall as [(c & w & Hc) _]. congruence.
Qed.

(** [GetNewestList] itself never calls into storage. *)
Lemma GetNewestList_storage_untouched e fs :
  update_starts (GetNewestList e fs).1.1 = [] ∧ statuses (GetNewestList e fs).1.1 = [].
Proof.
  unfold GetNewestList. destruct (find_xz e) as [xzbin|]; [|done].
  destruct (manifest e) as [servers|cause]; [|done].
  destruct (cleanup_downloads_spec e fs) as (_ & _ & _ & _ & _ & Hup & Hst).
  destruct (download_loop_quiet e (mirror_urls servers) (_cleanup_downloads e fs).2
              (Some "") None) as (_ & _ & _ & Hup' & Hst' & _).
  destruct (_cleanup_downloads e fs) as [ev1 fs1] eqn:Hclean.
  cbn [fst snd] in Hup, Hst, Hup', Hst'. cbv zeta.
  destruct (dl_result _).
  - destruct (xz e _) as [retval out]. cbn [fst snd].
    unfold update_starts, statuses in *. observe. by rewrite Hup, Hst, Hup', Hst'.
  - destruct (dl_err _); cbn [fst snd];
      unfold update_starts, statuses in *; observe; by rewrite Hup, Hst, Hup', Hst'.
Qed.

(** Unless [GetNewestList] returns [True], [Update] begins no update
    transaction and persists no status. *)
Lemma Update_without_snapshot e fs (self : updater) :
  (GetNewestList e fs).1.2 ≠ Ok true →
  update_starts (Update e fs self).1.1.1 = [] ∧ statuses (Update e fs self).1.1.1 = [].
Proof.
  intros Hfail. unfold Update.
  destruct (GetNewestList_storage_untouched e fs) as [Hup Hst].
  destruct (GetNewestList e fs) as [[tr r] fs1]. cbn [fst snd] in *.
  destruct r as [[|]|x]; [done| |]; cbn [fst snd];
    unfold update_starts, statuses in *; observe; by rewrite Hup, Hst.
Qed.

Lemma Update_raises e fs (self : updater) (x : exn) :
  (GetNewestList e fs).1.2 = Raise x →
  (Update e fs self).1.1.2 = Raise x
  ∧ (Update e fs self).1.1.1 = SqlInit :: (GetNewestList e fs).1.1.
Proof.
  unfold Update. destruct (GetNewestList e fs) as [[tr r] fs1]. cbn [fst snd].
  by intros ->.
Qed.

(** C7, the code at its failing inputs: when the manifest cannot be
    fetched, matching the exception against the unbound name [URLError]
    raises [NameError]; when the mirror list is empty, reading the unbound
    local [err] raises [UnboundLocalError]. In both runs no download error
    is shown and neither [GetNewestList] nor [Update] returns. *)
Theorem download_failures_escape_as_exceptions e fs (self : updater) (xzbin : string) :
  find_xz e = Some xzbin →
  (∀ cause, manifest e = FetchFails cause →
      GetNewestList e fs = ([UrlOpen FILMLISTE_URL], Raise NameError, fs)
      ∧ (Update e fs self).1.1.2 = Raise NameError
      ∧ download_errors (Update e fs self).1.1.1 = [])
  ∧ (∀ servers, manifest e = Fetched servers → mirror_urls servers = [] →
      (GetNewestList e fs).1.2 = Raise UnboundLocalError
      ∧ (Update e fs self).1.1.2 = Raise UnboundLocalError
      ∧ download_errors (Update e fs self).1.1.1 = []).
Proof.
  intros Hxz. split.
  - intros cause Hman.
    pose proof (GetNewestList_manifest_failure e fs xzbin cause Hxz Hman) as Hgnl.
    destruct (Update_raises e fs self NameError) as [Hr Htr]; [by rewrite Hgnl|].
    split; [done|]. split; [done|]. rewrite Htr, Hgnl. reflexivity.
  - intros servers Hman Hurls.
    destruct (GetNewestList_no_mirrors e fs xzbin servers Hxz Hman Hurls) as [Hgnl Herr].
    destruct (Update_raises e fs self UnboundLocalError Hgnl) as [Hr Htr].
    split; [done|]. split; [done|]. rewrite Htr.
    unfold download_errors in *. observe. exact Herr.
Qed.

Lemma download_failures_escape_as_exceptions_witness :
  (GetNewestList manifest_down_env stale = ([UrlOpen FILMLISTE_URL], Raise NameError, stale)
   ∧ (Update manifest_down_env stale initial_updater).1.1.2 = Raise NameError
   ∧ download_errors (Update manifest_down_env stale initial_updater).1.1.1 = [])
  ∧ ((GetNewestList no_mirror_env stale).1.2 = Raise UnboundLocalError
     ∧ (Update no_mirror_env stale initial_updater).1.1.2 = Raise UnboundLocalError
     ∧ download_errors (Update no_mirror_env stale initial_updater).1.1.1 = []).
Proof.
  split.
  - apply (proj1 (download_failures_escape_as_exceptions manifest_down_env stale
                    initial_updater "/usr/bin/xz" eq_refl) "timed out").
    reflexivity.
  - apply (proj2 (download_failures_escape_as_exceptions no_mirror_env stale
                    initial_updater "/usr/bin/xz" eq_refl) []); reflexivity.
Defined.

(** The part of C7 that the code delivers: every mirror of a non-empty
    list fails. *)
Example all_mirrors_down :
  (GetNewestList all_down_env stale).1.2 = Ok false
  ∧ download_errors (GetNewestList all_down_env stale).1.1
    = [(Some "http://m3.example/", "unreachable")]
  ∧ update_starts (Update all_down_env stale initial_updater).1.1.1 = []
  ∧ statuses (Update all_down_env stale initial_updater).1.1.1 = [].
Proof. split_and!; vm_compute; reflexivity. Qed.

End NewestList.

(** ** resources/lib/mvutils.py: the string helpers *)

Section Sanitizers.

Import MvUtils.

Implicit Types (s : string) (p q : ascii → bool).

Lemma all_chars_filter p s : all_chars p (str_filter p s) = true.
Proof.
  induction s as [|c s IH]; simpl; [done|].
  destruct (p c) eqn:Hc; simpl; [by rewrite Hc|done].
Qed.

Lemma str_filter_id p s : all_chars p s = true → str_filter p s = s.
Proof.
  induction s as [|c s IH]; simpl; [done|].
  intros [Hc Hs]%andb_true_iff. by rewrite Hc, IH.
Qed.

Lemma all_chars_map p q (f : ascii → ascii) s :
  (∀ c, p c = true → q (f c) = true) →
  all_chars p s = true → all_chars q (str_map f s) = true.
Proof.
  intros Hf. induction s as [|c s IH]; simpl; [done|].
  intros [Hc Hs]%andb_true_iff. by rewrite (Hf c Hc), IH.
Qed.

Lemma str_map_id (f : ascii → ascii) p s :
  (∀ c, p c = true → f c = c) → all_chars p s = true → str_map f s = s.
Proof.
  intros Hf. induction s as [|c s IH]; simpl; [done|].
  intros [Hc Hs]%andb_true_iff. by rewrite (Hf c Hc), IH.
Qed.

Lemma all_chars_impl p q s :
  (∀ c, p c = true → q c = true) → all_chars p s = true → all_chars q s = true.
Proof.
  intros Hpq. induction s as [|c s IH]; simpl; [done|].
  intros [Hc Hs]%andb_true_iff. by rewrite (Hpq c Hc), IH.
Qed.

Lemma all_chars_lstrip p s : all_chars p s = true → all_chars p (lstrip s) = true.
Proof.
  induction s as [|c s IH]; simpl; [done|].
  intros H. destruct (is_space c); [|done].
  apply andb_true_iff in H as [_ Hs]. by apply IH.
Qed.

Lemma all_chars_rstrip p s : all_chars p s = true → all_chars p (rstrip s) = true.
Proof.
  induction s as [|c s IH]; simpl; [done|].
  intros [Hc Hs]%andb_true_iff. specialize (IH Hs).
  destruct (rstrip s) as [|a r]; [destruct (is_space c); simpl; by rewrite ?Hc|].
  simpl in *. by rewrite Hc, IH.
Qed.

Lemma str_filter_length p s : String.length (str_filter p s) ≤ String.length s.
Proof. induction s as [|c s IH]; simpl; [done|]. destruct (p c); simpl; lia. Qed.

Lemma str_map_length (f : ascii → ascii) s : String.length (str_map f s) = String.length s.
Proof. induction s as [|c s IH]; simpl; by rewrite ?IH. Qed.

Lemma lstrip_length s : String.length (lstrip s) ≤ String.length s.
Proof. induction s as [|c s IH]; simpl; [done|]. destruct (is_space c); simpl; lia. Qed.

Lemma rstrip_length s : String.length (rstrip s) ≤ String.length s.
Proof.
  induction s as [|c s IH]; simpl; [done|].
  destruct (rstrip s) as [|a r]; [destruct (is_space c); simpl; lia|simpl in *; lia].
Qed.

Lemma strip_length s : String.length (strip s) ≤ String.length s.
Proof.
  unfold strip. pose proof (rstrip_length (lstrip s)). pose proof (lstrip_length s). lia.
Qed.

Lemma lstrip_starts_clean s : starts_clean (lstrip s).
Proof.
  induction s as [|c s IH]; simpl; [done|]. by destruct (is_space c) eqn:Hc.
Qed.

Lemma starts_clean_lstrip s : starts_clean s → lstrip s = s.
Proof. destruct s as [|c s]; simpl; [done|]. by intros ->. Qed.

Lemma rstrip_starts_clean s : starts_clean s → starts_clean (rstrip s).
Proof.
  destruct s as [|c s]; simpl; [done|]. intros Hc.
  destruct (rstrip s); [by rewrite Hc|done].
Qed.

Lemma rstrip_idempotent s : rstrip (rstrip s) = rstrip s.
Proof.
  induction s as [|c s IH]; simpl; [done|].
  destruct (rstrip s) as [|a r] eqn:E.
  - destruct (is_space c) eqn:Hc; simpl; [done|]. by rewrite Hc.
  - change (rstrip (String c (String a r))) with
      (match rstrip (String a r) with
       | EmptyString => if is_space c then EmptyString else String c EmptyString
       | r' => String c r'
       end).
    by rewrite IH.
Qed.

(** [strip] leaves nothing for a second [strip] to remove. *)
Lemma strip_clean s : lstrip (strip s) = strip s ∧ rstrip (strip s) = strip s.
Proof.
  unfold strip. split; [|apply rstrip_idempotent].
  apply starts_clean_lstrip, rstrip_starts_clean, lstrip_starts_clean.
Qed.

Lemma strip_idempotent s : strip (strip s) = strip s.
Proof.
  destruct (strip_clean s) as [Hl Hr]. unfold strip at 1. by rewrite Hl, Hr.
Qed.

Lemma search_cset_upper (c : ascii) :
  contains c search_cset = true → contains (upper_char c) search_alphabet = true.
Proof.
  destruct c as [[] [] [] [] [] [] [] []]; vm_compute; intros H; done.
Qed.

Lemma search_alphabet_fixed (c : ascii) :
  contains c search_alphabet = true →
  contains c search_cset = true ∧ upper_char c = c.
Proof.
  destruct c as [[] [] [] [] [] [] [] []]; vm_compute; intros H; done.
Qed.

(** X1: the result of [make_search_string] consists of upper-case ASCII
    letters, digits and the characters space, [_], [-] and [#], has no
    whitespace at either end, is no longer than the input, and is a fixed
    point: normalising it again changes nothing. *)
Theorem make_search_string_normal_form (val : string) :
  all_chars (fun c => contains c search_alphabet) (make_search_string val) = true
  ∧ lstrip (make_search_string val) = make_search_string val
  ∧ rstrip (make_search_string val) = make_search_string val
  ∧ String.length (make_search_string val) ≤ String.length val
  ∧ make_search_string (make_search_string val) = make_search_string val.
Proof.
  assert (Halpha : all_chars (fun c => contains c search_alphabet)
                     (make_search_string val) = true).
  { unfold make_search_string, strip, upper.
    apply all_chars_rstrip, all_chars_lstrip.
    eapply all_chars_map; [apply search_cset_upper|apply all_chars_filter]. }
  destruct (strip_clean (upper (str_filter (fun c => contains c search_cset) val)))
    as [Hl Hr].
  split_and!; [done|exact Hl|exact Hr| |].
  - unfold make_search_string, upper.
    pose proof (strip_length
                  (str_map upper_char (str_filter (fun c => contains c search_cset) val))).
    pose proof (str_map_length upper_char (str_filter (fun c => contains c search_cset) val)).
    pose proof (str_filter_length (fun c => contains c search_cset) val). lia.
  - set (r := make_search_string val) in *.
    unfold make_search_string at 1. cbv zeta.
    rewrite str_filter_id
      by (eapply all_chars_impl; [|exact Halpha]; intros c Hc;
          by apply search_alphabet_fixed).
    unfold upper.
    rewrite (str_map_id upper_char (fun c => contains c search_alphabet))
      by (done || (intros c Hc; by apply search_alphabet_fixed)).
    unfold r, make_search_string. apply strip_idempotent.
Qed.

Example make_search_string_example :
  make_search_string "  Tatort: Der #1-Fall (2/3)! " = "TATORT DER #1-FALL 23".
Proof. reflexivity. Qed.

(** X2: the result of [cleanup_filename] consists of characters of its
    character set only, has no whitespace at either end, is no longer than
    the input, and is a fixed point of [cleanup_filename]. *)
Theorem cleanup_filename_normal_form (val : string) :
  all_chars (fun c => contains c filename_cset) (cleanup_filename val) = true
  ∧ lstrip (cleanup_filename val) = cleanup_filename val
  ∧ rstrip (cleanup_filename val) = cleanup_filename val
  ∧ String.length (cleanup_filename val) ≤ String.length val
  ∧ cleanup_filename (cleanup_filename val) = cleanup_filename val.
Proof.
  assert (Hset : all_chars (fun c => contains c filename_cset) (cleanup_filename val) = true).
  { unfold cleanup_filename, strip.
    apply all_chars_rstrip, all_chars_lstrip, all_chars_filter. }
  destruct (strip_clean (str_filter (fun c => contains c filename_cset) val)) as [Hl Hr].
  split_and!; [done|exact Hl|exact Hr| |].
  - unfold cleanup_filename.
    pose proof (strip_length (str_filter (fun c => contains c filename_cset) val)).
    pose proof (str_filter_length (fun c => contains c filename_cset) val). lia.
  - set (r := cleanup_filename val) in *.
    unfold cleanup_filename at 1. cbv zeta. rewrite (str_filter_id _ _ Hset).
    unfold r, cleanup_filename. apply strip_idempotent.
Qed.

Example cleanup_filename_example :
  cleanup_filename " Tatort: Der #1-Fall? " = "Tatort Der #1-Fall".
Proof. reflexivity. Qed.

End Sanitizers.

(** ** resources/lib/mvutils.py: what the copier transfers *)

Section CopierData.

Import MvUtils.

Lemma writes_written (tr : list event) : writes tr = length (written tr).
Proof.
  induction tr as [|ev tr IH]; [done|]. unfold written in *.
  destruct ev; simpl; by rewrite ?IH.
Qed.




(** X4: a [Content-Length] header that is not empty and that [int] does not
    accept makes the copier raise [ValueError] before it polls, reports,
    reads or writes anything; an empty header counts as no header. *)
Theorem copier_rejects_bad_content_length (src : source) (chunk_size : Z)
    (aborthook : option (nat → bool)) (header : string) :
  content_length src = Some header →
  (header ≠ "" → int header = Raise ValueError →
   _chunked_url_copier src chunk_size aborthook = ([], Raise ValueError))
  ∧ (header = "" → total_size_of src = Ok 0%Z).
Proof.
  intros Hlen. unfold _chunked_url_copier, total_size_of. rewrite Hlen. split.
  - intros Hne Hint. destruct (String.eqb_spec header "") as [->|_]; [done|].
    assert (int (strip header) = int header) as ->; [|by rewrite Hint].
    unfold int. by rewrite strip_idempotent.
  - by intros ->.
Qed.

Lemma copier_rejects_bad_content_length_witness :
  _chunked_url_copier bad_length 8192 None = ([], Raise ValueError).
Proof.
  apply (proj1 (copier_rejects_bad_content_length bad_length 8192 None "many" eq_refl)).
  - discriminate.
  - reflexivity.
Defined.

(** X5: once [urlopen] has answered, [url_retrieve] closes the network
    object exactly once and as its last call, whether the destination cannot
    be opened, the copier returns, or the copier raises (cancellation
    included); a destination that was opened is closed just before, after
    the last call of the copier, and the outcome is the copier's. *)
Theorem url_retrieve_closes_handles (urlopen : string → option source)
    (writable : string → bool) (url filename : string) (chunk_size : Z)
    (aborthook : option (nat → bool)) (src : source) :
  urlopen url = Some src →
  ∃ body,
    (url_retrieve urlopen writable url filename chunk_size aborthook).1
    = UrlOpen url :: FileOpen filename :: body ++ [SrcClose]
    ∧ (SrcClose ∉ body)
    ∧ (writable filename = true →
       body = map Copier (_chunked_url_copier src chunk_size aborthook).1 ++ [DstClose]
       ∧ (url_retrieve urlopen writable url filename chunk_size aborthook).2
         = (_chunked_url_copier src chunk_size aborthook).2)
    ∧ (writable filename = false →
       body = []
       ∧ (url_retrieve urlopen writable url filename chunk_size aborthook).2
         = Raise (IOError "open")).
Proof.
  intros Hopen. unfold url_retrieve. rewrite Hopen.
  destruct (writable filename).
  - destruct (_chunked_url_copier src chunk_size aborthook) as [tr r]. simpl.
    exists (map Copier tr ++ [DstClose]). split; [by rewrite <- app_assoc|].
    split; [|done].
    rewrite elem_of_app, list_elem_of_singleton, list_elem_of_In, in_map_iff.
    intros [(ev & Hev & _)|Hev]; discriminate.
  - exists []. split; [done|]. split; [apply not_elem_of_nil|done].
Qed.

Lemma url_retrieve_closes_handles_witness :
  ∃ body,
    (url_retrieve one_url (fun _ => true) "http://m1.example/list.xz" "Filmliste-akt.xz"
       8192 (Some (fun n => 1 <=? n))).1
    = UrlOpen "http://m1.example/list.xz" :: FileOpen "Filmliste-akt.xz"
        :: body ++ [SrcClose]
    ∧ (SrcClose ∉ body)
    ∧ ((fun _ : string => true) "Filmliste-akt.xz" = true →
       body = map Copier (_chunked_url_copier two_chunks 8192
                            (Some (fun n => 1 <=? n))).1 ++ [DstClose]
       ∧ (url_retrieve one_url (fun _ => true) "http://m1.example/list.xz"
            "Filmliste-akt.xz" 8192 (Some (fun n => 1 <=? n))).2
         = (_chunked_url_copier two_chunks 8192 (Some (fun n => 1 <=? n))).2)
    ∧ ((fun _ : string => true) "Filmliste-akt.xz" = false →
       body = []
       ∧ (url_retrieve one_url (fun _ => true) "http://m1.example/list.xz"
            "Filmliste-akt.xz" 8192 (Some (fun n => 1 <=? n))).2
         = Raise (IOError "open")).
Proof.
  apply (url_retrieve_closes_handles one_url (fun _ => true)
           "http://m1.example/list.xz" "Filmliste-akt.xz" 8192
           (Some (fun n => 1 <=? n)) two_chunks).
  reflexivity.
Defined.

Example url_retrieve_cancelled :
  url_retrieve one_url (fun _ => true) "http://m1.example/list.xz" "Filmliste-akt.xz"
    8192 (Some (fun n => 1 <=? n))
  = ([UrlOpen "http://m1.example/list.xz"; FileOpen "Filmliste-akt.xz";
      Copier (Aborthook false); Copier (Reporthook 0 8192 4);
      Copier (SrcRead "ab"); Copier (DstWrite "ab"); Copier (Aborthook true);
      DstClose; SrcClose], Raise ExitRequested).
Proof. reflexivity. Qed.

End CopierData.

(** ** [make_duration] beyond plain numerals *)

Section DurationErrors.

Import MvUtils.

Lemma int_raises (s : string) (x : exn) : int s = Raise x → x = ValueError.
Proof.
  unfold int.
  destruct (match strip s with
            | String "-"%char r => (true, lstrip r)
            | String "+"%char r => (false, lstrip r)
            | _ => (false, strip s)
            end) as [neg body].
  destruct (digits_value body); [done|]. by intros [= <-].
Qed.

(** X6: for three colon-free parts other than ["00:00:00"], [make_duration]
    never returns [None]: it returns [h*3600 + m*60 + s] for whatever
    integers [int] reads from the parts (signed or padded with blanks, and
    without any range check), and raises [ValueError] as soon as one part is
    not an integer. *)
Theorem make_duration_three_parts_cases (p0 p1 p2 : string) :
  occurrences ":" p0 = 0 → occurrences ":" p1 = 0 → occurrences ":" p2 = 0 →
  p0 +:+ ":" +:+ p1 +:+ ":" +:+ p2 ≠ "00:00:00" →
  (∀ h m s, int p0 = Ok h → int p1 = Ok m → int p2 = Ok s →
            make_duration (Some (p0 +:+ ":" +:+ p1 +:+ ":" +:+ p2))
            = Ok (Some (h * 3600 + m * 60 + s)%Z))
  ∧ ((∃ x, int p0 = Raise x) ∨ (∃ x, int p1 = Raise x) ∨ (∃ x, int p2 = Raise x) →
     make_duration (Some (p0 +:+ ":" +:+ p1 +:+ ":" +:+ p2)) = Raise ValueError)
  ∧ make_duration (Some (p0 +:+ ":" +:+ p1 +:+ ":" +:+ p2)) ≠ Ok None.
Proof.
  intros H0 H1 H2 Hne. rewrite (make_duration_three_parts p0 p1 p2 H0 H1 H2 Hne).
  destruct (int p0) as [h|x0] eqn:E0, (int p1) as [m|x1] eqn:E1, (int p2) as [s|x2] eqn:E2;
    try (apply int_raises in E0 as ->); try (apply int_raises in E1 as ->);
    try (apply int_raises in E2 as ->); simpl;
    (split_and!; [intros ? ? ?; congruence| |done]);
    intros [[x Hx]|[[x Hx]|[x Hx]]]; congruence.
Qed.

Lemma make_duration_three_parts_cases_witness :
  make_duration (Some " 1:-30:+15") = Ok (Some 1815%Z)
  ∧ make_duration (Some "01:xx:00") = Raise ValueError.
Proof.
  split.
  - apply (proj1 (make_duration_three_parts_cases " 1" "-30" "+15"
                    eq_refl eq_refl eq_refl ltac:(discriminate)) 1 (-30) 15)%Z;
      reflexivity.
  - apply (proj1 (proj2 (make_duration_three_parts_cases "01" "xx" "00"
                           eq_refl eq_refl eq_refl ltac:(discriminate)))).
    right; left. exists ValueError. reflexivity.
Defined.

End DurationErrors.

(** ** File helpers of both modules *)

Section Files.

Implicit Types (fs : gmap string Os.inode) (name : string).

Lemma os_remove_spec fs name fs' :
  Os.remove name fs = Some fs' →
  fs' = delete name fs
  ∧ ∃ i, fs !! name = Some i ∧ Os.removable i = true ∧ Os.is_directory i = false.
Proof.
  unfold Os.remove. destruct (fs !! name) as [i|]; [|done].
  destruct (Os.removable i) eqn:Hr, (Os.is_directory i) eqn:Hd; simpl; try done.
  intros [= <-]. split; [done|]. by exists i.
Qed.

(** X7: [file_remove] answers [True] exactly for a regular file that the
    system lets it remove; afterwards the path is neither a file nor a
    directory, its size reads 0, and every other path is as before. When it
    answers [False] nothing has changed. The updater's private [_file_remove]
    behaves the same. *)
Theorem file_remove_spec fs name :
  ((MvUtils.file_remove fs name).1 = true
   ↔ ∃ i, fs !! name = Some i ∧ Os.is_regular i = true ∧ Os.removable i = true)
  ∧ ((MvUtils.file_remove fs name).1 = true →
     MvUtils.file_exists (MvUtils.file_remove fs name).2 name = false
     ∧ MvUtils.dir_exists (MvUtils.file_remove fs name).2 name = false
     ∧ MvUtils.file_size (MvUtils.file_remove fs name).2 name = 0%Z
     ∧ ∀ other, other ≠ name → (MvUtils.file_remove fs name).2 !! other = fs !! other)
  ∧ ((MvUtils.file_remove fs name).1 = false → (MvUtils.file_remove fs name).2 = fs)
  ∧ _file_remove fs name = MvUtils.file_remove fs name.
Proof.
  unfold MvUtils.file_remove, MvUtils.file_exists, MvUtils.dir_exists, MvUtils.file_size.
  split_and!; [| | |reflexivity].
  - destruct (fs !! name) as [i|] eqn:Hi; [|split; [done|by intros (? & ? & _)]].
    destruct (Os.is_regular i) eqn:Hreg; [|split; [done|intros (? & [= <-] & ? & _); congruence]].
    unfold Os.remove. rewrite Hi.
    assert (Os.is_directory i = false) as ->
        by (unfold Os.is_regular, Os.is_directory in *; by destruct (Os.st_kind i)).
    destruct (Os.removable i) eqn:Hrem; simpl.
    + split; [intros _; by exists i|done].
    + split; [done|intros (? & [= <-] & _ & ?); congruence].
  - destruct (fs !! name) as [i|] eqn:Hi; [|done].
    destruct (Os.is_regular i); [|done].
    destruct (Os.remove name fs) as [fs'|] eqn:Hrm; [|done].
    apply os_remove_spec in Hrm as [-> _]. simpl. intros _.
    rewrite lookup_delete_eq. split_and!; [done..|].
    intros other Hne. by rewrite lookup_delete_ne.
  - destruct (fs !! name) as [i|] eqn:Hi; [|done].
    destruct (Os.is_regular i); [|done].
    by destruct (Os.remove name fs).
Qed.

Example file_remove_examples :
  (MvUtils.file_remove sample_fs "Filmliste-akt.xz").1 = true
  ∧ (MvUtils.file_remove sample_fs "Filmliste-akt").1 = false
  ∧ (MvUtils.file_remove sample_fs "addon_data").1 = false
  ∧ (MvUtils.file_remove sample_fs "missing").1 = false.
Proof. split_and!; vm_compute; reflexivity. Qed.

Lemma find_xz_regular fs (updxzbin p : string) :
  _find_xz fs updxzbin = Some p → _file_exists fs p = true.
Proof.
  unfold _find_xz.
  destruct (List.find (_file_exists fs) xz_locations) as [q|] eqn:Hfind.
  - intros [= <-]. by apply List.find_some in Hfind as [_ ?].
  - destruct (negb (String.eqb updxzbin "")); simpl; [|done].
    destruct (_file_exists fs updxzbin) eqn:Hex; [|done]. by intros [= <-].
Qed.

(** X8: [_find_xz] only ever names a regular file; it prefers the fixed
    locations in their order and turns to the configured path only when
    none of them exists and the setting is not empty; it finds nothing
    exactly when no fixed location exists and the configured path is empty
    or no regular file. Whatever [find_xz] of [mvutils] finds, [_find_xz]
    finds too. *)
Theorem find_xz_spec fs (updxzbin : string) :
  (∀ p, _find_xz fs updxzbin = Some p →
        _file_exists fs p = true
        ∧ ((∃ earlier later, xz_locations = earlier ++ p :: later
                             ∧ Forall (fun q => _file_exists fs q = false) earlier)
           ∨ (p = updxzbin ∧ updxzbin ≠ ""
              ∧ Forall (fun q => _file_exists fs q = false) xz_locations)))
  ∧ (_find_xz fs updxzbin = None
     ↔ Forall (fun q => _file_exists fs q = false) xz_locations
       ∧ (updxzbin = "" ∨ _file_exists fs updxzbin = false))
  ∧ (∀ p, MvUtils.find_xz fs = Some p → _find_xz fs updxzbin = Some p).
Proof.
  unfold _find_xz, MvUtils.find_xz, xz_locations.
  change (MvUtils.file_exists fs) with (_file_exists fs). simpl.
  destruct (_file_exists fs "/bin/xz") eqn:H1.
  { split_and!.
    - intros p [= <-]. split; [done|]. left. exists [], ["/usr/bin/xz"; "/usr/local/bin/xz"].
      by split.
    - split; [done|]. intros [Hall _]. apply Forall_cons in Hall as [? _]. congruence.
    - done. }
  destruct (_file_exists fs "/usr/bin/xz") eqn:H2.
  { split_and!.
    - intros p [= <-]. split; [done|]. left. exists ["/bin/xz"], ["/usr/local/bin/xz"].
      split; [done|]. by repeat constructor.
    - split; [done|]. intros [Hall _].
      apply Forall_cons in Hall as [_ Hall]. apply Forall_cons in Hall as [? _]. congruence.
    - done. }
  destruct (_file_exists fs "/usr/local/bin/xz") eqn:H3.
  { split_and!.
    - intros p [= <-]. split; [done|]. left. exists ["/bin/xz"; "/usr/bin/xz"], [].
      split; [done|]. by repeat constructor.
    - split; [done|]. intros [Hall _].
      do 2 apply Forall_cons in Hall as [_ Hall]. apply Forall_cons in Hall as [? _].
      congruence.
    - done. }
  destruct (String.eqb_spec updxzbin "") as [->|Hne]; simpl.
  { split_and!; [done| |done]. split; [intros _|done]. split; [by repeat constructor|by left]. }
  destruct (_file_exists fs updxzbin) eqn:H4.
  - split_and!; [| |done].
    + intros p [= <-]. split; [done|]. right. split_and!; [done..|]. by repeat constructor.
    + split; [done|]. by intros [_ [?|?]].
  - split_and!; [done| |done]. split; [intros _|done].
    split; [by repeat constructor|by right].
Qed.

Example find_xz_examples :
  _find_xz sample_fs "/opt/xz" = Some "/usr/bin/xz"
  ∧ _find_xz (delete "/usr/bin/xz" sample_fs) "/opt/xz" = Some "/opt/xz"
  ∧ MvUtils.find_xz (delete "/usr/bin/xz" sample_fs) = None
  ∧ _find_xz (delete "/usr/bin/xz" sample_fs) "addon_data" = None.
Proof. split_and!; vm_compute; reflexivity. Qed.

(** X9: [PrerequisitesMissing] and [IsEnabled] never hold together; with
    updates enabled exactly one of them holds, according to whether
    [_find_xz] finds the decompressor, and with updates disabled neither
    does ([IsEnabled] then returns [None]). *)
Theorem prerequisites_or_enabled fs (updenabled : bool) (updxzbin : string) :
  (PrerequisitesMissing fs updenabled updxzbin && truthy (IsEnabled fs updenabled updxzbin)
   = false)
  ∧ (updenabled = true →
     PrerequisitesMissing fs updenabled updxzbin
     = negb (truthy (IsEnabled fs updenabled updxzbin))
     ∧ (truthy (IsEnabled fs updenabled updxzbin) = true
        ↔ ∃ xzbin, _find_xz fs updxzbin = Some xzbin ∧ _file_exists fs xzbin = true))
  ∧ (updenabled = false →
     PrerequisitesMissing fs updenabled updxzbin = false
     ∧ IsEnabled fs updenabled updxzbin = None).
Proof.
  unfold PrerequisitesMissing, IsEnabled, truthy.
  destruct updenabled; simpl; (split_and!; [|try done..]).
  - by destruct (bool_decide _).
  - intros _. split; [done|].
    rewrite bool_decide_eq_true. split.
    + intros [p Hp]. exists p. split; [done|].
      by apply (find_xz_regular fs updxzbin p).
    + intros (p & Hp & _). by exists p.
  - done.
Qed.

End Files.

(** ** classes/updater.py: what an import run accounts for *)

Section ImportAccounts.

Variables (e : env) (records : Z).

Implicit Types (self : updater) (toks : list token) (tr : list event).

Lemma add_value_counters self val s' :
  _add_value self val = Ok s' →
  channels s' = channels self ∧ shows s' = shows self ∧ movies s' = movies self.
Proof.
  unfold _add_value. destruct (_add_value_field self val) as [s1|] eqn:H1; [|done].
  intros [= <-]. simpl. revert H1.
  destruct self as [i c chn shw mov f]. unfold _add_value_field. intros H.
  do 19 (destruct i as [|i];
         [cbn [index Nat.eqb] in H; unfold mbind, result_bind in H;
          branch_cases H; by split_and!|]).
  cbn [index Nat.eqb] in H. by simplify_eq.
Qed.

Lemma end_record_accounts self ev self1 :
  _end_record e records self = (ev, self1) →
  inserted_films ev = [film self]
  ∧ progress_reports ev = (if count self mod 1000 =? 0 then [count self] else [])
  ∧ film self1 = film self
  ∧ channels self1 = (channels self + (ftInsertFilm e (count self) (film self)).1.1.2)%Z
  ∧ shows self1 = (shows self + (ftInsertFilm e (count self) (film self)).1.2)%Z
  ∧ movies self1 = (movies self + (ftInsertFilm e (count self) (film self)).2)%Z.
Proof.
  unfold _end_record.
  destruct (ftInsertFilm e (count self) (film self)) as [[[? ?] ?] ?].
  destruct (count self mod 1000 =? 0); intros [= <- <-]; by split_and!.
Qed.

Lemma update_end_accounts self aborted status descr :
  inserted_films (_update_end e self aborted status descr) = []
  ∧ progress_reports (_update_end e self aborted status descr) = []
  ∧ reported_added (_update_end e self aborted status descr)
    = [(channels self, shows self, movies self)]
  ∧ descriptions (_update_end e self aborted status descr) = [descr].
Proof.
  unfold _update_end. by destruct (ftUpdateEnd e aborted) as [[[[[? ?] ?] ?] ?] ?].
Qed.

Lemma tally_cons (n : nat) (f : gmap string value) (films : list (gmap string value)) :
  (tally e n (f :: films)).1.1 = ((ftInsertFilm e n f).1.1.2 + (tally e (S n) films).1.1)%Z
  ∧ (tally e n (f :: films)).1.2 = ((ftInsertFilm e n f).1.2 + (tally e (S n) films).1.2)%Z
  ∧ (tally e n (f :: films)).2 = ((ftInsertFilm e n f).2 + (tally e (S n) films).2)%Z.
Proof.
  simpl. destruct (ftInsertFilm e n f) as [[[? ?] ?] ?].
  by destruct (tally e (S n) films) as [[? ?] ?].
Qed.

(** Every record-array end is one insert, and the counters grow by what
    storage answers. *)
Lemma import_loop_tally toks :
  ∀ self,
    count (import_loop e records toks self).2
    = count self + length (inserted_films (import_loop e records toks self).1.1)
    ∧ channels (import_loop e records toks self).2
      = (channels self
         + (tally e (count self) (inserted_films (import_loop e records toks self).1.1)).1.1)%Z
    ∧ shows (import_loop e records toks self).2
      = (shows self
         + (tally e (count self) (inserted_films (import_loop e records toks self).1.1)).1.2)%Z
    ∧ movies (import_loop e records toks self).2
      = (movies self
         + (tally e (count self) (inserted_films (import_loop e records toks self).1.1)).2)%Z.
Proof.
  induction toks as [|t toks IH]; intros self.
  - simpl. split_and!; lia.
  - rewrite import_loop_cons.
    destruct (is_token "X" "start_array" t); [apply (IH (_init_record self))|].
    destruct (is_token "X" "end_array" t).
    { destruct (_end_record e records self) as [ev self1] eqn:Her.
      pose proof (end_record_spec e records _ _ _ Her) as (Hc & _).
      apply end_record_accounts in Her as (Hins & _ & _ & Hchn & Hshw & Hmov).
      destruct (tally_cons (count self) (film self)
                  (inserted_films (import_loop e records toks self1).1.1))
        as (Ht1 & Ht2 & Ht3).
      destruct (tally_cons (count self) (film self) []) as (Hn1 & Hn2 & Hn3).
      specialize (IH self1). rewrite Hc, Nat.add_1_r in IH.
      destruct (count self1 mod 100 =? 0).
      - destruct (abortRequested e (count self1)).
        + cbn [fst snd].
          destruct (update_end_accounts self1 true "ABORTED" (Msg 30959)) as (Hu & _).
          unfold inserted_films in *. observe. rewrite Hins, Hu. cbn [app length].
          rewrite Hn1, Hn2, Hn3. simpl. split_and!; lia.
        + destruct (import_loop e records toks self1) as [[tr r] s'].
          cbn [fst snd] in *. unfold inserted_films in *. observe. rewrite Hins.
          cbn [app length]. rewrite Ht1, Ht2, Ht3. split_and!; lia.
      - destruct (import_loop e records toks self1) as [[tr r] s'].
        cbn [fst snd] in *. unfold inserted_films in *. observe. rewrite Hins.
        cbn [app length]. rewrite Ht1, Ht2, Ht3. split_and!; lia. }
    destruct (is_token "X.item" "string" t); [|apply IH].
    destruct (_add_value self _) as [self1|x] eqn:Hadd.
    + pose proof (add_value_count _ _ _ Hadd) as Hc.
      apply add_value_counters in Hadd as (H1 & H2 & H3).
      rewrite <- Hc, <- H1, <- H2, <- H3. apply IH.
    + simpl. split_and!; lia.
Qed.

(** Progress is reported exactly before the records numbered by a multiple
    of 1000, counting from 0. *)
Lemma import_loop_progress toks :
  ∀ self n,
    n ∈ progress_reports (import_loop e records toks self).1.1
    ↔ (count self ≤ n < count (import_loop e records toks self).2 ∧ n mod 1000 = 0).
Proof.
  induction toks as [|t toks IH]; intros self n.
  - simpl. rewrite elem_of_nil. lia.
  - rewrite import_loop_cons.
    destruct (is_token "X" "start_array" t); [apply (IH (_init_record self))|].
    destruct (is_token "X" "end_array" t).
    { destruct (_end_record e records self) as [ev self1] eqn:Her.
      pose proof (end_record_spec e records _ _ _ Her) as (Hc & _).
      apply end_record_accounts in Her as (_ & Hpr & _).
      pose proof (import_loop_polls e records toks self1) as [Hmono _].
      specialize (IH self1 n).
      assert (Hhead : n ∈ (if count self mod 1000 =? 0 then [count self] else [])
                      ↔ n = count self ∧ n mod 1000 = 0).
      { destruct (Nat.eqb_spec (count self mod 1000) 0) as [Hm|Hm].
        - rewrite list_elem_of_singleton. split; [by intros ->|by intros [-> _]].
        - rewrite elem_of_nil. split; [done|]. intros [-> ?]. done. }
      destruct (count self1 mod 100 =? 0).
      - destruct (abortRequested e (count self1)).
        + cbn [fst snd].
          destruct (update_end_accounts self1 true "ABORTED" (Msg 30959)) as (_ & Hu & _).
          unfold progress_reports in *. observe. rewrite Hpr, Hu, !app_nil_r, Hhead. lia.
        + destruct (import_loop e records toks self1) as [[tr r] s'].
          cbn [fst snd] in *. unfold progress_reports in *. observe.
          rewrite Hpr, elem_of_app, Hhead, IH. lia.
      - destruct (import_loop e records toks self1) as [[tr r] s'].
        cbn [fst snd] in *. unfold progress_reports in *. observe.
        rewrite Hpr, elem_of_app, Hhead, IH. lia. }
    destruct (is_token "X.item" "string" t); [|apply IH].
    destruct (_add_value self _) as [self1|x] eqn:Hadd.
    + apply add_value_count in Hadd. rewrite <- Hadd. apply IH.
    + simpl. rewrite elem_of_nil. lia.
Qed.

Lemma init_record_well_formed self : well_formed (_init_record self).
Proof.
  unfold well_formed, _init_record. rewrite !film_film_set. split.
  - exists default_aired. repeat (rewrite lookup_insert_ne by discriminate).
    by rewrite lookup_insert_eq.
  - exists "". repeat (rewrite lookup_insert_ne by discriminate).
    by rewrite lookup_insert_eq.
Qed.

Lemma make_url_raises self val (x : exn) :
  well_formed self → _make_url self val = Raise x → x = ValueError.
Proof.
  intros [_ [u Hu]]. unfold _make_url.
  destruct (split "|" val) as [|x0 [|x1 [|x2 parts]]]; try done.
  destruct (int x0) as [cnt|y] eqn:Hint; simpl.
  - by rewrite Hu.
  - intros [= <-]. by apply int_raises in Hint.
Qed.

(** With [aired] and [url_video] holding strings, a leaf keeps them so, and
    the only exception it can raise is the [ValueError] of [int]. *)
Lemma add_value_well_formed self val :
  well_formed self →
  match _add_value self val with
  | Ok s' => well_formed s'
  | Raise x => x = ValueError
  end.
Proof.
  intros Hwf. pose proof Hwf as [[a Ha] [u Hu]].
  unfold _add_value.
  destruct (_add_value_field self val) as [s1|x] eqn:H1; simpl.
  - revert H1. destruct self as [i c chn shw mov f]. unfold _add_value_field.
    cbn [film index] in *. intros H.
    do 19 (destruct i as [|i];
           [cbn [index Nat.eqb film] in H; unfold mbind, result_bind in H;
            branch_cases H; unfold well_formed; cbn [film film_set set_film set_index];
            (split; first [by eexists; apply lookup_insert_eq
                          |rewrite ?lookup_insert_ne by discriminate; eauto])|]).
    cbn [index Nat.eqb] in H. simplify_eq. split; by eexists.
  - revert H1. destruct self as [i c chn shw mov f]. unfold _add_value_field.
    cbn [film index] in *. intros H.
    do 19 (destruct i as [|i];
           [cbn [index Nat.eqb film] in H; unfold mbind, result_bind in H;
            rewrite ?Ha in H;
            repeat match type of H with
                   | context [if ?b then _ else _] => destruct b eqn:?
                   | context [match int ?s with _ => _ end] =>
                       let E := fresh "E" in destruct (int s) eqn:E
                   | context [match _make_url ?s ?v with _ => _ end] =>
                       let E := fresh "E" in destruct (_make_url s v) eqn:E
                   end;
            simplify_eq;
            first [by eapply int_raises | by eapply (make_url_raises _ _ _ Hwf)]|]).
    cbn [index Nat.eqb] in H. by simplify_eq.
Qed.

(** A run of the loop that raises has neither finalized the transaction nor
    persisted a status nor closed the file; from a state with string-valued
    [aired] and [url_video] the exception is a [ValueError]. *)
Lemma import_loop_raised toks :
  ∀ self (x : exn),
    (import_loop e records toks self).1.2 = Raise x →
    update_ends (import_loop e records toks self).1.1 = []
    ∧ statuses (import_loop e records toks self).1.1 = []
    ∧ file_closes (import_loop e records toks self).1.1 = []
    ∧ (well_formed self → x = ValueError).
Proof.
  induction toks as [|t toks IH]; intros self x; [done|].
  rewrite import_loop_cons.
  destruct (is_token "X" "start_array" t).
  { intros Hr. destruct (IH _ _ Hr) as (? & ? & ? & Hx). split_and!; [done..|].
    intros _. apply Hx, init_record_well_formed. }
  destruct (is_token "X" "end_array" t).
  { destruct (_end_record e records self) as [ev self1] eqn:Her.
    pose proof (end_record_spec e records _ _ _ Her) as (_ & Hu & Hs & Hf & _).
    apply end_record_accounts in Her as (_ & _ & Hfilm & _).
    assert (Hwf : well_formed self → well_formed self1)
      by (unfold well_formed; by rewrite Hfilm).
    specialize (IH self1 x).
    destruct (count self1 mod 100 =? 0).
    - destruct (abortRequested e (count self1)); [done|].
      destruct (import_loop e records toks self1) as [[tr r] s'].
      cbn [fst snd] in *. intros Hr. destruct (IH Hr) as (? & ? & ? & Hx).
      unfold update_ends, statuses, file_closes in *. observe.
      rewrite Hu, Hs, Hf. split_and!; [done..|]. intros ?. by apply Hx, Hwf.
    - destruct (import_loop e records toks self1) as [[tr r] s'].
      cbn [fst snd] in *. intros Hr. destruct (IH Hr) as (? & ? & ? & Hx).
      unfold update_ends, statuses, file_closes in *. observe.
      rewrite Hu, Hs, Hf. split_and!; [done..|]. intros ?. by apply Hx, Hwf. }
  destruct (is_token "X.item" "string" t); [|apply IH].
  pose proof (add_value_well_formed self
                (match tok_value t with Some v => strip v | None => "" end)) as Hadd.
  destruct (_add_value self _) as [self1|y].
  - intros Hr. destruct (IH _ _ Hr) as (? & ? & ? & Hx). split_and!; [done..|].
    intros Hwf. by apply Hx, Hadd.
  - cbn [fst snd]. intros [= <-]. split_and!; [done..|]. apply Hadd.
Qed.

(** The loop is left by [return] only at a poll that answered true. *)
Lemma import_loop_returned toks :
  ∀ self (b : bool),
    (import_loop e records toks self).1.2 = Ok (Returned b) →
    abortRequested e (count (import_loop e records toks self).2) = true.
Proof.
  induction toks as [|t toks IH]; intros self b; [done|].
  rewrite import_loop_cons.
  destruct (is_token "X" "start_array" t); [apply IH|].
  destruct (is_token "X" "end_array" t).
  { destruct (_end_record e records self) as [ev self1] eqn:Her.
    specialize (IH self1 b).
    destruct (count self1 mod 100 =? 0).
    - destruct (abortRequested e (count self1)) eqn:Hpoll; [done|].
      by destruct (import_loop e records toks self1) as [[tr r] s'].
    - by destruct (import_loop e records toks self1) as [[tr r] s']. }
  destruct (is_token "X.item" "string" t); [|apply IH].
  destruct (_add_value self _) as [self1|y]; [apply IH|done].
Qed.

(** Only the cancellation path reports added counts from within the loop,
    and it reports the counters as they stand. *)
Lemma import_loop_reported toks :
  ∀ self,
    reported_added (import_loop e records toks self).1.1
    = match (import_loop e records toks self).1.2 with
      | Ok (Returned _) =>
          [(channels (import_loop e records toks self).2,
            shows (import_loop e records toks self).2,
            movies (import_loop e records toks self).2)]
      | _ => []
      end
    ∧ descriptions (import_loop e records toks self).1.1
      = match (import_loop e records toks self).1.2 with
        | Ok (Returned _) => [Msg 30959]
        | _ => []
        end.
Proof.
  induction toks as [|t toks IH]; intros self; [done|].
  rewrite import_loop_cons.
  destruct (is_token "X" "start_array" t); [apply IH|].
  destruct (is_token "X" "end_array" t).
  { destruct (_end_record e records self) as [ev self1] eqn:Her.
    assert (reported_added ev = [] ∧ descriptions ev = []) as [Hev Hev'].
    { revert Her. unfold _end_record.
      destruct (ftInsertFilm e (count self) (film self)) as [[[? ?] ?] ?].
      by destruct (count self mod 1000 =? 0); intros [= <- <-]. }
    specialize (IH self1).
    destruct (count self1 mod 100 =? 0).
    - destruct (abortRequested e (count self1)).
      + cbn [fst snd].
        destruct (update_end_accounts self1 true "ABORTED" (Msg 30959)) as (_ & _ & Hr & Hd).
        unfold reported_added, descriptions in *. observe.
        by rewrite Hev, Hev', Hr, Hd.
      + destruct (import_loop e records toks self1) as [[tr r] s'].
        cbn [fst snd] in *. unfold reported_added, descriptions in *. observe.
        by rewrite Hev, Hev'.
    - destruct (import_loop e records toks self1) as [[tr r] s'].
      cbn [fst snd] in *. unfold reported_added, descriptions in *. observe.
      by rewrite Hev, Hev'. }
  destruct (is_token "X.item" "string" t); [|apply IH].
  destruct (_add_value self _) as [self1|y]; [apply IH|done].
Qed.

(** The loop never begins an update transaction. *)
Lemma import_loop_no_start toks :
  ∀ self, update_starts (import_loop e records toks self).1.1 = [].
Proof.
  induction toks as [|t toks IH]; intros self; [done|].
  rewrite import_loop_cons.
  destruct (is_token "X" "start_array" t); [apply IH|].
  destruct (is_token "X" "end_array" t).
  { destruct (_end_record e records self) as [ev self1] eqn:Her.
    assert (update_starts ev = []) as Hev.
    { revert Her. unfold _end_record.
      destruct (ftInsertFilm e (count self) (film self)) as [[[? ?] ?] ?].
      by destruct (count self mod 1000 =? 0); intros [= <- <-]. }
    assert (∀ d, update_starts (_update_end e self1 true "ABORTED" d) = []) as Hend
        by (intros d; unfold _update_end;
            by destruct (ftUpdateEnd e true) as [[[[[? ?] ?] ?] ?] ?]).
    specialize (IH self1).
    destruct (count self1 mod 100 =? 0).
    - destruct (abortRequested e (count self1)).
      + cbn [fst snd]. unfold update_starts in *. observe. by rewrite Hev, Hend.
      + destruct (import_loop e records toks self1) as [[tr r] s'].
        cbn [fst snd] in *. unfold update_starts in *. observe. by rewrite Hev.
    - destruct (import_loop e records toks self1) as [[tr r] s'].
      cbn [fst snd] in *. unfold update_starts in *. observe. by rewrite Hev. }
  destruct (is_token "X.item" "string" t); [|apply IH].
  destruct (_add_value self _) as [self1|y]; [apply IH|done].
Qed.

End ImportAccounts.

Section ImportRuns.

Implicit Types (e : env) (fs : files) (self : updater).

(** [Import] on a catalog file that exists. *)
Lemma Import_present e fs self (content : string) :
  destfile fs = Some content →
  Import e fs self
  = let records := if ((ftUpdateStart e).2 <? 50000)%Z then 220000%Z
                   else ((ftUpdateStart e).2 + 10000)%Z in
    let run := import_loop e records (ijson_parse e content).1 initial_updater in
    let head := [UpdateStatus "UPDATING"; FtInit; FtUpdateStart; ShowUpdateProgress]
                  ++ run.1.1 in
    match run.1.2 with
    | Raise x => (head, Raise x, run.2)
    | Ok (Returned b) => (head, Ok b, run.2)
    | Ok Exhausted =>
        match (ijson_parse e content).2 with
        | EndOfStream =>
            (head ++ FileClose :: _update_end e run.2 false "IDLE" (Msg 30958)
                  ++ [CloseUpdateProgress], Ok true, run.2)
        | ReadFails cause =>
            (head ++ _update_end e run.2 true "ABORTED" (MsgFormat 30960 cause)
                  ++ [CloseUpdateProgress; FileClose], Ok false, run.2)
        | ParseFails => (head, Raise JSONError, run.2)
        end
    end.
Proof.
  intros Hdest. unfold Import. rewrite Hdest.
  destruct (ijson_parse e content) as [toks ending]. unfold _update_start.
  destruct (ftUpdateStart e) as [[tot_chn tot_shw] tot_mov]. cbn [fst snd]. cbv zeta.
  destruct (import_loop e _ toks initial_updater) as [[tr r] s1]. cbn [fst snd].
  by destruct r as [[|b]|x]; [destruct ending|..].
Qed.

(** X10: in every run of [Import] over an existing catalog file, each
    processed record is one call of [ftInsertFilm], the counters of the
    updater are the sums of what storage answered to these calls, and the
    added counts handed to the final [UpdateStatus] are these sums. *)
Theorem import_accounts_for_every_insert e fs self (content : string) :
  destfile fs = Some content →
  length (inserted_films (Import e fs self).1.1) = count (Import e fs self).2
  ∧ (channels (Import e fs self).2, shows (Import e fs self).2, movies (Import e fs self).2)
    = tally e 0 (inserted_films (Import e fs self).1.1)
  ∧ (∀ added, added ∈ reported_added (Import e fs self).1.1 →
              added = tally e 0 (inserted_films (Import e fs self).1.1))
  ∧ (∀ b, (Import e fs self).1.2 = Ok b →
          reported_added (Import e fs self).1.1
          = [tally e 0 (inserted_films (Import e fs self).1.1)]).
Proof.
  intros Hdest. rewrite (Import_present e fs self content Hdest). cbv zeta.
  set (records := if ((ftUpdateStart e).2 <? 50000)%Z then 220000%Z
                  else ((ftUpdateStart e).2 + 10000)%Z).
  set (toks := (ijson_parse e content).1).
  pose proof (import_loop_tally e records toks initial_updater) as (Hc & Hchn & Hshw & Hmov).
  pose proof (import_loop_reported e records toks initial_updater) as [Hrep _].
  destruct (import_loop e records toks initial_updater) as [[tr r] s1].
  cbn [fst snd count channels shows movies initial_updater] in *.
  assert (Htally : (channels s1, shows s1, movies s1) = tally e 0 (inserted_films tr)).
  { rewrite Hchn, Hshw, Hmov. by destruct (tally e 0 (inserted_films tr)) as [[? ?] ?]. }
  assert (Hstatus : ∀ aborted status descr,
             reported_added (_update_end e s1 aborted status descr)
             = [tally e 0 (inserted_films tr)]
             ∧ inserted_films (_update_end e s1 aborted status descr) = []).
  { intros aborted status descr.
    destruct (update_end_accounts e s1 aborted status descr) as (Hi & _ & Hr & _).
    by rewrite Hr, Htally. }
  destruct r as [[|b]|x].
  - destruct ((ijson_parse e content).2) as [|cause|]; cbn [fst snd].
    + destruct (Hstatus false "IDLE" (Msg 30958)) as [Hr Hi].
      unfold inserted_films, reported_added in *. observe.
      rewrite Hr, Hi, Hrep, !app_nil_r. cbn [app].
      split_and!; [lia|done| |done]. by intros added ->%list_elem_of_singleton.
    + destruct (Hstatus true "ABORTED" (MsgFormat 30960 cause)) as [Hr Hi].
      unfold inserted_films, reported_added in *. observe.
      rewrite Hr, Hi, Hrep, !app_nil_r. cbn [app].
      split_and!; [lia|done| |done]. by intros added ->%list_elem_of_singleton.
    + unfold inserted_films, reported_added in *. observe.
      rewrite Hrep. cbn [app].
      split_and!; [lia|done| |done]. by intros added ?%elem_of_nil.
  - cbn [fst snd]. unfold inserted_films, reported_added in *. observe.
    rewrite Hrep, Htally. cbn [app].
    split_and!; [lia|done| |done]. by intros added ->%list_elem_of_singleton.
  - cbn [fst snd]. unfold inserted_films, reported_added in *. observe.
    rewrite Hrep. cbn [app].
    split_and!; [lia|done| |done]. by intros added ?%elem_of_nil.
Qed.


Lemma import_accounts_for_every_insert_witness :
  length (inserted_films (Import (import_env two_records (fun _ => false))
                            unpacked initial_updater).1.1)
  = count (Import (import_env two_records (fun _ => false)) unpacked initial_updater).2
  ∧ reported_added (Import (import_env two_records (fun _ => false))
                      unpacked initial_updater).1.1
    = [tally (import_env two_records (fun _ => false)) 0
         (inserted_films (Import (import_env two_records (fun _ => false))
                            unpacked initial_updater).1.1)].
Proof.
  destruct (import_accounts_for_every_insert (import_env two_records (fun _ => false))
              unpacked initial_updater "catalog" eq_refl) as (Hlen & _ & _ & Hrep).
  split; [exact Hlen|]. apply (Hrep true). vm_compute. reflexivity.
Defined.

(** X11: [Import] catches [IOError] only. With storage and the notifier
    returning normally, a run of [Import] that raises does so with the
    [ValueError] that [int] raises on a leaf at position 6, 12, 14 or 16, or
    with the parser's [JSONError] once the tokens of a malformed document
    are used up. In both cases the run has begun the update transaction and
    persisted [UPDATING], and then neither calls [ftUpdateEnd] nor persists
    another status nor closes the file. *)
Theorem import_error_leaves_transaction_open e fs self (x : exn) :
  (Import e fs self).1.2 = Raise x →
  (x = ValueError
   ∨ (x = JSONError
      ∧ ∃ content, destfile fs = Some content
                   ∧ (ijson_parse e content).2 = ParseFails
                   ∧ count (Import e fs self).2 = records_in (ijson_parse e content).1))
  ∧ update_starts (Import e fs self).1.1 = [tt]
  ∧ statuses (Import e fs self).1.1 = ["UPDATING"]
  ∧ update_ends (Import e fs self).1.1 = []
  ∧ file_closes (Import e fs self).1.1 = [].
Proof.
  destruct (destfile fs) as [content|] eqn:Hdest;
    [|unfold Import; by rewrite Hdest].
  rewrite (Import_present e fs self content Hdest). cbv zeta.
  set (records := if ((ftUpdateStart e).2 <? 50000)%Z then 220000%Z
                  else ((ftUpdateStart e).2 + 10000)%Z).
  set (toks := (ijson_parse e content).1).
  pose proof (import_loop_raised e records toks initial_updater) as Hraised.
  pose proof (import_loop_no_start e records toks initial_updater) as Hstarts.
  pose proof (import_loop_observed e records toks initial_updater) as Hobs.
  unfold loop_observed in Hobs.
  destruct (import_loop e records toks initial_updater) as [[tr r] s1].
  cbn [fst snd] in *.
  destruct r as [[|b]|y]; [|done|].
  - destruct ((ijson_parse e content).2) as [|cause|] eqn:Hending; [done..|].
    cbn [fst snd]. intros [= <-].
    destruct Hobs as (Hu & Hs & Hf & _ & Hc).
    split; [right; split; [done|]; exists content; by split_and!|].
    unfold update_starts, statuses, update_ends, file_closes in *. observe.
    by rewrite Hstarts, Hs, Hu, Hf.
  - cbn [fst snd]. intros [= ->].
    destruct (Hraised x eq_refl) as (Hu & Hs & Hf & Hx).
    split; [left; apply Hx; split; by eexists|].
    unfold update_starts, statuses, update_ends, file_closes in *. observe.
    by rewrite Hstarts, Hs, Hu, Hf.
Qed.

Lemma import_error_leaves_transaction_open_witness :
  (update_starts (Import (import_env bad_size_record (fun _ => false))
                    unpacked initial_updater).1.1 = [tt]
   ∧ statuses (Import (import_env bad_size_record (fun _ => false))
                 unpacked initial_updater).1.1 = ["UPDATING"]
   ∧ update_ends (Import (import_env bad_size_record (fun _ => false))
                    unpacked initial_updater).1.1 = []
   ∧ file_closes (Import (import_env bad_size_record (fun _ => false))
                    unpacked initial_updater).1.1 = [])
  ∧ (update_starts (Import (truncated_env two_records) unpacked initial_updater).1.1 = [tt]
     ∧ statuses (Import (truncated_env two_records) unpacked initial_updater).1.1
       = ["UPDATING"]
     ∧ update_ends (Import (truncated_env two_records) unpacked initial_updater).1.1 = []
     ∧ file_closes (Import (truncated_env two_records) unpacked initial_updater).1.1 = []).
Proof.
  split.
  - apply (import_error_leaves_transaction_open
             (import_env bad_size_record (fun _ => false)) unpacked initial_updater
             ValueError).
    vm_compute. reflexivity.
  - apply (import_error_leaves_transaction_open
             (truncated_env two_records) unpacked initial_updater JSONError).
    vm_compute. reflexivity.
Defined.

(** A document that breaks off after two records: both are inserted, then
    the parser's error escapes [Import] and [Update], which never reaches
    [sql.Exit()]. *)
Example truncated_catalog_escapes :
  (Import (truncated_env two_records) unpacked initial_updater).1.2 = Raise JSONError
  ∧ length (inserted_films
              (Import (truncated_env two_records) unpacked initial_updater).1.1) = 2
  ∧ (Import (import_env bad_size_record (fun _ => false)) unpacked initial_updater).1.2
    = Raise ValueError.
Proof. split_and!; vm_compute; reflexivity. Qed.

(** X12: when the host never asks for cancellation and the run raises
    nothing (no leaf fails to decode and the parser reports no error), the
    run processes every record of the stream. At the regular end of the
    stream it closes the file, calls [ftUpdateEnd(False)], persists [IDLE]
    and returns [True]; when reading the file fails it calls
    [ftUpdateEnd(True)], persists [ABORTED] with the cause of the error,
    closes the file and returns [False]. *)
Theorem import_without_cancellation e fs self (content : string) :
  destfile fs = Some content →
  (∀ n, abortRequested e n = false) →
  (∀ x, (Import e fs self).1.2 ≠ Raise x) →
  count (Import e fs self).2 = records_in (ijson_parse e content).1
  ∧ match (ijson_parse e content).2 with
    | EndOfStream =>
        completed_run (Import e fs self)
        ∧ descriptions (Import e fs self).1.1 = [Msg 30958]
    | ReadFails cause =>
        (Import e fs self).1.2 = Ok false
        ∧ update_ends (Import e fs self).1.1 = [true]
        ∧ statuses (Import e fs self).1.1 = ["UPDATING"; "ABORTED"]
        ∧ descriptions (Import e fs self).1.1 = [MsgFormat 30960 cause]
        ∧ file_closes (Import e fs self).1.1 = [tt]
    | ParseFails => False
    end.
Proof.
  intros Hdest Hquiet. rewrite (Import_present e fs self content Hdest). cbv zeta.
  set (records := if ((ftUpdateStart e).2 <? 50000)%Z then 220000%Z
                  else ((ftUpdateStart e).2 + 10000)%Z).
  set (toks := (ijson_parse e content).1).
  pose proof (import_loop_observed e records toks initial_updater) as Hobs.
  pose proof (import_loop_returned e records toks initial_updater) as Hret.
  pose proof (import_loop_reported e records toks initial_updater) as [_ Hdescr].
  unfold loop_observed in Hobs.
  destruct (import_loop e records toks initial_updater) as [[tr r] s1].
  cbn [fst snd] in *.
  destruct r as [[|b]|x].
  - destruct Hobs as (Hu & Hs & Hf & Hp & Hc).
    destruct ((ijson_parse e content).2) as [|cause|]; cbn [fst snd];
      [| |intros Hno; by destruct (Hno JSONError)]; intros _.
    + destruct (update_end_spec e s1 false "IDLE" (Msg 30958)) as (Hu1 & Hs1 & Hf1 & _ & Hp1).
      destruct (update_end_accounts e s1 false "IDLE" (Msg 30958)) as (_ & _ & _ & Hd1).
      split; [done|]. unfold completed_run. cbn [fst snd].
      unfold update_ends, statuses, file_closes, positive_polls, descriptions in *.
      observe. by rewrite Hu, Hs, Hf, Hp, Hu1, Hs1, Hf1, Hp1, Hdescr, Hd1.
    + destruct (update_end_spec e s1 true "ABORTED" (MsgFormat 30960 cause))
        as (Hu1 & Hs1 & Hf1 & _ & Hp1).
      destruct (update_end_accounts e s1 true "ABORTED" (MsgFormat 30960 cause))
        as (_ & _ & _ & Hd1).
      split; [done|].
      unfold update_ends, statuses, file_closes, positive_polls, descriptions in *.
      observe. by rewrite Hu, Hs, Hf, Hu1, Hs1, Hf1, Hdescr, Hd1.
  - specialize (Hret b eq_refl). by rewrite Hquiet in Hret.
  - cbn [fst snd]. intros Hno. by destruct (Hno x).
Qed.

Lemma import_without_cancellation_witness :
  count (Import (failing_read_env two_records "disk error") unpacked initial_updater).2
  = records_in (ijson_parse (failing_read_env two_records "disk error") "catalog").1
  ∧ match (ijson_parse (failing_read_env two_records "disk error") "catalog").2 with
    | EndOfStream =>
        completed_run (Import (failing_read_env two_records "disk error")
                         unpacked initial_updater)
        ∧ descriptions (Import (failing_read_env two_records "disk error")
                          unpacked initial_updater).1.1 = [Msg 30958]
    | ReadFails cause =>
        (Import (failing_read_env two_records "disk error")
           unpacked initial_updater).1.2 = Ok false
        ∧ update_ends (Import (failing_read_env two_records "disk error")
                         unpacked initial_updater).1.1 = [true]
        ∧ statuses (Import (failing_read_env two_records "disk error")
                      unpacked initial_updater).1.1 = ["UPDATING"; "ABORTED"]
        ∧ descriptions (Import (failing_read_env two_records "disk error")
                          unpacked initial_updater).1.1 = [MsgFormat 30960 cause]
        ∧ file_closes (Import (failing_read_env two_records "disk error")
                         unpacked initial_updater).1.1 = [tt]
    | ParseFails => False
    end.
Proof.
  apply (import_without_cancellation (failing_read_env two_records "disk error")
           unpacked initial_updater "catalog").
  - reflexivity.
  - intros n. reflexivity.
  - intros x. vm_compute. discriminate.
Defined.

(** X13: progress is reported to the notifier exactly before the records
    numbered 0, 1000, 2000, ... of the run. *)
Theorem import_reports_progress_every_1000 e fs self (content : string) (n : nat) :
  destfile fs = Some content →
  n ∈ progress_reports (Import e fs self).1.1
  ↔ (n < count (Import e fs self).2 ∧ n mod 1000 = 0).
Proof.
  intros Hdest. rewrite (Import_present e fs self content Hdest). cbv zeta.
  set (records := if ((ftUpdateStart e).2 <? 50000)%Z then 220000%Z
                  else ((ftUpdateStart e).2 + 10000)%Z).
  set (toks := (ijson_parse e content).1).
  pose proof (import_loop_progress e records toks initial_updater n) as Hprog.
  destruct (import_loop e records toks initial_updater) as [[tr r] s1].
  cbn [fst snd count initial_updater] in *.
  assert (Hend : ∀ aborted status descr,
             progress_reports (_update_end e s1 aborted status descr) = []).
  { intros. by destruct (update_end_accounts e s1 aborted status descr) as (_ & ? & _). }
  destruct r as [[|b]|x]; [destruct ((ijson_parse e content).2)|..]; cbn [fst snd];
    unfold progress_reports in *; observe; rewrite ?Hend, ?app_nil_r;
    rewrite Hprog; lia.
Qed.

Lemma import_reports_progress_every_1000_witness :
  0 ∈ progress_reports (Import (import_env two_records (fun _ => false))
                          unpacked initial_updater).1.1
  ↔ (0 < count (Import (import_env two_records (fun _ => false))
                  unpacked initial_updater).2 ∧ 0 mod 1000 = 0).
Proof.
  apply (import_reports_progress_every_1000 (import_env two_records (fun _ => false))
           unpacked initial_updater "catalog" 0).
  reflexivity.
Defined.

End ImportRuns.

(** ** The decoder: positions without a field *)

Section DecoderEdges.

Implicit Types (self : updater) (val : string).

Lemma add_value_ignored self val :
  field_at (index self) = None →
  _add_value self val = Ok (set_index (index self + 1) self).
Proof.
  destruct self as [i c chn shw mov f]. unfold _add_value, _add_value_field.
  cbn [index]. intros Hnone.
  do 19 (destruct i as [|i]; [first [discriminate Hnone | reflexivity]|]).
  reflexivity.
Qed.

Lemma field_at_beyond (i : nat) : 19 ≤ i → field_at i = None.
Proof.
  intros Hi. do 19 (destruct i as [|i]; [lia|]). reflexivity.
Qed.

Lemma add_values_beyond (vals : list string) :
  ∀ self, 19 ≤ index self →
          add_values self vals = Ok (set_index (index self + length vals) self).
Proof.
  induction vals as [|v vals IH]; intros self Hi; simpl.
  - destruct self. unfold set_index. simpl. by rewrite Nat.add_0_r.
  - rewrite (add_value_ignored self v) by by apply field_at_beyond.
    simpl. rewrite IH by (simpl; lia).
    destruct self. unfold set_index. simpl. do 2 f_equal. lia.
Qed.

(** X14: a leaf at a position without a field (11, 13, 15, 17 and every
    position from 19 on) only advances the cursor: it changes no field and
    cannot raise, whatever its text; so any leaves that follow position 18
    of a record are ignored. *)
Theorem leaves_without_field_are_ignored self val (vals : list string) :
  (index self ∈ [11; 13; 15; 17] ∨ 19 ≤ index self →
   _add_value self val = Ok (set_index (index self + 1) self))
  ∧ (19 ≤ index self →
     add_values self vals = Ok (set_index (index self + length vals) self)).
Proof.
  split; [|apply add_values_beyond].
  intros Hpos. apply add_value_ignored.
  destruct Hpos as [Hin|Hge]; [|by apply field_at_beyond].
  repeat (apply elem_of_cons in Hin as [->|Hin]; [reflexivity|]).
  by apply elem_of_nil in Hin.
Qed.

Lemma leaves_without_field_are_ignored_witness :
  _add_value (set_index 11 initial_updater) "12|not a number"
  = Ok (set_index 12 initial_updater)
  ∧ add_values (set_index 19 initial_updater) ["a"; "7|b"; "c"]
    = Ok (set_index 22 initial_updater).
Proof.
  split.
  - apply (proj1 (leaves_without_field_are_ignored (set_index 11 initial_updater)
                    "12|not a number" [])).
    left. cbn [index set_index]. apply list_elem_of_here.
  - apply (proj2 (leaves_without_field_are_ignored (set_index 19 initial_updater)
                    "" ["a"; "7|b"; "c"])).
    simpl. lia.
Defined.

Lemma field_at_not_url_sub (i : nat) : field_at i ≠ Some "url_sub".
Proof. do 19 (destruct i as [|i]; [discriminate|]). discriminate. Qed.

Lemma field_at_before_subtitles (i : nat) : i < 10 → field_at i ≠ Some "suburl_subtitles".
Proof. intros Hi. do 10 (destruct i as [|i]; [discriminate|]). lia. Qed.

(** X15: no position of a record assigns [url_sub]: whatever leaves a record
    supplies, it is handed on with [url_sub] empty. The leaf at position 10
    is stored under the key [suburl_subtitles] instead, which
    [_init_record] does not reset: a record with at most ten leaves carries
    the value of an earlier record under that key. *)
Theorem url_sub_is_never_decoded self (vals : list string) (s' : updater) :
  add_values (_init_record self) vals = Ok s' →
  film s' !! "url_sub" = Some (VStr "")
  ∧ (length vals ≤ 10 → film s' !! "suburl_subtitles" = film self !! "suburl_subtitles")
  ∧ (∀ self0 val, index self0 = 10 →
       ∃ s1, _add_value self0 val = Ok s1
             ∧ film s1 !! "suburl_subtitles" = Some (VStr val)
             ∧ film s1 !! "url_sub" = film self0 !! "url_sub").
Proof.
  intros Hrun. split_and!.
  - rewrite (add_values_frame _ _ _ "url_sub" Hrun)
      by (intros i _; apply field_at_not_url_sub).
    rewrite init_record_reset by (by apply (bool_decide_unpack _)). by vm_compute.
  - intros Hlen.
    rewrite (add_values_frame _ _ _ "suburl_subtitles" Hrun).
    + apply init_record_frame. by apply (bool_decide_unpack _).
    + intros i Hi. rewrite init_record_index in Hi.
      apply field_at_before_subtitles. lia.
  - intros self0 val Hi.
    exists (set_index 11 (film_set "suburl_subtitles" (VStr val) self0)).
    split.
    + unfold _add_value, _add_value_field. rewrite Hi. simpl.
      unfold set_index. simpl. by rewrite Hi.
    + split; [apply lookup_insert_eq|]. by apply lookup_insert_ne.
Qed.

Lemma url_sub_is_never_decoded_witness :
  ∃ s', add_values (_init_record initial_updater) ["ARD"; "Tagesschau"; "A"] = Ok s'
        ∧ film s' !! "url_sub" = Some (VStr "")
        ∧ (length ["ARD"; "Tagesschau"; "A"] ≤ 10 →
           film s' !! "suburl_subtitles" = film initial_updater !! "suburl_subtitles").
Proof.
  destruct (add_values (_init_record initial_updater) ["ARD"; "Tagesschau"; "A"])
    as [s'|x] eqn:Hrun.
  - exists s'. split; [reflexivity|].
    destruct (url_sub_is_never_decoded initial_updater ["ARD"; "Tagesschau"; "A"] s' Hrun)
      as (Hsub & Hcarry & _).
    split; [exact Hsub|exact Hcarry].
  - vm_compute in Hrun. discriminate Hrun.
Defined.

End DecoderEdges.

(** ** classes/updater.py: download progress and the whole update *)

Section UpdateRuns.

Implicit Types (e : env) (fs : files) (self : updater) (servers : list server).

(** X16: [_reporthook] reports nothing while the total size is unknown (not
    positive). Otherwise it reports the percentage
    [blockcount * blocksize * 100 / totalsize], rounded down: a value
    between 0 and 100 as long as the blocks counted do not exceed the total
    size, and at least 100 as soon as they reach it, so the last, partial
    block can push it past 100. *)
Theorem reporthook_percent (blockcount blocksize totalsize : Z) :
  (0 ≤ blockcount)%Z → (0 ≤ blocksize)%Z →
  ((totalsize ≤ 0)%Z → _reporthook blockcount blocksize totalsize = None)
  ∧ ((0 < totalsize)%Z →
     ∃ percent,
       _reporthook blockcount blocksize totalsize = Some percent
       ∧ (0 ≤ percent)%Z
       ∧ (percent * totalsize ≤ blockcount * blocksize * 100 < (percent + 1) * totalsize)%Z
       ∧ ((blockcount * blocksize ≤ totalsize)%Z → (percent ≤ 100)%Z)
       ∧ ((totalsize ≤ blockcount * blocksize)%Z → (100 ≤ percent)%Z)).
Proof.
  intros Hbc Hbs. unfold _reporthook. cbv zeta. split.
  - intros Hts. by rewrite (proj2 (Z.ltb_ge 0 totalsize)).
  - intros Hts. rewrite (proj2 (Z.ltb_lt 0 totalsize) Hts).
    eexists. split; [reflexivity|].
    pose proof (Z.mul_div_le (blockcount * blocksize * 100) totalsize Hts) as Hlo.
    pose proof (Z.mul_succ_div_gt (blockcount * blocksize * 100) totalsize Hts) as Hhi.
    split_and!.
    + apply Z.div_pos; nia.
    + nia.
    + nia.
    + intros Hle. apply Z.div_le_upper_bound; nia.
    + intros Hge. apply Z.div_le_lower_bound; nia.
Qed.

Lemma reporthook_percent_witness :
  (∃ percent,
      _reporthook 3 8192 20000 = Some percent
      ∧ (0 ≤ percent)%Z
      ∧ (percent * 20000 ≤ 3 * 8192 * 100 < (percent + 1) * 20000)%Z
      ∧ ((3 * 8192 ≤ 20000)%Z → (percent ≤ 100)%Z)
      ∧ ((20000 ≤ 3 * 8192)%Z → (100 ≤ percent)%Z))
  ∧ _reporthook 3 8192 (-1) = None.
Proof.
  split.
  - apply (proj2 (reporthook_percent 3 8192 20000 ltac:(lia) ltac:(lia))). lia.
  - apply (proj1 (reporthook_percent 3 8192 (-1) ltac:(lia) ltac:(lia))). lia.
Defined.

Example reporthook_overshoots :
  _reporthook 2 8192 20000 = Some 81%Z ∧ _reporthook 3 8192 20000 = Some 122%Z.
Proof. split; reflexivity. Qed.



Lemma GetNewestList_all_mirrors_fail_witness :
  ∃ cause written,
    urlretrieve all_down_env (Some "http://m3.example/") = RetrieveFails cause written
    ∧ (GetNewestList all_down_env stale).1.2 = Ok false
    ∧ download_errors (GetNewestList all_down_env stale).1.1
      = [(Some "http://m3.example/", cause)].
Proof.
  apply (GetNewestList_all_mirrors_fail all_down_env stale "/usr/bin/xz" three_mirrors
           (Some "http://m3.example/")).
  - reflexivity.
  - reflexivity.
  - reflexivity.
  - repeat constructor; exists "unreachable", None; reflexivity.
Defined.

Lemma import_loop_no_session e (records : Z) (toks : list token) :
  ∀ self, sql_sessions (import_loop e records toks self).1.1 = [].
Proof.
  induction toks as [|t toks IH]; intros self; [done|].
  rewrite import_loop_cons.
  destruct (is_token "X" "start_array" t); [apply IH|].
  destruct (is_token "X" "end_array" t).
  { destruct (_end_record e records self) as [ev self1] eqn:Her.
    assert (sql_sessions ev = []) as Hev.
    { revert Her. unfold _end_record.
      destruct (ftInsertFilm e (count self) (film self)) as [[[? ?] ?] ?].
      by destruct (count self mod 1000 =? 0); intros [= <- <-]. }
    assert (∀ d, sql_sessions (_update_end e self1 true "ABORTED" d) = []) as Hend
        by (intros d; unfold _update_end;
            by destruct (ftUpdateEnd e true) as [[[[[? ?] ?] ?] ?] ?]).
    specialize (IH self1).
    destruct (count self1 mod 100 =? 0).
    - destruct (abortRequested e (count self1)).
      + cbn [fst snd]. unfold sql_sessions in *. observe. by rewrite Hev, Hend.
      + destruct (import_loop e records toks self1) as [[tr r] s'].
        cbn [fst snd] in *. unfold sql_sessions in *. observe. by rewrite Hev.
    - destruct (import_loop e records toks self1) as [[tr r] s'].
      cbn [fst snd] in *. unfold sql_sessions in *. observe. by rewrite Hev. }
  destruct (is_token "X.item" "string" t); [|apply IH].
  destruct (_add_value self _) as [self1|y]; [apply IH|done].
Qed.

(** [Import] neither opens nor closes the storage session, and begins the
    update transaction once if the catalog file exists and not at all if it
    does not. *)
Lemma Import_sessions e fs self :
  sql_sessions (Import e fs self).1.1 = []
  ∧ update_starts (Import e fs self).1.1
    = match destfile fs with Some _ => [tt] | None => [] end.
Proof.
  destruct (destfile fs) as [content|] eqn:Hdest;
    [|unfold Import; by rewrite Hdest].
  rewrite (Import_present e fs self content Hdest). cbv zeta.
  set (records := if ((ftUpdateStart e).2 <? 50000)%Z then 220000%Z
                  else ((ftUpdateStart e).2 + 10000)%Z).
  pose proof (import_loop_no_session e records (ijson_parse e content).1 initial_updater)
    as Hsess.
  pose proof (import_loop_no_start e records (ijson_parse e content).1 initial_updater)
    as Hstart.
  destruct (import_loop e records (ijson_parse e content).1 initial_updater)
    as [[tr r] s1].
  cbn [fst snd] in *.
  assert (Hend : ∀ aborted status d,
             sql_sessions (_update_end e s1 aborted status d) = []
             ∧ update_starts (_update_end e s1 aborted status d) = []).
  { intros. unfold _update_end.
    by destruct (ftUpdateEnd e aborted) as [[[[[? ?] ?] ?] ?] ?]. }
  destruct r as [[|b]|x]; [destruct ((ijson_parse e content).2) as [|cause|]|..];
    cbn [fst snd]; unfold sql_sessions, update_starts in *; observe;
    rewrite ?(proj1 (Hend _ _ _)), ?(proj2 (Hend _ _ _)), Hsess, Hstart; done.
Qed.

Lemma download_loop_no_session e (urls : list (option string)) :
  ∀ fs (lasturl err : option string),
    sql_sessions (dl_trace (download_loop e urls fs lasturl err)) = [].
Proof.
  induction urls as [|url urls IH]; intros fs lasturl err; [done|].
  rewrite download_loop_cons.
  destruct (urlretrieve e url) as [payload|cause written]; [done|].
  cbv zeta. cbn [dl_trace]. unfold sql_sessions in *. observe. apply IH.
Qed.

Lemma GetNewestList_no_session e fs : sql_sessions (GetNewestList e fs).1.1 = [].
Proof.
  unfold GetNewestList. destruct (find_xz e) as [xzbin|]; [|done].
  destruct (manifest e) as [servers|cause]; [|done].
  pose proof (download_loop_no_session e (mirror_urls servers) (_cleanup_downloads e fs).2
                (Some "") None) as Hloop.
  assert (sql_sessions (_cleanup_downloads e fs).1 = []) as Hclean
      by (unfold _cleanup_downloads, remove_file;
          by destruct (compfile fs), (destfile fs)).
  destruct (_cleanup_downloads e fs) as [ev1 fs1] eqn:Hc.
  cbn [fst snd] in Hclean, Hloop. cbv zeta.
  destruct (dl_result _).
  - destruct (xz e _) as [retval out]. cbn [fst snd].
    unfold sql_sessions in *. observe. by rewrite Hclean, Hloop.
  - destruct (dl_err _); cbn [fst snd];
      unfold sql_sessions in *; observe; by rewrite Hclean, Hloop.
Qed.

(** X19: [Update] opens the storage session first and closes it last, but
    only when no exception escapes: after an exception of [GetNewestList]
    or [Import], [sql.Exit()] is never called. An update transaction is
    begun at most once, and only after [GetNewestList] returned [True]; what
    [Import] returns is not looked at. *)
Theorem Update_session e fs self :
  sql_sessions (Update e fs self).1.1.1
  = match (Update e fs self).1.1.2 with
    | Ok _ => [true; false]
    | Raise _ => [true]
    end
  ∧ head (Update e fs self).1.1.1 = Some SqlInit
  ∧ ((Update e fs self).1.1.2 = Ok tt → last (Update e fs self).1.1.1 = Some SqlExit)
  ∧ (update_starts (Update e fs self).1.1.1 = []
     ∨ (update_starts (Update e fs self).1.1.1 = [tt]
        ∧ (GetNewestList e fs).1.2 = Ok true))
  ∧ ((GetNewestList e fs).1.2 = Ok true →
     ((Update e fs self).1.1.2 = Ok tt ↔ ∃ b, (Import e (GetNewestList e fs).2 self).1.2 = Ok b)).
Proof.
  unfold Update.
  pose proof (GetNewestList_no_session e fs) as Hs1.
  destruct (GetNewestList_storage_untouched e fs) as [Hu1 _].
  destruct (GetNewestList e fs) as [[tr r] fs1]. cbn [fst snd] in *.
  destruct r as [[|]|x].
  - destruct (Import_sessions e fs1 self) as [Hs2 Hu2].
    destruct (Import e fs1 self) as [[tr2 r2] self1]. cbn [fst snd] in *.
    destruct r2 as [b|x]; cbn [fst snd].
    + split_and!.
      * unfold sql_sessions in *. observe. by rewrite Hs1, Hs2.
      * done.
      * intros _. change (SqlInit :: tr ++ tr2 ++ [SqlExit])
          with ((SqlInit :: tr) ++ tr2 ++ [SqlExit]).
        by rewrite app_assoc, last_snoc.
      * unfold update_starts in *. observe. rewrite Hu1, Hu2. cbn [app].
        rewrite app_nil_r. destruct (destfile fs1); [by right|by left].
      * intros _. split; [by exists b|done].
    + split_and!.
      * unfold sql_sessions in *. observe. by rewrite Hs1, Hs2.
      * done.
      * done.
      * unfold update_starts in *. observe. rewrite Hu1, Hu2. cbn [app].
        destruct (destfile fs1); [by right|by left].
      * intros _. split; [done|by intros [b ?]].
  - cbn [fst snd]. split_and!; [| |intros _; by rewrite app_comm_cons, last_snoc| |done].
    + unfold sql_sessions in *. observe. by rewrite Hs1.
    + done.
    + left. unfold update_starts in *. observe. by rewrite Hu1.
  - cbn [fst snd]. split_and!; [| |done| |done].
    + unfold sql_sessions in *. observe. by rewrite Hs1.
    + done.
    + left. unfold update_starts in *. by rewrite omap_cons_eq.
Qed.

Example Update_runs :
  sql_sessions (Update failover_env stale initial_updater).1.1.1 = [true; false]
  ∧ update_starts (Update failover_env stale initial_updater).1.1.1 = [tt]
  ∧ sql_sessions (Update manifest_down_env stale initial_updater).1.1.1 = [true]
  ∧ sql_sessions (Update all_down_env stale initial_updater).1.1.1 = [true; false].
Proof. split_and!; vm_compute; reflexivity. Qed.

End UpdateRuns.

(** ** The shape of decoded records *)

Section RecordShape.

Implicit Types (self : updater) (val : string).

Lemma decoder_inv_shape self : decoder_inv self → record_shape (film self).
Proof.
  intros (Hs & Ht & Hd & (a & Ha & Hcase) & Hz & He).
  split_and!; [done..| |done|done].
  exists a. split; [done|]. destruct Hcase as [->|[[_ ?]|[_ ?]]]; auto.
Qed.

Lemma decoder_inv_initial : decoder_inv initial_updater.
Proof.
  unfold decoder_inv. split_and!.
  - exists "". split; [by vm_compute|simpl; lia].
  - exists "". split; [by vm_compute|simpl; lia].
  - exists "00:00:00". split; [by vm_compute|reflexivity].
  - exists default_aired. split; [by vm_compute|by left].
  - exists 0%Z. by vm_compute.
  - exists 0%Z. by vm_compute.
Qed.

Lemma decoder_inv_init_record self : decoder_inv self → decoder_inv (_init_record self).
Proof.
  intros ((s & Hs & Hlen) & _). unfold decoder_inv, _init_record.
  rewrite !film_film_set. split_and!.
  - exists s. split; [|done]. by repeat (rewrite lookup_insert_ne by discriminate).
  - exists "". split; [|simpl; lia].
    repeat (rewrite lookup_insert_ne by discriminate). by rewrite lookup_insert_eq.
  - exists "00:00:00". split; [|reflexivity].
    repeat (rewrite lookup_insert_ne by discriminate). by rewrite lookup_insert_eq.
  - exists default_aired. split; [|by left].
    repeat (rewrite lookup_insert_ne by discriminate). by rewrite lookup_insert_eq.
  - exists 0%Z.
    repeat (rewrite lookup_insert_ne by discriminate). by rewrite lookup_insert_eq.
  - exists 0%Z.
    repeat (rewrite lookup_insert_ne by discriminate). by rewrite lookup_insert_eq.
Qed.

Lemma slice_to_255_length val : String.length (slice_to 255 val) ≤ 255.
Proof. rewrite slice_to_255, substring0_length. lia. Qed.

(** Re-establishes one conjunct of the invariant after an assignment. *)
Ltac keep_field H :=
  let v := fresh "v" in
  let Hv := fresh "Hv" in
  let Hp := fresh "Hp" in
  destruct H as (v & Hv & Hp); exists v;
  split; [by rewrite ?lookup_insert_ne by discriminate|];
  first [exact Hp | cbn [index set_index] in *; intuition lia].

Ltac keep_int H :=
  let v := fresh "v" in
  let Hv := fresh "Hv" in
  destruct H as (v & Hv); exists v; by rewrite ?lookup_insert_ne by discriminate.

Ltac set_field tac := eexists; split; [apply lookup_insert_eq|tac].

Ltac aired_from_date :=
  right; left; split;
    [cbn [index set_index]; lia|apply reformat_date_length; by apply Nat.eqb_eq].

(** One position of the chain, for the conjuncts of the invariant. *)
Ltac position_keeps_inv H Hs Ht Hd Ha Hz He :=
  cbn [index Nat.eqb film] in H; unfold mbind, result_bind in H;
  branch_cases H; unfold decoder_inv;
  cbn [film film_set set_film set_index index];
  (split_and!;
   [first [keep_field Hs|set_field ltac:(apply slice_to_255_length)]
   |first [keep_field Ht|set_field ltac:(apply slice_to_255_length)]
   |first [keep_field Hd|set_field ltac:(by apply Nat.eqb_eq)]
   |first [keep_field Ha|set_field aired_from_date]
   |first [keep_int Hz|(eexists; apply lookup_insert_eq)]
   |first [keep_int He|(eexists; apply lookup_insert_eq)]]).

Lemma decoder_inv_add_value self val s' :
  decoder_inv self → _add_value self val = Ok s' → decoder_inv s'.
Proof.
  intros (Hs & Ht & Hd & Ha & Hz & He).
  unfold _add_value.
  destruct (_add_value_field self val) as [s1|x] eqn:H1; [|done].
  intros [= <-]. revert H1.
  destruct self as [i c chn shw mov f]. unfold _add_value_field.
  cbn [film index] in *. intros H.
  do 4 (destruct i as [|i]; [position_keeps_inv H Hs Ht Hd Ha Hz He|]).
  destruct i as [|i].
  { cbn [index Nat.eqb film] in H.
    destruct Ha as (a & Ha & Hcase). rewrite Ha in H.
    destruct (negb (String.eqb a default_aired) && (String.length val =? 8)) eqn:Hcond;
      simplify_eq; unfold decoder_inv; cbn [film film_set set_film set_index index];
      (split_and!; [keep_field Hs|keep_field Ht|keep_field Hd| |keep_int Hz|keep_int He]).
    - apply andb_true_iff in Hcond as [Hne Hlen]. apply Nat.eqb_eq in Hlen.
      eexists. split; [apply lookup_insert_eq|]. right; right. split; [lia|].
      rewrite !append_length, Hlen. simpl.
      destruct Hcase as [->|[[_ ->]|[? _]]]; [|done|lia].
      by rewrite String.eqb_refl in Hne.
    - exists a. split; [done|]. intuition lia. }
  do 14 (destruct i as [|i]; [position_keeps_inv H Hs Ht Hd Ha Hz He|]).
  position_keeps_inv H Hs Ht Hd Ha Hz He.
Qed.

Lemma decoder_inv_end_record e (records : Z) self ev self1 :
  _end_record e records self = (ev, self1) → decoder_inv self → decoder_inv self1.
Proof.
  unfold _end_record.
  destruct (ftInsertFilm e (count self) (film self)) as [[[? ?] ?] ?].
  by intros [= _ <-].
Qed.

Lemma import_loop_shape e (records : Z) (toks : list token) :
  ∀ self, decoder_inv self →
          Forall record_shape (inserted_films (import_loop e records toks self).1.1).
Proof.
  induction toks as [|t toks IH]; intros self Hinv; [constructor|].
  rewrite import_loop_cons.
  destruct (is_token "X" "start_array" t); [by apply IH, decoder_inv_init_record|].
  destruct (is_token "X" "end_array" t).
  { destruct (_end_record e records self) as [ev self1] eqn:Her.
    pose proof (decoder_inv_end_record e records _ _ _ Her Hinv) as Hinv1.
    apply end_record_accounts in Her as (Hins & _).
    specialize (IH self1 Hinv1).
    destruct (count self1 mod 100 =? 0).
    - destruct (abortRequested e (count self1)).
      + cbn [fst snd].
        destruct (update_end_accounts e self1 true "ABORTED" (Msg 30959)) as (Hu & _).
        unfold inserted_films in *. observe. rewrite Hins, Hu. cbn [app].
        constructor; [by apply decoder_inv_shape|constructor].
      + destruct (import_loop e records toks self1) as [[tr r] s'].
        cbn [fst snd] in *. unfold inserted_films in *. observe. rewrite Hins.
        cbn [app]. constructor; [by apply decoder_inv_shape|done].
    - destruct (import_loop e records toks self1) as [[tr r] s'].
      cbn [fst snd] in *. unfold inserted_films in *. observe. rewrite Hins.
      cbn [app]. constructor; [by apply decoder_inv_shape|done]. }
  destruct (is_token "X.item" "string" t); [|by apply IH].
  destruct (_add_value self _) as [self1|y] eqn:Hadd; [|constructor].
  apply IH. by eapply decoder_inv_add_value.
Qed.

(** X20: every record that [Import] hands to [ftInsertFilm] has a show and
    a title of at most 255 characters, a duration of exactly 8 characters,
    an [aired] of 10 characters (date only) or 19 (the default, or date and
    time), and integers for [size] and [airedepoch], whatever the token
    stream holds. *)
Theorem inserted_records_have_shape e fs self (content : string) :
  destfile fs = Some content →
  Forall record_shape (inserted_films (Import e fs self).1.1).
Proof.
  intros Hdest. rewrite (Import_present e fs self content Hdest). cbv zeta.
  set (records := if ((ftUpdateStart e).2 <? 50000)%Z then 220000%Z
                  else ((ftUpdateStart e).2 + 10000)%Z).
  pose proof (import_loop_shape e records (ijson_parse e content).1 initial_updater
                decoder_inv_initial) as Hshape.
  destruct (import_loop e records (ijson_parse e content).1 initial_updater)
    as [[tr r] s1].
  cbn [fst snd] in *.
  assert (Hend : ∀ aborted status d, inserted_films (_update_end e s1 aborted status d) = []).
  { intros. by destruct (update_end_accounts e s1 aborted status d) as (? & _). }
  destruct r as [[|b]|x]; [destruct ((ijson_parse e content).2) as [|cause|]|..];
    cbn [fst snd]; unfold inserted_films in *; observe;
    rewrite ?Hend, ?app_nil_r; exact Hshape.
Qed.

Lemma inserted_records_have_shape_witness :
  Forall record_shape
    (inserted_films (Import (import_env bad_size_record (fun _ => false))
                       unpacked initial_updater).1.1)
  ∧ Forall record_shape
      (inserted_films (Import (import_env two_records (fun _ => false))
                         unpacked initial_updater).1.1).
Proof.
  split.
  - apply (inserted_records_have_shape (import_env bad_size_record (fun _ => false))
             unpacked initial_updater "catalog").
    reflexivity.
  - apply (inserted_records_have_shape (import_env two_records (fun _ => false))
             unpacked initial_updater "catalog").
    reflexivity.
Defined.

End RecordShape.
